(** * Geocache chaincode: the contract of [geocache.ts] over a key-value ledger

    The development embeds the TypeScript contract [Geocache] (file
    [chaincodes/geocache/src/geocache.ts]) together with the three record
    classes [Cache], [VisitLog] and [Trackable].

    - The world state is a finite map from keys to byte strings
      ([ctx.stub.getState], [putState], [deleteState]).
    - Byte strings are the UTF-8 text of the JSON documents the contract
      writes; a JS string is represented by its UTF-8 bytes, and strings
      are compared byte by byte (on ASCII text, such as ISO-8601 instants,
      that is the order JS gives to its UTF-16 code units).
    - [JSON.parse], json-stringify-deterministic and sort-keys-recursive
      are libraries the contract imports; they are embedded by what they
      do to text, down to the characters.
    - A transaction is a function from the world state to an outcome and a
      world state; a [throw] keeps the state reached so far, so that
      "nothing was written" is a statement about that state.
    - [hideHiddenValues] works on object references, so it is embedded
      over a heap of [Cache] objects. *)

From Stdlib Require Import String Ascii List NArith Bool Lia Permutation.
From stdpp Require Import base strings gmap list.

Local Open Scope string_scope.

(** ** Characters and text *)

Module Text.

Definition dquote : ascii := "034".
Definition backslash : ascii := "092".

Definition str1 (c : ascii) : string := String c "".

Definition is_digit (c : ascii) : bool :=
  (48 <=? N_of_ascii c)%N && (N_of_ascii c <=? 57)%N.

Definition is_ws (c : ascii) : bool :=
  Ascii.eqb c " " || Ascii.eqb c "009" || Ascii.eqb c "010" || Ascii.eqb c "013".

Fixpoint skip_ws (s : string) : string :=
  match s with
  | String c r => if is_ws c then skip_ws r else s
  | EmptyString => s
  end.

(** [join sep l] is [l.join(sep)]. *)
Fixpoint join (sep : string) (l : list string) : string :=
  match l with
  | [] => ""
  | [x] => x
  | x :: rest => x +:+ sep +:+ join sep rest
  end.

(** [s.slice(1, -1)]: the text without its first and its last character. *)
Fixpoint drop_last (s : string) : string :=
  match s with
  | EmptyString => ""
  | String c EmptyString => ""
  | String c r => String c (drop_last r)
  end.

Definition slice_1_m1 (s : string) : string :=
  match s with
  | EmptyString => ""
  | String _ r => drop_last r
  end.

(** Insertion sort of keyed entries by key, bytewise ascending: the order
    [Array.prototype.sort] gives to the key strings. *)
Fixpoint insert_by_key {A} (k : string) (a : A) (l : list (string * A)) : list (string * A) :=
  match l with
  | [] => [(k, a)]
  | (k', a') :: rest =>
      if String.leb k k' then (k, a) :: l else (k', a') :: insert_by_key k a rest
  end.

Fixpoint sort_by_key {A} (l : list (string * A)) : list (string * A) :=
  match l with
  | [] => []
  | (k, a) :: rest => insert_by_key k a (sort_by_key rest)
  end.

End Text.

Import Text.

(** ** JSON: values, [JSON.stringify], [JSON.parse] *)

Module JSON.

(** A JS value as far as JSON reaches.  A finite number is carried as the
    literal [JSON.stringify] prints for it: the contract copies
    coordinates and never computes with them. *)
#[local] Unset Elimination Schemes.
Inductive value : Type :=
| VUndef
| VNull
| VBool (b : bool)
| VNum (lit : string)
| VStr (s : string)
| VArr (items : list value)
| VObj (fields : list (string * value)).
#[local] Set Elimination Schemes.

(** *** Strings: QuoteJSONString *)

Definition hex_digit (n : N) : ascii :=
  if (n <? 10)%N then ascii_of_N (48 + n) else ascii_of_N (87 + n).

Definition escape_char (c : ascii) : string :=
  if Ascii.eqb c dquote then String backslash (str1 dquote)
  else if Ascii.eqb c backslash then String backslash (str1 backslash)
  else if Ascii.eqb c "008" then String backslash "b"
  else if Ascii.eqb c "009" then String backslash "t"
  else if Ascii.eqb c "010" then String backslash "n"
  else if Ascii.eqb c "012" then String backslash "f"
  else if Ascii.eqb c "013" then String backslash "r"
  else if (N_of_ascii c <? 32)%N then
    String backslash
      ("u00" +:+ String (hex_digit (N_of_ascii c / 16)) (str1 (hex_digit (N_of_ascii c mod 16))))
  else str1 c.

Fixpoint escape (s : string) : string :=
  match s with
  | EmptyString => ""
  | String c r => escape_char c +:+ escape r
  end.

(** [JSON.stringify(s)] for a string [s]. *)
Definition stringify_string (s : string) : string :=
  String dquote (escape s +:+ str1 dquote).

Definition hex_value (c : ascii) : option N :=
  let n := N_of_ascii c in
  if (48 <=? n)%N && (n <=? 57)%N then Some (n - 48)%N
  else if (97 <=? n)%N && (n <=? 102)%N then Some (n - 87)%N
  else if (65 <=? n)%N && (n <=? 70)%N then Some (n - 55)%N
  else None.

(** The UTF-8 bytes of one UTF-16 code unit (surrogate halves are encoded
    one by one). *)
Definition utf8_of_unit (u : N) : string :=
  if (u <? 128)%N then str1 (ascii_of_N u)
  else if (u <? 2048)%N then
    String (ascii_of_N (192 + u / 64)) (str1 (ascii_of_N (128 + u mod 64)))
  else
    String (ascii_of_N (224 + u / 4096))
      (String (ascii_of_N (128 + (u / 64) mod 64)) (str1 (ascii_of_N (128 + u mod 64)))).

Definition unescape (c : ascii) : option ascii :=
  if Ascii.eqb c dquote then Some dquote
  else if Ascii.eqb c backslash then Some backslash
  else if Ascii.eqb c "/" then Some "/"%char
  else if Ascii.eqb c "b" then Some "008"%char
  else if Ascii.eqb c "t" then Some "009"%char
  else if Ascii.eqb c "n" then Some "010"%char
  else if Ascii.eqb c "f" then Some "012"%char
  else if Ascii.eqb c "r" then Some "013"%char
  else None.

Definition prepend (p : string) (r : option (string * string)) : option (string * string) :=
  match r with
  | Some (s, rest) => Some (p +:+ s, rest)
  | None => None
  end.

(** The characters of a string literal after its opening quote, up to and
    including the closing quote. *)
Fixpoint parse_chars (s : string) : option (string * string) :=
  match s with
  | EmptyString => None
  | String c r =>
      if Ascii.eqb c dquote then Some ("", r)
      else if Ascii.eqb c backslash then
        match r with
        | String e r1 =>
            if Ascii.eqb e "u" then
              match r1 with
              | String h1 (String h2 (String h3 (String h4 r2))) =>
                  match hex_value h1, hex_value h2, hex_value h3, hex_value h4 with
                  | Some a, Some b, Some c', Some d =>
                      prepend (utf8_of_unit (((a * 16 + b) * 16 + c') * 16 + d)) (parse_chars r2)
                  | _, _, _, _ => None
                  end
              | _ => None
              end
            else
              match unescape e with
              | Some x => prepend (str1 x) (parse_chars r1)
              | None => None
              end
        | EmptyString => None
        end
      else if (N_of_ascii c <? 32)%N then None
      else prepend (str1 c) (parse_chars r)
  end.

(** *** Numbers: the JSON number grammar *)

Fixpoint span_digits (s : string) : string * string :=
  match s with
  | String c r =>
      if is_digit c then let '(ds, rest) := span_digits r in (String c ds, rest)
      else ("", s)
  | EmptyString => ("", "")
  end.

Definition scan_sign (s : string) : string * string :=
  match s with
  | String c r => if Ascii.eqb c "-" then ("-", r) else ("", s)
  | EmptyString => ("", s)
  end.

Definition scan_int (s : string) : option (string * string) :=
  match s with
  | String c r =>
      if Ascii.eqb c "0" then Some ("0", r)
      else if is_digit c then let '(ds, rest) := span_digits r in Some (String c ds, rest)
      else None
  | EmptyString => None
  end.

Definition scan_frac (s : string) : option (string * string) :=
  match s with
  | String c r =>
      if Ascii.eqb c "." then
        match span_digits r with
        | (EmptyString, _) => None
        | (ds, rest) => Some (String c ds, rest)
        end
      else Some ("", s)
  | EmptyString => Some ("", s)
  end.

Definition scan_exp_sign (s : string) : string * string :=
  match s with
  | String c r => if Ascii.eqb c "+" || Ascii.eqb c "-" then (str1 c, r) else ("", s)
  | EmptyString => ("", s)
  end.

Definition scan_exp (s : string) : option (string * string) :=
  match s with
  | String c r =>
      if Ascii.eqb c "e" || Ascii.eqb c "E" then
        let '(sg, r1) := scan_exp_sign r in
        match span_digits r1 with
        | (EmptyString, _) => None
        | (ds, rest) => Some (String c (sg +:+ ds), rest)
        end
      else Some ("", s)
  | EmptyString => Some ("", s)
  end.

Definition scan_number (s : string) : option (string * string) :=
  let '(sg, s1) := scan_sign s in
  match scan_int s1 with
  | Some (i, s2) =>
      match scan_frac s2 with
      | Some (f, s3) =>
          match scan_exp s3 with
          | Some (e, s4) => Some (sg +:+ i +:+ f +:+ e, s4)
          | None => None
          end
      | None => None
      end
  | None => None
  end.

(** A literal of a finite number: the whole text is one JSON number. *)
Definition is_number (lit : string) : bool :=
  match scan_number lit with
  | Some (_, EmptyString) => true
  | _ => false
  end.

(** *** json-stringify-deterministic *)

(** The members of an object in the order given, a member whose value is
    [undefined] left out. *)
Fixpoint members (l : list (string * option string)) : list string :=
  match l with
  | [] => []
  | (k, Some v) :: rest => (stringify_string k +:+ ":" +:+ v) :: members rest
  | (_, None) :: rest => members rest
  end.

(** [stringify(v)] of json-stringify-deterministic with its default
    options: no white space, keys sorted, [None] for [undefined]. *)
Fixpoint stringify (v : value) : option string :=
  match v with
  | VUndef => None
  | VNull => Some "null"
  | VBool b => Some (if b then "true" else "false")
  | VNum lit => Some lit
  | VStr s => Some (stringify_string s)
  | VArr items =>
      Some ("[" +:+ join "," (map (fun x => default "null" (stringify x)) items) +:+ "]")
  | VObj fields =>
      Some ("{" +:+
            join "," (members (sort_by_key (map (fun kv => (fst kv, stringify (snd kv))) fields)))
            +:+ "}")
  end.

(** *** JSON.parse *)

(** [obj[k] = v]: an existing key keeps its place. *)
Fixpoint obj_set (k : string) (v : value) (fields : list (string * value)) : list (string * value) :=
  match fields with
  | [] => [(k, v)]
  | (k', v') :: rest =>
      if String.eqb k k' then (k, v) :: rest else (k', v') :: obj_set k v rest
  end.

Definition obj_of_members (l : list (string * value)) : list (string * value) :=
  fold_left (fun acc kv => obj_set (fst kv) (snd kv) acc) l [].

Fixpoint strip_prefix (word s : string) : option string :=
  match word, s with
  | EmptyString, _ => Some s
  | String a word', String b s' => if Ascii.eqb a b then strip_prefix word' s' else None
  | String _ _, EmptyString => None
  end.

Definition expect (word : string) (v : value) (s : string) : option (value * string) :=
  match strip_prefix word s with
  | Some rest => Some (v, rest)
  | None => None
  end.

Fixpoint parse_value (fuel : nat) (s : string) : option (value * string) :=
  match fuel with
  | O => None
  | S n =>
      match skip_ws s with
      | EmptyString => None
      | String c r =>
          if Ascii.eqb c "{" then
            match skip_ws r with
            | String c' r' =>
                if Ascii.eqb c' "}" then Some (VObj [], r')
                else
                  match parse_members n (skip_ws r) with
                  | Some (l, rest) => Some (VObj (obj_of_members l), rest)
                  | None => None
                  end
            | EmptyString => None
            end
          else if Ascii.eqb c "[" then
            match skip_ws r with
            | String c' r' =>
                if Ascii.eqb c' "]" then Some (VArr [], r')
                else
                  match parse_elements n r with
                  | Some (l, rest) => Some (VArr l, rest)
                  | None => None
                  end
            | EmptyString => None
            end
          else if Ascii.eqb c dquote then
            match parse_chars r with
            | Some (x, rest) => Some (VStr x, rest)
            | None => None
            end
          else if Ascii.eqb c "t" then expect "true" (VBool true) (String c r)
          else if Ascii.eqb c "f" then expect "false" (VBool false) (String c r)
          else if Ascii.eqb c "n" then expect "null" VNull (String c r)
          else
            match scan_number (String c r) with
            | Some (lit, rest) => Some (VNum lit, rest)
            | None => None
            end
      end
  end
with parse_elements (fuel : nat) (s : string) : option (list value * string) :=
  match fuel with
  | O => None
  | S n =>
      match parse_value n s with
      | Some (v, r) =>
          match skip_ws r with
          | String c r' =>
              if Ascii.eqb c "," then
                match parse_elements n r' with
                | Some (l, rest) => Some (v :: l, rest)
                | None => None
                end
              else if Ascii.eqb c "]" then Some ([v], r')
              else None
          | EmptyString => None
          end
      | None => None
      end
  end
with parse_members (fuel : nat) (s : string) : option (list (string * value) * string) :=
  match fuel with
  | O => None
  | S n =>
      match skip_ws s with
      | String q r0 =>
          if Ascii.eqb q dquote then
            match parse_chars r0 with
            | Some (k, r1) =>
                match skip_ws r1 with
                | String c r2 =>
                    if Ascii.eqb c ":" then
                      match parse_value n r2 with
                      | Some (v, r3) =>
                          match skip_ws r3 with
                          | String c' r4 =>
                              if Ascii.eqb c' "," then
                                match parse_members n r4 with
                                | Some (l, rest) => Some ((k, v) :: l, rest)
                                | None => None
                                end
                              else if Ascii.eqb c' "}" then Some ([(k, v)], r4)
                              else None
                          | EmptyString => None
                          end
                      | None => None
                      end
                    else None
                | EmptyString => None
                end
            | None => None
            end
          else None
      | EmptyString => None
      end
  end.

(** [JSON.parse(text)]: one value, white space around it, nothing else;
    [None] is the [SyntaxError]. *)
Definition parse (text : string) : option value :=
  match parse_value (S (String.length text)) text with
  | Some (v, rest) =>
      match skip_ws rest with
      | EmptyString => Some v
      | _ => None
      end
  | None => None
  end.

(** *** Plain documents

    [print] writes a value member by member in the order given; on a
    [plain] value (no [undefined], number literals well formed, no key
    twice in an object) it is what [JSON.parse] inverts.  [need] bounds
    the recursion depth [parse_value] uses on the printed text. *)

Fixpoint print (v : value) : string :=
  match v with
  | VUndef | VNull => "null"
  | VBool b => if b then "true" else "false"
  | VNum lit => lit
  | VStr s => stringify_string s
  | VArr items => "[" +:+ join "," (map print items) +:+ "]"
  | VObj fields =>
      "{" +:+ join "," (map (fun kv => stringify_string (fst kv) +:+ ":" +:+ print (snd kv)) fields)
      +:+ "}"
  end.

#[local] Unset Elimination Schemes.
Inductive plain : value -> Prop :=
| plain_null : plain VNull
| plain_bool b : plain (VBool b)
| plain_num lit : is_number lit = true -> plain (VNum lit)
| plain_str s : plain (VStr s)
| plain_arr items : Forall plain items -> plain (VArr items)
| plain_obj fields :
    NoDup (map fst fields) -> Forall (fun kv => plain (snd kv)) fields -> plain (VObj fields).
#[local] Set Elimination Schemes.

Fixpoint need (v : value) : nat :=
  match v with
  | VArr items =>
      S ((fix go (l : list value) : nat :=
            match l with [] => 0 | x :: r => S (need x + go r) end) items)
  | VObj fields =>
      S ((fix go (l : list (string * value)) : nat :=
            match l with [] => 0 | kv :: r => S (need (snd kv) + go r) end) fields)
  | _ => 1
  end.

(** What may follow a value inside a document: nothing, or one of the
    three delimiters. *)
Definition stops (rest : string) : Prop :=
  match rest with
  | EmptyString => True
  | String c _ => c = ","%char \/ c = "]"%char \/ c = "}"%char
  end.

End JSON.

Import JSON.

(** ** sort-keys-recursive

    [sortKeys(v)] returns the value with the keys of every object in
    ascending order.  What the package does to the elements of an array is
    kept as an interface: an array comes back with the same elements, and
    doing it twice changes nothing more.  Leaving arrays as they are and
    sorting them are both instances. *)

Class SortKeysRecursive : Type := {
  sortArray : list value -> list value;
  sortArray_perm : forall l, Permutation l (sortArray l);
  sortArray_idemp : forall l, sortArray (sortArray l) = sortArray l
}.

Fixpoint sortKeys `{SortKeysRecursive} (v : value) : value :=
  match v with
  | VArr items => VArr (sortArray (map sortKeys items))
  | VObj fields => VObj (sort_by_key (map (fun kv => (fst kv, sortKeys (snd kv))) fields))
  | _ => v
  end.

(** ** The record classes: cache.ts, visitlog.ts, trackable.ts *)

(** A [number] field holds the JSON literal of a finite number (see
    [VNum]); [Cache.wf] says so of the two coordinates of a cache. *)
Definition number := string.

Definition field (k : string) (fields : list (string * value)) : option value :=
  match List.find (fun kv => String.eqb (fst kv) k) fields with
  | Some kv => Some (snd kv)
  | None => None
  end.

Definition as_string (o : option value) : option string :=
  match o with Some (VStr s) => Some s | _ => None end.

Definition as_number (o : option value) : option number :=
  match o with Some (VNum lit) => Some lit | _ => None end.

Definition as_boolean (o : option value) : option bool :=
  match o with Some (VBool b) => Some b | _ => None end.

Fixpoint as_strings (l : list value) : option (list string) :=
  match l with
  | [] => Some []
  | VStr s :: rest =>
      match as_strings rest with Some ss => Some (s :: ss) | None => None end
  | _ :: _ => None
  end.

(** An optional [string[]] property: absent or [undefined] is [None]. *)
Definition as_optional_strings (o : option value) : option (option (list string)) :=
  match o with
  | None | Some VUndef => Some None
  | Some (VArr items) =>
      match as_strings items with Some ss => Some (Some ss) | None => None end
  | Some _ => None
  end.

Module Cache.

Record t : Type := mk {
  ID : string;
  Name : string;
  Description : string;
  GPSX : number;
  GPSY : number;
  Report : string;
  Pass : string;
  Maintainer : string
}.

Definition to_value (c : t) : value :=
  VObj [("ID", VStr (ID c)); ("Name", VStr (Name c)); ("Description", VStr (Description c));
        ("GPSX", VNum (GPSX c)); ("GPSY", VNum (GPSY c)); ("Report", VStr (Report c));
        ("Pass", VStr (Pass c)); ("Maintainer", VStr (Maintainer c))].

(** The cast [as Cache]: the typed view of a parsed object.  [None] when
    the object does not have the declared shape. *)
Definition of_value (v : value) : option t :=
  match v with
  | VObj fs =>
      match as_string (field "ID" fs), as_string (field "Name" fs),
            as_string (field "Description" fs), as_number (field "GPSX" fs),
            as_number (field "GPSY" fs), as_string (field "Report" fs),
            as_string (field "Pass" fs), as_string (field "Maintainer" fs) with
      | Some i, Some n, Some d, Some x, Some y, Some r, Some p, Some m =>
          Some (mk i n d x y r p m)
      | _, _, _, _, _, _, _, _ => None
      end
  | _ => None
  end.

(** The assignment [cache.Pass = p] seen on the record. *)
Definition with_Pass (p : string) (c : t) : t :=
  mk (ID c) (Name c) (Description c) (GPSX c) (GPSY c) (Report c) p (Maintainer c).

Definition wf (c : t) : Prop :=
  is_number (GPSX c) = true /\ is_number (GPSY c) = true.

End Cache.

Module VisitLog.

Record t : Type := mk {
  ID : string;
  Trackables : option (list string);
  User : string;
  Cache : string;
  Time : string
}.

Definition to_value (l : t) : value :=
  VObj [("ID", VStr (ID l));
        ("Trackables", match Trackables l with
                       | Some ts => VArr (map VStr ts)
                       | None => VUndef
                       end);
        ("User", VStr (User l)); ("Cache", VStr (Cache l)); ("Time", VStr (Time l))].

Definition of_value (v : value) : option t :=
  match v with
  | VObj fs =>
      match as_string (field "ID" fs), as_optional_strings (field "Trackables" fs),
            as_string (field "User" fs), as_string (field "Cache" fs),
            as_string (field "Time" fs) with
      | Some i, Some ts, Some u, Some c, Some tm => Some (mk i ts u c tm)
      | _, _, _, _, _ => None
      end
  | _ => None
  end.

End VisitLog.

Module Trackable.

Record t : Type := mk {
  ID : string;
  Name : string;
  Inserted : bool;
  VisitLog : string
}.

Definition to_value (x : t) : value :=
  VObj [("ID", VStr (ID x)); ("Name", VStr (Name x)); ("Inserted", VBool (Inserted x));
        ("VisitLog", VStr (VisitLog x))].

Definition of_value (v : value) : option t :=
  match v with
  | VObj fs =>
      match as_string (field "ID" fs), as_string (field "Name" fs),
            as_boolean (field "Inserted" fs), as_string (field "VisitLog" fs) with
      | Some i, Some n, Some b, Some l => Some (mk i n b l)
      | _, _, _, _ => None
      end
  | _ => None
  end.

End Trackable.

(** ** The transaction context and the world state *)

(** What a transaction reads from its [Context] besides the ledger: the
    identity [ctx.clientIdentity.getID()], and the instant
    [new Date().toISOString()] yields. *)
Record Context : Type := {
  clientIdentity_getID : string;
  Date_toISOString : string
}.

(** What a transaction can throw: [new Error(message)], the [SyntaxError]
    of [JSON.parse], and [IllTyped] where parsed data does not have the
    shape the cast [as Cache], [as VisitLog] or [as Trackable] claims for
    it (the embedding stops there). *)
Inductive exn : Type :=
| Error (message : string)
| SyntaxError
| IllTyped.

Inductive outcome (A : Type) : Type :=
| Return (a : A)
| Throw (e : exn).
Arguments Return {A} a.
Arguments Throw {A} e.

(** The world state: key to bytes. *)
Abbreviation world := (gmap string string).

Definition Tx (A : Type) : Type := world -> outcome A * world.

Definition ret {A} (a : A) : Tx A := fun w => (Return a, w).

Definition throw {A} (e : exn) : Tx A := fun w => (Throw e, w).

Definition bind {A B} (m : Tx A) (k : A -> Tx B) : Tx B :=
  fun w =>
    match m w with
    | (Return a, w') => k a w'
    | (Throw e, w') => (Throw e, w')
    end.

Notation "'do' x <- m ; k" := (bind m (fun x => k))
  (at level 10, x name, m at level 100, k at level 200).
Notation "m ;; k" := (bind m (fun _ => k))
  (at level 100, k at level 200, right associativity).

(** [ctx.stub.getState(key)]: the bytes under the key, empty when there
    are none. *)
Definition getState (key : string) : Tx string :=
  fun w => (Return (default "" (w !! key)), w).

Definition putState (key : string) (data : string) : Tx unit :=
  fun w => (Return tt, <[key := data]> w).

Definition deleteState (key : string) : Tx unit :=
  fun w => (Return tt, delete key w).

(** [Buffer.from(text)] and [data.toString()]: text and its UTF-8 bytes
    are the same thing here.  The serializers pass the text of an object,
    which [stringify] always has; the default is never reached. *)
Definition Buffer_from (text : option string) : string := default "" text.

Section Geocache.

Context `{SortKeysRecursive}.

(** *** Helpers of the contract *)

(** [getUserID]: the identity, JSON-quoted, without the two quotes.  Its
    guard [userid != "" || userid != null] holds for every string, so the
    branch that throws is never taken. *)
Definition getUserID (ctx : Context) : string :=
  let user := clientIdentity_getID ctx in
  let userid := stringify_string user in
  slice_1_m1 userid.

Definition isMaintainer (ctx : Context) (id : string) : bool :=
  String.eqb (getUserID ctx) id.

Definition assertMaintainer (ctx : Context) (id : string) : Tx unit :=
  if negb (String.eqb (getUserID ctx) id) then throw (Error "Not maintainer") else ret tt.

Definition makeCacheID (id : string) : string := "CACHE-" +:+ id.
Definition makeLogID (id : string) : string := "LOG-" +:+ id.
Definition makeTrackableID (id : string) : string := "TRACKABLE-" +:+ id.

Definition serializeCache (cache : Cache.t) : string :=
  Buffer_from (stringify (sortKeys (Cache.to_value cache))).

Definition serializeLog (visitLog : VisitLog.t) : string :=
  Buffer_from (stringify (sortKeys (VisitLog.to_value visitLog))).

Definition serializeTrackable (trackable : Trackable.t) : string :=
  Buffer_from (stringify (sortKeys (Trackable.to_value trackable))).

Definition deserialize {A} (cast : value -> option A) (data : string) : Tx A :=
  match parse data with
  | Some v =>
      match cast v with
      | Some a => ret a
      | None => throw IllTyped
      end
  | None => throw SyntaxError
  end.

Definition deserializeCache (data : string) : Tx Cache.t := deserialize Cache.of_value data.
Definition deserializeLog (data : string) : Tx VisitLog.t := deserialize VisitLog.of_value data.
Definition deserializeTrackable (data : string) : Tx Trackable.t :=
  deserialize Trackable.of_value data.

(** The movement tags of a log in the order [sortKeys] leaves an array of
    them in, and a log as it reads back from the bytes [serializeLog]
    writes for it. *)
Definition sortTags (ts : list string) : list string :=
  default ts (as_strings (sortArray (map VStr ts))).

Definition stored_log (l : VisitLog.t) : VisitLog.t :=
  VisitLog.mk (VisitLog.ID l) (option_map sortTags (VisitLog.Trackables l))
    (VisitLog.User l) (VisitLog.Cache l) (VisitLog.Time l).

(** [data !== undefined && data.length > 0] *)
Definition nonempty (data : string) : bool := negb (String.eqb data "").

Definition CacheExists (ctx : Context) (CacheID : string) : Tx bool :=
  do data <- getState (makeCacheID CacheID);
  ret (nonempty data).

Definition LogExists (ctx : Context) (LogID : string) : Tx bool :=
  do data <- getState (makeLogID LogID);
  ret (nonempty data).

Definition TrackableExists (ctx : Context) (TrackableID : string) : Tx bool :=
  do data <- getState (makeTrackableID TrackableID);
  ret (nonempty data).

Definition assertCacheNotExists (ctx : Context) (CacheID : string) : Tx unit :=
  do b <- CacheExists ctx CacheID;
  if b then throw (Error ("Cache " +:+ CacheID +:+ " already exists")) else ret tt.

Definition assertCacheExists (ctx : Context) (CacheID : string) : Tx unit :=
  do b <- CacheExists ctx CacheID;
  if negb b then throw (Error ("Cache " +:+ CacheID +:+ " does not exist")) else ret tt.

Definition assertLogNotExists (ctx : Context) (id : string) : Tx unit :=
  do b <- LogExists ctx id;
  if b then throw (Error ("Log " +:+ id +:+ " already exists")) else ret tt.

Definition assertLogExists (ctx : Context) (id : string) : Tx unit :=
  do b <- LogExists ctx id;
  if negb b then throw (Error ("Log " +:+ id +:+ " does not exist")) else ret tt.

Definition assertTrackableNotExists (ctx : Context) (id : string) : Tx unit :=
  do b <- TrackableExists ctx id;
  if b then throw (Error ("Trackable " +:+ id +:+ " already exists")) else ret tt.

Definition assertTrackableExists (ctx : Context) (id : string) : Tx unit :=
  do b <- TrackableExists ctx id;
  if negb b then throw (Error ("Trackable " +:+ id +:+ " does not exist")) else ret tt.

(** *** [hideHiddenValues] on object references

    [let newCache: Cache = cache] binds a second name to the object
    [cache] refers to; the assignment to [newCache.Pass] is an assignment
    to that object. *)

Abbreviation ref := nat (only parsing).
Abbreviation heap := (gmap nat Cache.t).

Definition hideHiddenValues (ctx : Context) (cache : ref) (h : heap) : ref * heap :=
  let newCache := cache in
  match h !! cache with
  | Some c =>
      if negb (isMaintainer ctx (Cache.Maintainer c))
      then (newCache, <[newCache := Cache.with_Pass "" c]> h)
      else (newCache, h)
  | None => (newCache, h)
  end.

(** A call of [f] on an object nothing else refers to (the result of
    [JSON.parse], or an object literal that is not read again): the
    object the returned reference leads to. *)
Definition on_fresh_object (f : ref -> heap -> ref * heap) (c : Cache.t) : Cache.t :=
  let '(r, h) := f 0 {[ 0 := c ]} in
  default c (h !! r).

(** *** Maintainer transactions *)

Definition UpdateCache (ctx : Context) (CacheID Name Description : string) (GPSX GPSY : number)
    (Pass Report : string) : Tx Cache.t :=
  assertCacheExists ctx CacheID ;;
  do data <- getState (makeCacheID CacheID);
  do old <- deserializeCache data;
  let Maintainer := Cache.Maintainer old in
  assertMaintainer ctx Maintainer ;;
  let cache := Cache.mk CacheID Name Description GPSX GPSY Report Pass Maintainer in
  putState (makeCacheID CacheID) (serializeCache cache) ;;
  ret cache.

Definition DeleteCache (ctx : Context) (CacheID : string) : Tx string :=
  assertCacheExists ctx CacheID ;;
  do data <- getState (makeCacheID CacheID);
  do old <- deserializeCache data;
  let Maintainer := Cache.Maintainer old in
  assertMaintainer ctx Maintainer ;;
  deleteState (makeCacheID CacheID) ;;
  ret CacheID.

Definition GetCachePass (ctx : Context) (CacheID : string) : Tx string :=
  assertCacheExists ctx CacheID ;;
  do data <- getState (makeCacheID CacheID);
  do old <- deserializeCache data;
  let Maintainer := Cache.Maintainer old in
  assertMaintainer ctx Maintainer ;;
  do data' <- getState (makeCacheID CacheID);
  do again <- deserializeCache data';
  ret (Cache.Pass again).

(** *** Public transactions: caches *)

Definition CreateCache (ctx : Context) (CacheID Name Description : string) (GPSX GPSY : number)
    (Pass : string) : Tx Cache.t :=
  assertCacheNotExists ctx CacheID ;;
  let Maintainer := getUserID ctx in
  let cache := Cache.mk CacheID Name Description GPSX GPSY "" Pass Maintainer in
  putState (makeCacheID CacheID) (serializeCache cache) ;;
  ret cache.

Definition GetCache (ctx : Context) (CacheID : string) : Tx Cache.t :=
  assertCacheExists ctx CacheID ;;
  do data <- getState (makeCacheID CacheID);
  do cache <- deserializeCache data;
  ret (on_fresh_object (hideHiddenValues ctx) cache).

Definition ReportCache (ctx : Context) (CacheID Report : string) : Tx Cache.t :=
  assertCacheExists ctx CacheID ;;
  do data <- getState (makeCacheID CacheID);
  do oldCache <- deserializeCache data;
  let newcache :=
    Cache.mk CacheID (Cache.Name oldCache) (Cache.Description oldCache) (Cache.GPSX oldCache)
      (Cache.GPSY oldCache) Report (Cache.Pass oldCache) (Cache.Maintainer oldCache) in
  putState (makeCacheID CacheID) (serializeCache newcache) ;;
  ret (on_fresh_object (hideHiddenValues ctx) newcache).

(** *** Public transactions: visit logs *)

Definition CreateLog (ctx : Context) (LogID CacheID Pass : string) : Tx VisitLog.t :=
  assertCacheExists ctx CacheID ;;
  assertLogNotExists ctx LogID ;;
  do data <- getState (makeCacheID CacheID);
  do cache <- deserializeCache data;
  if negb (String.eqb Pass (Cache.Pass cache)) then throw (Error "Wrong Pass!")
  else
    let visitLog := VisitLog.mk LogID (Some []) (getUserID ctx) CacheID (Date_toISOString ctx) in
    putState (makeLogID LogID) (serializeLog visitLog) ;;
    ret visitLog.

Definition GetLog (ctx : Context) (ID : string) : Tx VisitLog.t :=
  assertLogExists ctx ID ;;
  do data <- getState ID;
  deserializeLog data.

(** *** Public transactions: trackables *)

(** [[...(ts || []), tag]] *)
Definition spread_push (ts : option (list string)) (tag : string) : option (list string) :=
  Some (default [] ts ++ [tag])%list.

Definition CreateTrackable (ctx : Context) (TrackableID LogID Name : string) : Tx Trackable.t :=
  assertLogExists ctx LogID ;;
  assertTrackableNotExists ctx TrackableID ;;
  do data <- getState (makeLogID LogID);
  do newVisitLog <- deserializeLog data;
  if negb (String.eqb (getUserID ctx) (VisitLog.User newVisitLog)) then
    throw (Error ("Visitlog " +:+ LogID +:+ " is not made by " +:+ getUserID ctx))
  else
    let trackable := Trackable.mk TrackableID Name true LogID in
    let newVisitLogEdited :=
      VisitLog.mk (VisitLog.ID newVisitLog)
        (spread_push (VisitLog.Trackables newVisitLog) (TrackableID +:+ "-IN"))
        (VisitLog.User newVisitLog) (VisitLog.Cache newVisitLog) (VisitLog.Time newVisitLog) in
    putState (makeTrackableID TrackableID) (serializeTrackable trackable) ;;
    putState (makeLogID (VisitLog.ID newVisitLog)) (serializeLog newVisitLogEdited) ;;
    ret trackable.

Definition InsertTrackable (ctx : Context) (TrackableID LogID : string) : Tx Trackable.t :=
  assertLogExists ctx LogID ;;
  assertTrackableExists ctx TrackableID ;;
  do tdata <- getState (makeTrackableID TrackableID);
  do trackable <- deserializeTrackable tdata;
  if Bool.eqb (Trackable.Inserted trackable) true then
    throw (Error ("Trackable " +:+ TrackableID +:+ " is already inserted"))
  else
    do odata <- getState (makeLogID (Trackable.VisitLog trackable));
    do oldVisitLog <- deserializeLog odata;
    do ndata <- getState (makeLogID LogID);
    do newVisitLog <- deserializeLog ndata;
    if negb (String.eqb (VisitLog.User oldVisitLog) (VisitLog.User newVisitLog)) then
      throw (Error ("Trackable " +:+ TrackableID +:+ " is not owned by "
                    +:+ VisitLog.User newVisitLog))
    else if negb (String.eqb (getUserID ctx) (VisitLog.User newVisitLog)) then
      throw (Error ("Visitlog " +:+ LogID +:+ " is not made by " +:+ getUserID ctx))
    else if String.leb (VisitLog.Time newVisitLog) (VisitLog.Time oldVisitLog) then
      throw (Error ("Visitlog " +:+ LogID +:+ " is before " +:+ Trackable.VisitLog trackable))
    else
      let newTrackable := Trackable.mk TrackableID (Trackable.Name trackable) true LogID in
      let newVisitLogEdited :=
        VisitLog.mk (VisitLog.ID newVisitLog)
          (spread_push (VisitLog.Trackables newVisitLog) (TrackableID +:+ "-IN"))
          (VisitLog.User newVisitLog) (VisitLog.Cache newVisitLog) (VisitLog.Time newVisitLog) in
      putState (makeTrackableID TrackableID) (serializeTrackable newTrackable) ;;
      putState (makeLogID (VisitLog.ID newVisitLog)) (serializeLog newVisitLogEdited) ;;
      ret newTrackable.

Definition RemoveTrackable (ctx : Context) (TrackableID LogID : string) : Tx Trackable.t :=
  assertLogExists ctx LogID ;;
  assertTrackableExists ctx TrackableID ;;
  do tdata <- getState (makeTrackableID TrackableID);
  do trackable <- deserializeTrackable tdata;
  if negb (Bool.eqb (Trackable.Inserted trackable) true) then
    throw (Error ("Trackable " +:+ TrackableID +:+ " is not inserted"))
  else
    do odata <- getState (makeLogID (Trackable.VisitLog trackable));
    do oldVisitLog <- deserializeLog odata;
    do ndata <- getState (makeLogID LogID);
    do newVisitLog <- deserializeLog ndata;
    if negb (String.eqb (getUserID ctx) (VisitLog.User newVisitLog)) then
      throw (Error ("Visitlog " +:+ LogID +:+ " is not made by " +:+ getUserID ctx))
    else if String.leb (VisitLog.Time newVisitLog) (VisitLog.Time oldVisitLog) then
      throw (Error ("Visitlog " +:+ LogID +:+ " is before " +:+ Trackable.VisitLog trackable))
    else if negb (String.eqb (VisitLog.Cache newVisitLog) (VisitLog.Cache oldVisitLog)) then
      throw (Error ("Trackable " +:+ TrackableID +:+ " and Visitlog " +:+ LogID
                    +:+ " is for different caches"))
    else
      let newTrackable := Trackable.mk TrackableID (Trackable.Name trackable) false LogID in
      let newVisitLogEdited :=
        VisitLog.mk (VisitLog.ID newVisitLog)
          (spread_push (VisitLog.Trackables newVisitLog) (TrackableID +:+ "-OUT"))
          (VisitLog.User newVisitLog) (VisitLog.Cache newVisitLog) (VisitLog.Time newVisitLog) in
      putState (makeTrackableID TrackableID) (serializeTrackable newTrackable) ;;
      putState (makeLogID (VisitLog.ID newVisitLog)) (serializeLog newVisitLogEdited) ;;
      ret newTrackable.

Definition GetTrackable (ctx : Context) (TrackableID : string) : Tx Trackable.t :=
  assertTrackableExists ctx TrackableID ;;
  do data <- getState (makeTrackableID TrackableID);
  deserializeTrackable data.

End Geocache.

(** ** The rest of the contract: listings, the fixture loader, Whoami, Ping *)

(** [ctx.stub.getStateByRange(startKey, endKey)]: the entries whose key
    lies between [startKey] (included) and [endKey] (excluded), in the
    lexical order of the keys.  The iterator is embedded as the list of
    the entries it yields. *)
Definition in_range (startKey endKey key : string) : bool :=
  String.leb startKey key && String.ltb key endKey.

Definition getStateByRange (startKey endKey : string) : Tx (list (string * string)) :=
  fun w =>
    (Return (sort_by_key
               (map_to_list (filter (fun kv => in_range startKey endKey (fst kv) = true) w))),
     w).

(** [while (!result.done) { results.push(visit(result.value.value)); ... }] *)
Fixpoint iterate {A} (visit : string -> Tx A) (entries : list (string * string)) : Tx (list A) :=
  match entries with
  | [] => ret []
  | (_, data) :: rest =>
      do a <- visit data;
      do results <- iterate visit rest;
      ret (a :: results)
  end.

Section Geocache_rest.

Context `{SortKeysRecursive}.

Definition GetAllCaches (ctx : Context) : Tx (list Cache.t) :=
  do iterator <- getStateByRange "CACHE-" "CACHE-~";
  iterate (fun data =>
             do cache <- deserializeCache data;
             ret (on_fresh_object (hideHiddenValues ctx) cache))
          iterator.

Definition GetAllLogs (ctx : Context) : Tx (list VisitLog.t) :=
  do iterator <- getStateByRange "LOG-" "LOG-~";
  iterate deserializeLog iterator.

Definition GetAllTrackables (ctx : Context) : Tx (list Trackable.t) :=
  do iterator <- getStateByRange "TRACKABLE-" "TRACKABLE-~";
  iterate deserializeTrackable iterator.

Definition Whoami (ctx : Context) : Tx string := ret (getUserID ctx).

Definition Ping : Tx string := ret "pong".

(** The maintainer of the first fixture cache and the user of the first
    fixture log: the word admin between two double quotes. *)
Definition quoted_admin : string := String dquote ("admin" +:+ str1 dquote).

Definition InitCaches (ctx : Context) : Tx unit :=
  let caches :=
    [Cache.mk "cache1" "First Cache" "This is the first cache ever!" "12" "36" ""
       "CachePass123" quoted_admin;
     Cache.mk "cache2" "Second Cache" "This is the second cache ever!" "69" "420" ""
       "asd123" "Gaspacchio";
     Cache.mk "cache3" "Third Cache" "This is the third cache ever!" "11" "11" ""
       "asd123" "Snitzel"] in
  foldr (fun cache rest => putState (makeCacheID (Cache.ID cache)) (serializeCache cache) ;; rest)
    (ret tt) caches.

(** The three instants [new Date().toISOString()] yields while the array
    of fixture logs is built are arguments. *)
Definition InitLogs (ctx : Context) (instants : string * string * string) : Tx unit :=
  let '(i1, i2, i3) := instants in
  let logs :=
    [VisitLog.mk "log1" (Some ["trackable1-IN"]) quoted_admin "cache1" i1;
     VisitLog.mk "log2" (Some ["trackable2-IN"]) "user2" "cache2" i2;
     VisitLog.mk "log3" (Some ["trackable3-IN"]) "user3" "cache3" i3] in
  foldr (fun log rest => putState (makeLogID (VisitLog.ID log)) (serializeLog log) ;; rest)
    (ret tt) logs.

Definition InitTrackables (ctx : Context) : Tx unit :=
  let trackables :=
    [Trackable.mk "trackable1" "First Trackable" true "log1";
     Trackable.mk "trackable2" "Second Trackable" true "log2";
     Trackable.mk "trackable3" "Third Trackable" true "log3"] in
  foldr (fun trackable rest =>
           putState (makeTrackableID (Trackable.ID trackable)) (serializeTrackable trackable) ;;
           rest)
    (ret tt) trackables.

Definition InitLedger (ctx : Context) (instants : string * string * string) : Tx string :=
  InitCaches ctx ;;
  InitLogs ctx instants ;;
  InitTrackables ctx ;;
  ret "Ledger initialized".

(** *** Transactions that write, as one type *)

Inductive call : Type :=
| Call_CreateCache (CacheID Name Description : string) (GPSX GPSY : number) (Pass : string)
| Call_UpdateCache (CacheID Name Description : string) (GPSX GPSY : number) (Pass Report : string)
| Call_DeleteCache (CacheID : string)
| Call_ReportCache (CacheID Report : string)
| Call_CreateLog (LogID CacheID Pass : string)
| Call_CreateTrackable (TrackableID LogID Name : string)
| Call_InsertTrackable (TrackableID LogID : string)
| Call_RemoveTrackable (TrackableID LogID : string).

(** What is left of a transaction when its return value is set aside:
    the exception it threw, if any, and the world state. *)
Definition ended {A} (r : outcome A * gmap string string) : option exn * gmap string string :=
  match r with
  | (Return _, w) => (None, w)
  | (Throw e, w) => (Some e, w)
  end.

Definition submit (ctx : Context) (c : call) (w : gmap string string)
    : option exn * gmap string string :=
  match c with
  | Call_CreateCache i n d x y p => ended (CreateCache ctx i n d x y p w)
  | Call_UpdateCache i n d x y p r => ended (UpdateCache ctx i n d x y p r w)
  | Call_DeleteCache i => ended (DeleteCache ctx i w)
  | Call_ReportCache i r => ended (ReportCache ctx i r w)
  | Call_CreateLog l i p => ended (CreateLog ctx l i p w)
  | Call_CreateTrackable t l n => ended (CreateTrackable ctx t l n w)
  | Call_InsertTrackable t l => ended (InsertTrackable ctx t l w)
  | Call_RemoveTrackable t l => ended (RemoveTrackable ctx t l w)
  end.

(** The coordinates a call carries are numbers. *)
Definition numeric (c : call) : Prop :=
  match c with
  | Call_CreateCache _ _ _ x y _ | Call_UpdateCache _ _ _ x y _ _ =>
      is_number x = true /\ is_number y = true
  | _ => True
  end.

(** *** Well-formed ledgers

    Every key is the key of a record of one of the three kinds and holds
    the bytes of that record, and every trackable points to a log that is
    on the ledger. *)
Definition entry_ok (key data : string) : Prop :=
  (exists c, Cache.wf c /\ key = makeCacheID (Cache.ID c) /\ data = serializeCache c)
  \/ (exists l, key = makeLogID (VisitLog.ID l) /\ data = serializeLog l)
  \/ (exists x, key = makeTrackableID (Trackable.ID x) /\ data = serializeTrackable x).

Definition well_formed (w : gmap string string) : Prop :=
  (forall key data, w !! key = Some data -> entry_ok key data)
  /\ (forall x,
         w !! makeTrackableID (Trackable.ID x) = Some (serializeTrackable x) ->
         exists l, w !! makeLogID (Trackable.VisitLog x) = Some (serializeLog l)).

End Geocache_rest.

(** ** Vocabulary of the specification

    The error kinds of the specification, as the messages the contract
    throws for them, and the two movements of a trackable. *)

Definition NotFound (kind id : string) : exn :=
  Error (kind +:+ " " +:+ id +:+ " does not exist").

Definition AlreadyExists (kind id : string) : exn :=
  Error (kind +:+ " " +:+ id +:+ " already exists").

Definition NotMaintainer : exn := Error "Not maintainer".

Definition NotOwnedBy (trackable user : string) : exn :=
  Error ("Trackable " +:+ trackable +:+ " is not owned by " +:+ user).

Definition NotMadeBy (log user : string) : exn :=
  Error ("Visitlog " +:+ log +:+ " is not made by " +:+ user).

Definition TemporalOrderViolation (newLog oldLog : string) : exn :=
  Error ("Visitlog " +:+ newLog +:+ " is before " +:+ oldLog).

Definition DifferentCaches (trackable log : string) : exn :=
  Error ("Trackable " +:+ trackable +:+ " and Visitlog " +:+ log +:+ " is for different caches").

Inductive movement : Type := MoveIn | MoveOut.

Definition transfer `{SortKeysRecursive} (d : movement) :
    Context -> string -> string -> Tx Trackable.t :=
  match d with
  | MoveIn => InsertTrackable
  | MoveOut => RemoveTrackable
  end.

(** The state a trackable is in before the movement, and the one after. *)
Definition inserted_before (d : movement) : bool :=
  match d with MoveIn => false | MoveOut => true end.

Definition inserted_after (d : movement) : bool :=
  match d with MoveIn => true | MoveOut => false end.

Definition movement_tag (d : movement) (trackable : string) : string :=
  match d with
  | MoveIn => trackable +:+ "-IN"
  | MoveOut => trackable +:+ "-OUT"
  end.

(** A log with one more movement tag. *)
Definition log_with_tag (l : VisitLog.t) (tag : string) : VisitLog.t :=
  VisitLog.mk (VisitLog.ID l) (spread_push (VisitLog.Trackables l) tag)
    (VisitLog.User l) (VisitLog.Cache l) (VisitLog.Time l).

(** ** Facts about the JSON text layer *)

Module JSON_facts.
Import JSON.

Section value_induction.
Variable P : value -> Prop.
Hypothesis Hundef : P VUndef.
Hypothesis Hnull : P VNull.
Hypothesis Hbool : forall b, P (VBool b).
Hypothesis Hnum : forall lit, P (VNum lit).
Hypothesis Hstr : forall s, P (VStr s).
Hypothesis Harr : forall items, Forall P items -> P (VArr items).
Hypothesis Hobj : forall fields, Forall (fun kv => P (snd kv)) fields -> P (VObj fields).

Fixpoint value_ind (v : value) : P v :=
  match v with
  | VUndef => Hundef
  | VNull => Hnull
  | VBool b => Hbool b
  | VNum lit => Hnum lit
  | VStr s => Hstr s
  | VArr items =>
      Harr items
        ((fix go (l : list value) : Forall P l :=
            match l with
            | [] => List.Forall_nil _
            | x :: r => @List.Forall_cons _ P x r (value_ind x) (go r)
            end) items)
  | VObj fields =>
      Hobj fields
        ((fix go (l : list (string * value)) : Forall (fun kv => P (snd kv)) l :=
            match l with
            | [] => List.Forall_nil _
            | kv :: r => @List.Forall_cons _ (fun kv => P (snd kv)) kv r (value_ind (snd kv)) (go r)
            end) fields)
  end.
End value_induction.

Lemma sapp_cons c s t : String c s +:+ t = String c (s +:+ t).
Proof. reflexivity. Qed.

Lemma sapp_nil_r s : s +:+ "" = s.
Proof. induction s as [|c s IH]; [reflexivity|]. rewrite sapp_cons, IH. reflexivity. Qed.

Lemma sapp_assoc s t u : (s +:+ t) +:+ u = s +:+ (t +:+ u).
Proof. induction s as [|c s IH]; [reflexivity|]. rewrite !sapp_cons, IH. reflexivity. Qed.

Lemma slength_app s t : String.length (s +:+ t) = String.length s + String.length t.
Proof.
  induction s as [|c s IH]; [reflexivity|].
  rewrite sapp_cons. simpl. rewrite IH. reflexivity.
Qed.

(** *** Strings *)

Lemma parse_chars_escape_char c rest :
  parse_chars (escape_char c +:+ rest) = prepend (str1 c) (parse_chars rest).
Proof. destruct c as [[] [] [] [] [] [] [] []]; reflexivity. Qed.

Lemma parse_chars_escape s rest :
  parse_chars (escape s +:+ String dquote rest) = Some (s, rest).
Proof.
  induction s as [|c s IH].
  - reflexivity.
  - cbn [escape]. rewrite sapp_assoc, parse_chars_escape_char, IH. reflexivity.
Qed.

(** *** Numbers *)

Lemma stops_inv rest :
  stops rest ->
  rest = "" \/ exists c r, rest = String c r /\ (c = ","%char \/ c = "]"%char \/ c = "}"%char).
Proof. destruct rest as [|c r]; [left; reflexivity|]. intros Hc. right. eauto. Qed.

Lemma span_digits_app s rest :
  stops rest ->
  span_digits (s +:+ rest) = (fst (span_digits s), snd (span_digits s) +:+ rest).
Proof.
  intros Hst. induction s as [|c s IH].
  - destruct (stops_inv _ Hst) as [-> | (c & r & -> & [-> | [-> | ->]])]; reflexivity.
  - rewrite sapp_cons. cbn [span_digits]. destruct (is_digit c); [|reflexivity].
    rewrite IH. destruct (span_digits s); reflexivity.
Qed.

Lemma span_digits_consumed s : s = fst (span_digits s) +:+ snd (span_digits s).
Proof.
  induction s as [|c s IH]; [reflexivity|].
  cbn [span_digits]. destruct (is_digit c); [|reflexivity].
  destruct (span_digits s) as [ds r]. cbn [fst snd] in *. rewrite sapp_cons, <- IH. reflexivity.
Qed.

Lemma scan_int_app s a r rest :
  scan_int s = Some (a, r) -> stops rest -> scan_int (s +:+ rest) = Some (a, r +:+ rest).
Proof.
  destruct s as [|c s]; [discriminate|]. intros Hs Hst. rewrite sapp_cons.
  unfold scan_int in *. destruct (Ascii.eqb c "0").
  - injection Hs as <- <-. reflexivity.
  - destruct (is_digit c); [|discriminate].
    rewrite span_digits_app by assumption.
    destruct (span_digits s) as [ds r']. injection Hs as <- <-. reflexivity.
Qed.

Lemma scan_int_consumed s a r : scan_int s = Some (a, r) -> s = a +:+ r.
Proof.
  destruct s as [|c s]; [discriminate|]. unfold scan_int.
  destruct (Ascii.eqb c "0") eqn:E.
  - intros [= <- <-]. apply Ascii.eqb_eq in E. subst c. reflexivity.
  - destruct (is_digit c); [|discriminate].
    pose proof (span_digits_consumed s) as Hc.
    destruct (span_digits s) as [ds r']. intros [= <- <-]. rewrite sapp_cons. f_equal. exact Hc.
Qed.

Lemma scan_frac_app s a r rest :
  scan_frac s = Some (a, r) -> stops rest -> scan_frac (s +:+ rest) = Some (a, r +:+ rest).
Proof.
  intros Hs Hst. destruct s as [|c s].
  - injection Hs as <- <-.
    destruct (stops_inv _ Hst) as [-> | (c & r & -> & [-> | [-> | ->]])]; reflexivity.
  - rewrite sapp_cons. unfold scan_frac in *. destruct (Ascii.eqb c ".").
    + rewrite span_digits_app by assumption.
      destruct (span_digits s) as [[|d ds] r']; [discriminate|].
      injection Hs as <- <-. reflexivity.
    + injection Hs as <- <-. reflexivity.
Qed.

Lemma scan_frac_consumed s a r : scan_frac s = Some (a, r) -> s = a +:+ r.
Proof.
  destruct s as [|c s]; [intros [= <- <-]; reflexivity|]. unfold scan_frac.
  destruct (Ascii.eqb c ".").
  - pose proof (span_digits_consumed s) as Hc.
    destruct (span_digits s) as [[|d ds] r']; [discriminate|].
    intros [= <- <-]. rewrite sapp_cons. f_equal. exact Hc.
  - intros [= <- <-]. reflexivity.
Qed.

Lemma scan_exp_app s a r rest :
  scan_exp s = Some (a, r) -> stops rest -> scan_exp (s +:+ rest) = Some (a, r +:+ rest).
Proof.
  intros Hs Hst. destruct s as [|c s].
  - injection Hs as <- <-.
    destruct (stops_inv _ Hst) as [-> | (c & r & -> & [-> | [-> | ->]])]; reflexivity.
  - rewrite sapp_cons. unfold scan_exp in *. destruct (Ascii.eqb c "e" || Ascii.eqb c "E").
    + assert (Hsg : scan_exp_sign (s +:+ rest)
                    = (fst (scan_exp_sign s), snd (scan_exp_sign s) +:+ rest)
                    \/ s = "").
      { destruct s as [|d s']; [right; reflexivity|left].
        rewrite sapp_cons. unfold scan_exp_sign.
        destruct (Ascii.eqb d "+" || Ascii.eqb d "-"); reflexivity. }
      destruct Hsg as [Hsg | ->]; [|discriminate].
      rewrite Hsg. destruct (scan_exp_sign s) as [sg r1]. cbn [fst snd].
      rewrite span_digits_app by assumption.
      destruct (span_digits r1) as [[|d ds] r']; [discriminate|].
      injection Hs as <- <-. reflexivity.
    + injection Hs as <- <-. reflexivity.
Qed.

Lemma scan_exp_consumed s a r : scan_exp s = Some (a, r) -> s = a +:+ r.
Proof.
  destruct s as [|c s]; [intros [= <- <-]; reflexivity|]. unfold scan_exp.
  destruct (Ascii.eqb c "e" || Ascii.eqb c "E").
  - assert (Hsg : s = fst (scan_exp_sign s) +:+ snd (scan_exp_sign s)).
    { destruct s as [|d s']; [reflexivity|]. unfold scan_exp_sign.
      destruct (Ascii.eqb d "+" || Ascii.eqb d "-"); reflexivity. }
    destruct (scan_exp_sign s) as [sg r1]. cbn [fst snd] in Hsg.
    pose proof (span_digits_consumed r1) as Hc.
    destruct (span_digits r1) as [[|d ds] r']; [discriminate|].
    intros [= <- <-]. rewrite sapp_cons. f_equal. rewrite sapp_assoc.
    cbn [fst snd] in Hc. rewrite <- Hc. exact Hsg.
  - intros [= <- <-]. reflexivity.
Qed.

Lemma scan_number_app s a r rest :
  scan_number s = Some (a, r) -> stops rest -> scan_number (s +:+ rest) = Some (a, r +:+ rest).
Proof.
  intros Hs Hst. unfold scan_number in *.
  assert (Hsg : scan_sign (s +:+ rest) = (fst (scan_sign s), snd (scan_sign s) +:+ rest)).
  { destruct s as [|c s]; [discriminate|]. rewrite sapp_cons. unfold scan_sign.
    destruct (Ascii.eqb c "-"); reflexivity. }
  rewrite Hsg. destruct (scan_sign s) as [sg s1]. cbn [fst snd].
  destruct (scan_int s1) as [[i s2]|] eqn:Hi; [|discriminate].
  rewrite (scan_int_app _ _ _ _ Hi Hst).
  destruct (scan_frac s2) as [[f s3]|] eqn:Hf; [|discriminate].
  rewrite (scan_frac_app _ _ _ _ Hf Hst).
  destruct (scan_exp s3) as [[e s4]|] eqn:He; [|discriminate].
  rewrite (scan_exp_app _ _ _ _ He Hst).
  injection Hs as <- <-. reflexivity.
Qed.

Lemma scan_number_consumed s a r : scan_number s = Some (a, r) -> s = a +:+ r.
Proof.
  unfold scan_number.
  assert (Hsg : s = fst (scan_sign s) +:+ snd (scan_sign s)).
  { destruct s as [|c s]; [reflexivity|]. unfold scan_sign.
    destruct (Ascii.eqb c "-") eqn:E; [|reflexivity].
    apply Ascii.eqb_eq in E. subst c. reflexivity. }
  destruct (scan_sign s) as [sg s1]. cbn [fst snd] in Hsg.
  destruct (scan_int s1) as [[i s2]|] eqn:Hi; [|discriminate].
  destruct (scan_frac s2) as [[f s3]|] eqn:Hf; [|discriminate].
  destruct (scan_exp s3) as [[e s4]|] eqn:He; [|discriminate].
  intros [= <- <-].
  apply scan_int_consumed in Hi. apply scan_frac_consumed in Hf. apply scan_exp_consumed in He.
  rewrite !sapp_assoc. subst. reflexivity.
Qed.

Lemma is_number_scan lit : is_number lit = true -> scan_number lit = Some (lit, "").
Proof.
  unfold is_number. destruct (scan_number lit) as [[a [|c r]]|] eqn:E; try discriminate.
  intros _. apply scan_number_consumed in E. rewrite sapp_nil_r in E. subst. reflexivity.
Qed.

Lemma scan_number_literal lit rest :
  is_number lit = true -> stops rest -> scan_number (lit +:+ rest) = Some (lit, rest).
Proof.
  intros Hl Hst. apply is_number_scan in Hl.
  rewrite (scan_number_app _ _ _ _ Hl Hst). reflexivity.
Qed.

Lemma is_number_head lit :
  is_number lit = true ->
  exists c r, lit = String c r /\ (c = "-"%char \/ is_digit c = true).
Proof.
  intros Hl. apply is_number_scan in Hl. destruct lit as [|c r]; [discriminate|].
  exists c, r. split; [reflexivity|].
  unfold scan_number, scan_sign in Hl. destruct (Ascii.eqb c "-") eqn:E.
  - left. apply Ascii.eqb_eq in E. exact E.
  - right. unfold scan_int in Hl. destruct (Ascii.eqb c "0") eqn:E0.
    + apply Ascii.eqb_eq in E0. subst c. reflexivity.
    + destruct (is_digit c); [reflexivity|discriminate].
Qed.

Lemma number_dispatch c r n :
  c = "-"%char \/ is_digit c = true ->
  parse_value (S n) (String c r)
  = match scan_number (String c r) with
    | Some (lit, rest) => Some (VNum lit, rest)
    | None => None
    end.
Proof.
  destruct c as [[] [] [] [] [] [] [] []]; intros [Hc | Hc]; try discriminate Hc; reflexivity.
Qed.


(** *** Documents *)

Lemma print_head v :
  plain v ->
  exists c r, print v = String c r /\ is_ws c = false /\ Ascii.eqb c "]" = false.
Proof.
  intros Hv. destruct Hv as [ | [] | lit Hl | s | items _ | fields _ _ ];
    try (eexists _, _; split; [reflexivity | split; reflexivity]).
  destruct (is_number_head _ Hl) as (c & r & -> & Hc). exists c, r.
  split; [reflexivity|].
  clear Hl. destruct c as [[] [] [] [] [] [] [] []]; destruct Hc as [Hc | Hc];
    try discriminate Hc; split; reflexivity.
Qed.

Lemma obj_set_fresh k v acc :
  k ∉ map fst acc -> obj_set k v acc = (acc ++ [(k, v)])%list.
Proof.
  induction acc as [|[k' v'] acc IH]; [reflexivity|].
  intros Hk. cbn [map fst] in Hk. apply not_elem_of_cons in Hk as [Hne Hk].
  cbn [obj_set]. destruct (String.eqb_spec k k') as [->|_]; [contradiction|].
  rewrite IH by assumption. reflexivity.
Qed.

Lemma obj_of_members_fold l acc :
  NoDup (map fst (acc ++ l)%list) ->
  fold_left (fun acc kv => obj_set (fst kv) (snd kv) acc) l acc = (acc ++ l)%list.
Proof.
  revert acc. induction l as [|[k v] l IH]; intros acc Hnd.
  - rewrite app_nil_r. reflexivity.
  - cbn [fold_left fst snd]. rewrite obj_set_fresh.
    + rewrite IH; rewrite <- app_assoc; [reflexivity | exact Hnd].
    + rewrite map_app in Hnd. apply NoDup_app in Hnd as (_ & Hd & _).
      intros Hin. apply (Hd k Hin). cbn [map fst]. left.
Qed.

Lemma obj_of_members_nodup l : NoDup (map fst l) -> obj_of_members l = l.
Proof. intros Hnd. unfold obj_of_members. rewrite obj_of_members_fold; [reflexivity | exact Hnd]. Qed.

Definition need_items (l : list value) : nat :=
  (fix go (l : list value) : nat :=
     match l with [] => 0 | x :: r => S (need x + go r) end) l.

Definition need_fields (l : list (string * value)) : nat :=
  (fix go (l : list (string * value)) : nat :=
     match l with [] => 0 | kv :: r => S (need (snd kv) + go r) end) l.

Definition parses (v : value) : Prop :=
  forall fuel rest,
    need v <= fuel -> stops rest -> parse_value fuel (print v +:+ rest) = Some (v, rest).

Lemma sapp_nil_l t : "" +:+ t = t.
Proof. reflexivity. Qed.

(** Text in right-nested form, and tests on known characters decided. *)
Ltac norm_text :=
  unfold stringify_string, str1;
  repeat first [rewrite sapp_assoc | rewrite sapp_cons | rewrite sapp_nil_l].

Ltac decide_chars :=
  repeat match goal with
    | |- context [is_ws ?c] =>
        let b := eval vm_compute in (is_ws c) in
        match b with
        | true => change (is_ws c) with true
        | false => change (is_ws c) with false
        end
    | |- context [Ascii.eqb ?a ?c] =>
        let b := eval vm_compute in (Ascii.eqb a c) in
        match b with
        | true => change (Ascii.eqb a c) with true
        | false => change (Ascii.eqb a c) with false
        end
    end;
  cbn iota.

Ltac step_text := cbn [skip_ws]; decide_chars.

Lemma join_cons2 sep x y l : join sep (x :: y :: l) = x +:+ sep +:+ join sep (y :: l).
Proof. reflexivity. Qed.

Lemma parse_elements_print items :
  items <> [] ->
  Forall parses items ->
  forall fuel rest,
    need_items items <= fuel ->
    parse_elements fuel (join "," (map print items) +:+ String "]" rest) = Some (items, rest).
Proof.
  intros Hne Hall. induction Hall as [|x r Hx Hr IH]; [contradiction|].
  intros fuel rest Hfuel. cbn [need_items] in Hfuel.
  destruct fuel as [|m]; [lia|]. cbn [parse_elements].
  destruct r as [|y r'].
  - cbn [map join]. rewrite Hx; [| lia | cbn; auto]. step_text. reflexivity.
  - cbn [map]. rewrite join_cons2. norm_text.
    rewrite Hx; [| lia | cbn; auto]. step_text.
    rewrite IH; [reflexivity | discriminate | ].
    fold (need_items (y :: r')) in Hfuel. lia.
Qed.

Definition member (kv : string * value) : string :=
  stringify_string (fst kv) +:+ ":" +:+ print (snd kv).

Lemma parse_members_print fields :
  fields <> [] ->
  Forall (fun kv => parses (snd kv)) fields ->
  forall fuel rest,
    need_fields fields <= fuel ->
    parse_members fuel (join "," (map member fields) +:+ String "}" rest) = Some (fields, rest).
Proof.
  intros Hne Hall. induction Hall as [|[k x] r Hx Hr IH]; [contradiction|].
  intros fuel rest Hfuel. cbn [need_fields snd] in Hfuel. cbn [snd] in Hx.
  destruct fuel as [|m]; [lia|]. cbn [parse_members].
  destruct r as [|y r'].
  - cbn [map join]. unfold member. cbn [fst snd]. norm_text. step_text.
    rewrite parse_chars_escape. step_text.
    rewrite Hx; [| lia | cbn; auto]. step_text. reflexivity.
  - cbn [map]. rewrite join_cons2. unfold member at 1. cbn [fst snd]. norm_text. step_text.
    rewrite parse_chars_escape. step_text.
    rewrite Hx; [| lia | cbn; auto]. step_text.
    rewrite IH; [reflexivity | discriminate | ].
    fold (need_fields (y :: r')) in Hfuel. lia.
Qed.

Lemma parse_print v : plain v -> parses v.
Proof.
  induction v as [ | | b | lit | s | items IH | fields IH ] using value_ind;
    intros Hv fuel rest Hfuel Hst;
    inversion Hv as [ | | ? Hlit | | ? Hitems | ? Hnd Hfs ]; subst;
    (destruct fuel as [|n]; [cbn in Hfuel; lia|]).
  - reflexivity.
  - destruct b; reflexivity.
  - destruct (is_number_head _ Hlit) as (c & r & E & Hc).
    assert (Hd : print (VNum lit) +:+ rest = String c (r +:+ rest))
      by (cbn [print]; rewrite E; reflexivity).
    rewrite Hd, number_dispatch by exact Hc. rewrite <- Hd. cbn [print].
    rewrite scan_number_literal by assumption. reflexivity.
  - cbn [print]. norm_text. cbn [parse_value]. step_text.
    rewrite parse_chars_escape. reflexivity.
  - cbn [print]. norm_text. cbn [parse_value]. step_text.
    destruct items as [|x r]; [reflexivity|].
    assert (Hx : plain x) by (inversion Hitems; assumption).
    destruct (print_head x Hx) as (c & t & Ec & Hws & Hc).
    assert (Hj : exists t', join "," (map print (x :: r)) +:+ String "]" rest = String c t').
    { destruct r as [|y r'].
      - cbn [map join]. rewrite Ec. eexists. reflexivity.
      - cbn [map]. rewrite join_cons2, Ec. eexists. reflexivity. }
    destruct Hj as (t' & Hj). rewrite Hj. cbn [skip_ws]. rewrite Hws, Hc. rewrite <- Hj.
    rewrite parse_elements_print; [reflexivity | discriminate | | ].
    + clear -IH Hitems. induction IH as [|y l Hy Hl IHl]; constructor.
      * apply Hy. inversion Hitems; assumption.
      * apply IHl. inversion Hitems; assumption.
    + cbn [need] in Hfuel. fold (need_items (x :: r)) in Hfuel. lia.
  - cbn [print]. fold member. norm_text. cbn [parse_value]. step_text.
    destruct fields as [|[k x] r]; [reflexivity|].
    assert (Hj : exists t', join "," (map member ((k, x) :: r)) +:+ String "}" rest
                            = String dquote t').
    { destruct r as [|y r'].
      - cbn [map join]. unfold member, stringify_string. eexists. reflexivity.
      - cbn [map]. rewrite join_cons2. unfold member at 1, stringify_string.
        eexists. reflexivity. }
    destruct Hj as (t' & Hj). rewrite Hj. step_text. rewrite <- Hj.
    rewrite parse_members_print; [ | discriminate | | ].
    + rewrite obj_of_members_nodup by assumption. reflexivity.
    + clear -IH Hfs. induction IH as [|y l Hy Hl IHl]; constructor.
      * apply Hy. inversion Hfs; assumption.
      * apply IHl. inversion Hfs; assumption.
    + cbn [need] in Hfuel. fold (need_fields ((k, x) :: r)) in Hfuel. lia.
Qed.

Lemma need_items_le items :
  Forall (fun x => need x <= String.length (print x)) items ->
  need_items items <= String.length (join "," (map print items)) + 1.
Proof.
  induction 1 as [|x r Hx Hr IH]; [cbn; lia|].
  destruct r as [|y r'].
  - cbn [need_items map join] in *. lia.
  - cbn [map]. rewrite join_cons2, !slength_app. cbn [map] in IH.
    change (need_items (x :: y :: r')) with (S (need x + need_items (y :: r'))).
    cbn [String.length]. lia.
Qed.

Lemma need_fields_le fields :
  Forall (fun kv => need (snd kv) <= String.length (print (snd kv))) fields ->
  need_fields fields <= String.length (join "," (map member fields)) + 1.
Proof.
  induction 1 as [|[k x] r Hx Hr IH]; [cbn; lia|]. cbn [snd] in Hx.
  assert (Hm : need x <= String.length (member (k, x))).
  { unfold member. cbn [fst snd]. rewrite !slength_app. lia. }
  destruct r as [|y r'].
  - cbn [need_fields map join snd] in *. lia.
  - cbn [map]. rewrite join_cons2, !slength_app. cbn [map] in IH.
    change (need_fields ((k, x) :: y :: r')) with (S (need x + need_fields (y :: r'))).
    cbn [String.length]. lia.
Qed.

Lemma need_le_length v : plain v -> need v <= String.length (print v).
Proof.
  induction v as [ | | b | lit | s | items IH | fields IH ] using value_ind;
    intros Hv; inversion Hv as [ | | ? Hlit | | ? Hitems | ? Hnd Hfs ]; subst.
  - cbn. lia.
  - destruct b; cbn; lia.
  - destruct (is_number_head _ Hlit) as (c & r & -> & _). cbn. lia.
  - cbn. lia.
  - cbn [print need]. fold (need_items items). rewrite !slength_app. cbn [String.length].
    assert (Hle := need_items_le items). 
    assert (Hall : Forall (fun x => need x <= String.length (print x)) items).
    { clear -IH Hitems. induction IH as [|y l Hy Hl IHl]; constructor.
      - apply Hy. inversion Hitems; assumption.
      - apply IHl. inversion Hitems; assumption. }
    specialize (Hle Hall). lia.
  - cbn [print need]. fold member. fold (need_fields fields).
    rewrite !slength_app. cbn [String.length].
    assert (Hle := need_fields_le fields).
    assert (Hall : Forall (fun kv => need (snd kv) <= String.length (print (snd kv))) fields).
    { clear -IH Hfs. induction IH as [|y l Hy Hl IHl]; constructor.
      - apply Hy. inversion Hfs; assumption.
      - apply IHl. inversion Hfs; assumption. }
    specialize (Hle Hall). lia.
Qed.

(** [JSON.parse] inverts [print] on plain values. *)
Lemma parse_print_text v : plain v -> parse (print v) = Some v.
Proof.
  intros Hv. unfold parse.
  pose proof (parse_print v Hv (S (String.length (print v))) "") as Hp.
  rewrite sapp_nil_r in Hp. rewrite Hp; [reflexivity | | exact I].
  pose proof (need_le_length v Hv). lia.
Qed.

Lemma stringify_obj fields :
  stringify (VObj fields)
  = Some ("{" +:+
          join "," (members (sort_by_key (map (fun kv => (fst kv, stringify (snd kv))) fields)))
          +:+ "}").
Proof. reflexivity. Qed.

Lemma stringify_strings ts :
  stringify (VArr (map VStr ts)) = Some (print (VArr (map VStr ts))).
Proof.
  cbn [stringify print]. do 3 f_equal. rewrite !map_map. reflexivity.
Qed.

Lemma plain_strings ts : plain (VArr (map VStr ts)).
Proof. constructor. induction ts; constructor; [constructor | assumption]. Qed.

Lemma as_strings_map ts : as_strings (map VStr ts) = Some ts.
Proof. induction ts as [|t ts IH]; [reflexivity|]. cbn [map as_strings]. rewrite IH. reflexivity. Qed.

Lemma text_nonempty c s : nonempty (String c s) = true.
Proof. reflexivity. Qed.

End JSON_facts.

(** ** Facts about the serializers *)

Section Serialization.

Import JSON_facts.
Context `{SortKeysRecursive}.

Lemma sortArray_strings ts : sortArray (map VStr ts) = map VStr (sortTags ts).
Proof.
  pose proof (sortArray_perm (map VStr ts)) as Hp.
  apply Permutation_sym, Permutation_map_inv in Hp. destruct Hp as (l & Hl & _).
  unfold sortTags. rewrite Hl, as_strings_map. reflexivity.
Qed.

Lemma sortTags_idemp ts : sortTags (sortTags ts) = sortTags ts.
Proof.
  unfold sortTags at 1. rewrite <- sortArray_strings, sortArray_idemp, sortArray_strings.
  rewrite as_strings_map. reflexivity.
Qed.

Lemma sortTags_singleton t : sortTags [t] = [t].
Proof.
  pose proof (sortArray_perm [VStr t]) as Hp. apply Permutation_singleton_l in Hp.
  unfold sortTags. cbn [map]. rewrite <- Hp. reflexivity.
Qed.

Lemma sortTags_nil : sortTags [] = [].
Proof.
  pose proof (sortArray_perm []) as Hp. apply Permutation_nil in Hp.
  unfold sortTags. cbn [map]. rewrite Hp. reflexivity.
Qed.

Lemma sortKeys_strings ts : map sortKeys (map VStr ts) = map VStr ts.
Proof. induction ts as [|t ts IH]; [reflexivity|]. cbn [map]. f_equal. exact IH. Qed.

(** The documents the three serializers write. *)
Definition cache_document (c : Cache.t) : value :=
  VObj [("Description", VStr (Cache.Description c)); ("GPSX", VNum (Cache.GPSX c));
        ("GPSY", VNum (Cache.GPSY c)); ("ID", VStr (Cache.ID c));
        ("Maintainer", VStr (Cache.Maintainer c)); ("Name", VStr (Cache.Name c));
        ("Pass", VStr (Cache.Pass c)); ("Report", VStr (Cache.Report c))].

Definition log_document (l : VisitLog.t) : value :=
  match VisitLog.Trackables l with
  | Some ts =>
      VObj [("Cache", VStr (VisitLog.Cache l)); ("ID", VStr (VisitLog.ID l));
            ("Time", VStr (VisitLog.Time l)); ("Trackables", VArr (map VStr (sortTags ts)));
            ("User", VStr (VisitLog.User l))]
  | None =>
      VObj [("Cache", VStr (VisitLog.Cache l)); ("ID", VStr (VisitLog.ID l));
            ("Time", VStr (VisitLog.Time l)); ("User", VStr (VisitLog.User l))]
  end.

Definition trackable_document (x : Trackable.t) : value :=
  VObj [("ID", VStr (Trackable.ID x)); ("Inserted", VBool (Trackable.Inserted x));
        ("Name", VStr (Trackable.Name x)); ("VisitLog", VStr (Trackable.VisitLog x))].

Lemma serializeCache_text c : serializeCache c = print (cache_document c).
Proof. reflexivity. Qed.

Lemma serializeTrackable_text x : serializeTrackable x = print (trackable_document x).
Proof. reflexivity. Qed.

Lemma serializeLog_text l : serializeLog l = print (log_document l).
Proof.
  unfold serializeLog, log_document, VisitLog.to_value.
  destruct (VisitLog.Trackables l) as [ts|]; [|reflexivity].
  cbn [sortKeys map fst snd]. rewrite sortKeys_strings, sortArray_strings.
  match goal with
  | |- context [sort_by_key ?fs] =>
      let sorted := eval cbv [sort_by_key insert_by_key String.leb String.compare
                              Ascii.compare N_of_ascii N_of_digits N.compare N.add N.mul
                              Pos.compare Pos.compare_cont Pos.add Pos.succ Pos.mul] in
                    (sort_by_key fs) in
      change (sort_by_key fs) with sorted
  end.
  rewrite stringify_obj. cbn [map fst snd]. rewrite stringify_strings. reflexivity.
Qed.

Ltac nodup_keys :=
  match goal with
  | |- NoDup ?l => exact (bool_decide_unpack (NoDup l) I)
  end.

Lemma plain_cache_document c : Cache.wf c -> plain (cache_document c).
Proof.
  intros [Hx Hy]. constructor; [cbn [map fst]; nodup_keys|].
  repeat constructor; assumption.
Qed.

Lemma plain_trackable_document x : plain (trackable_document x).
Proof. constructor; [cbn [map fst]; nodup_keys|]. repeat constructor. Qed.

Lemma plain_log_document l : plain (log_document l).
Proof.
  unfold log_document. destruct (VisitLog.Trackables l) as [ts|].
  - constructor; [cbn [map fst]; nodup_keys|].
    repeat (constructor; [first [apply plain_strings | constructor] |]). constructor.
  - constructor; [cbn [map fst]; nodup_keys|]. repeat constructor.
Qed.

Lemma cache_of_document c : Cache.of_value (cache_document c) = Some c.
Proof. destruct c. reflexivity. Qed.

Lemma trackable_of_document x : Trackable.of_value (trackable_document x) = Some x.
Proof. destruct x. reflexivity. Qed.

Lemma log_of_document l : VisitLog.of_value (log_document l) = Some (stored_log l).
Proof.
  destruct l as [i [ts|] u c tm]; [|reflexivity].
  unfold log_document, stored_log, VisitLog.of_value. cbn [VisitLog.Trackables VisitLog.ID
    VisitLog.User VisitLog.Cache VisitLog.Time option_map].
  change (field "Trackables" _) with (Some (VArr (map VStr (sortTags ts)))).
  unfold as_optional_strings. rewrite as_strings_map. reflexivity.
Qed.

Lemma deserializeCache_serializeCache c w :
  Cache.wf c -> deserializeCache (serializeCache c) w = (Return c, w).
Proof.
  intros Hc. unfold deserializeCache, deserialize.
  rewrite serializeCache_text, parse_print_text by (apply plain_cache_document; exact Hc).
  rewrite cache_of_document. reflexivity.
Qed.

Lemma deserializeTrackable_serializeTrackable x w :
  deserializeTrackable (serializeTrackable x) w = (Return x, w).
Proof.
  unfold deserializeTrackable, deserialize.
  rewrite serializeTrackable_text, parse_print_text by apply plain_trackable_document.
  rewrite trackable_of_document. reflexivity.
Qed.

Lemma deserializeLog_serializeLog l w :
  deserializeLog (serializeLog l) w = (Return (stored_log l), w).
Proof.
  unfold deserializeLog, deserialize.
  rewrite serializeLog_text, parse_print_text by apply plain_log_document.
  rewrite log_of_document. reflexivity.
Qed.

Lemma serializeLog_stored l : serializeLog (stored_log l) = serializeLog l.
Proof.
  rewrite !serializeLog_text. unfold log_document, stored_log.
  destruct l as [i [ts|] u c tm]; [|reflexivity].
  cbn [VisitLog.Trackables VisitLog.ID VisitLog.User VisitLog.Cache VisitLog.Time option_map].
  rewrite sortTags_idemp. reflexivity.
Qed.

Lemma serializeCache_nonempty c : nonempty (serializeCache c) = true.
Proof. reflexivity. Qed.

Lemma serializeTrackable_nonempty x : nonempty (serializeTrackable x) = true.
Proof. reflexivity. Qed.

Lemma serializeLog_nonempty l : nonempty (serializeLog l) = true.
Proof. rewrite serializeLog_text. unfold log_document. destruct (VisitLog.Trackables l); reflexivity. Qed.

End Serialization.

(** ** Two instances of the array interface

    [keep_arrays] leaves arrays alone.  [sort_arrays] puts an array of
    strings in ascending order, as [Array.prototype.sort] without a
    comparison function does, and leaves any other array alone (the
    records of the contract hold no other array). *)

Definition keep_arrays : SortKeysRecursive :=
  {| sortArray := fun l => l;
     sortArray_perm := fun l => Permutation_refl l;
     sortArray_idemp := fun l => eq_refl |}.

Section Sorting.

Context {A : Type}.

Fixpoint ascending (l : list (string * A)) : Prop :=
  match l with
  | [] => True
  | (k, _) :: r =>
      match r with
      | [] => True
      | (k', _) :: _ => String.leb k k' = true
      end /\ ascending r
  end.

Lemma insert_by_key_perm k (a : A) l : Permutation ((k, a) :: l) (insert_by_key k a l).
Proof.
  induction l as [|[k' a'] l IH]; [reflexivity|].
  cbn [insert_by_key]. destruct (String.leb k k'); [reflexivity|].
  rewrite perm_swap. apply perm_skip. exact IH.
Qed.

Lemma sort_by_key_perm (l : list (string * A)) : Permutation l (sort_by_key l).
Proof.
  induction l as [|[k a] l IH]; [reflexivity|].
  cbn [sort_by_key]. rewrite <- insert_by_key_perm. apply perm_skip. exact IH.
Qed.

Lemma insert_by_key_ascending k (a : A) l : ascending l -> ascending (insert_by_key k a l).
Proof.
  induction l as [|[k' a'] l IH]; [cbn; auto|].
  intros [Hh Ht]. cbn [insert_by_key]. destruct (String.leb k k') eqn:E.
  - cbn [ascending]. auto.
  - specialize (IH Ht). cbn [ascending]. split; [|exact IH].
    destruct l as [|[k'' a''] l']; cbn [insert_by_key].
    + destruct (String.leb_total k k') as [E'|E']; [congruence | exact E'].
    + destruct (String.leb k k''); [|exact Hh].
      destruct (String.leb_total k k') as [E'|E']; [congruence | exact E'].
Qed.

Lemma sort_by_key_ascending (l : list (string * A)) : ascending (sort_by_key l).
Proof.
  induction l as [|[k a] l IH]; [exact I|].
  cbn [sort_by_key]. apply insert_by_key_ascending. exact IH.
Qed.

Lemma sort_by_key_ascending_id (l : list (string * A)) : ascending l -> sort_by_key l = l.
Proof.
  induction l as [|[k a] l IH]; [reflexivity|].
  intros [Hh Ht]. cbn [sort_by_key]. rewrite (IH Ht).
  destruct l as [|[k' a'] l']; [reflexivity|]. cbn [insert_by_key]. rewrite Hh. reflexivity.
Qed.

Lemma sort_by_key_idemp (l : list (string * A)) : sort_by_key (sort_by_key l) = sort_by_key l.
Proof. apply sort_by_key_ascending_id, sort_by_key_ascending. Qed.

End Sorting.

Definition sort_strings (ss : list string) : list string :=
  map fst (sort_by_key (map (fun s => (s, tt)) ss)).

Lemma tag_unit (l : list (string * unit)) : map (fun s => (s, tt)) (map fst l) = l.
Proof. induction l as [|[k []] l IH]; [reflexivity|]. cbn [map fst]. rewrite IH. reflexivity. Qed.

Lemma sort_strings_perm ss : Permutation ss (sort_strings ss).
Proof.
  unfold sort_strings.
  rewrite <- (sort_by_key_perm (map (fun s => (s, tt)) ss)), map_map. cbn [fst].
  rewrite map_id. reflexivity.
Qed.

Lemma sort_strings_idemp ss : sort_strings (sort_strings ss) = sort_strings ss.
Proof. unfold sort_strings. rewrite tag_unit, sort_by_key_idemp. reflexivity. Qed.

Lemma as_strings_inv l ss : as_strings l = Some ss -> l = map VStr ss.
Proof.
  revert ss. induction l as [|v l IH]; intros ss; [intros [= <-]; reflexivity|].
  cbn [as_strings]. destruct v; try discriminate.
  destruct (as_strings l) as [ss'|]; [|discriminate].
  intros [= <-]. cbn [map]. rewrite (IH ss' eq_refl). reflexivity.
Qed.

Definition sort_string_array (l : list value) : list value :=
  match as_strings l with
  | Some ss => map VStr (sort_strings ss)
  | None => l
  end.

Lemma sort_string_array_perm l : Permutation l (sort_string_array l).
Proof.
  unfold sort_string_array. destruct (as_strings l) as [ss|] eqn:E; [|reflexivity].
  rewrite (as_strings_inv _ _ E). apply Permutation_map, sort_strings_perm.
Qed.

Lemma sort_string_array_idemp l : sort_string_array (sort_string_array l) = sort_string_array l.
Proof.
  unfold sort_string_array. destruct (as_strings l) as [ss|] eqn:E.
  - rewrite JSON_facts.as_strings_map, sort_strings_idemp. reflexivity.
  - rewrite E. reflexivity.
Qed.

Definition sort_arrays : SortKeysRecursive :=
  {| sortArray := sort_string_array;
     sortArray_perm := sort_string_array_perm;
     sortArray_idemp := sort_string_array_idemp |}.

(** ** Facts about transactions *)

Section Transactions.

Context `{SortKeysRecursive}.

Lemma bind_ret {A B} (m : Tx A) (k : A -> Tx B) w a w' :
  m w = (Return a, w') -> bind m k w = k a w'.
Proof. intros Hm. unfold bind. rewrite Hm. reflexivity. Qed.

Lemma bind_throw {A B} (m : Tx A) (k : A -> Tx B) w e w' :
  m w = (Throw e, w') -> bind m k w = (Throw e, w').
Proof. intros Hm. unfold bind. rewrite Hm. reflexivity. Qed.

Lemma getState_stored key data (w : world) :
  w !! key = Some data -> getState key w = (Return data, w).
Proof. intros Hw. unfold getState. rewrite Hw. reflexivity. Qed.

Lemma getState_absent key (w : world) :
  w !! key = None -> getState key w = (Return "", w).
Proof. intros Hw. unfold getState. rewrite Hw. reflexivity. Qed.

Lemma CacheExists_stored ctx id c (w : world) :
  w !! makeCacheID id = Some (serializeCache c) -> CacheExists ctx id w = (Return true, w).
Proof. intros Hw. unfold CacheExists. rewrite (bind_ret _ _ _ _ _ (getState_stored _ _ _ Hw)). reflexivity. Qed.

Lemma LogExists_stored ctx id l (w : world) :
  w !! makeLogID id = Some (serializeLog l) -> LogExists ctx id w = (Return true, w).
Proof.
  intros Hw. unfold LogExists. rewrite (bind_ret _ _ _ _ _ (getState_stored _ _ _ Hw)).
  unfold ret. rewrite serializeLog_nonempty. reflexivity.
Qed.

Lemma TrackableExists_stored ctx id x (w : world) :
  w !! makeTrackableID id = Some (serializeTrackable x) ->
  TrackableExists ctx id w = (Return true, w).
Proof. intros Hw. unfold TrackableExists. rewrite (bind_ret _ _ _ _ _ (getState_stored _ _ _ Hw)). reflexivity. Qed.

Lemma CacheExists_absent ctx id (w : world) :
  w !! makeCacheID id = None -> CacheExists ctx id w = (Return false, w).
Proof. intros Hw. unfold CacheExists. rewrite (bind_ret _ _ _ _ _ (getState_absent _ _ Hw)). reflexivity. Qed.

Lemma LogExists_absent ctx id (w : world) :
  w !! makeLogID id = None -> LogExists ctx id w = (Return false, w).
Proof. intros Hw. unfold LogExists. rewrite (bind_ret _ _ _ _ _ (getState_absent _ _ Hw)). reflexivity. Qed.

Lemma TrackableExists_absent ctx id (w : world) :
  w !! makeTrackableID id = None -> TrackableExists ctx id w = (Return false, w).
Proof. intros Hw. unfold TrackableExists. rewrite (bind_ret _ _ _ _ _ (getState_absent _ _ Hw)). reflexivity. Qed.

Lemma assertCacheExists_true ctx id w :
  CacheExists ctx id w = (Return true, w) -> assertCacheExists ctx id w = (Return tt, w).
Proof. intros Hw. unfold assertCacheExists. rewrite (bind_ret _ _ _ _ _ Hw). reflexivity. Qed.

Lemma assertLogExists_true ctx id w :
  LogExists ctx id w = (Return true, w) -> assertLogExists ctx id w = (Return tt, w).
Proof. intros Hw. unfold assertLogExists. rewrite (bind_ret _ _ _ _ _ Hw). reflexivity. Qed.

Lemma assertLogExists_false ctx id w :
  LogExists ctx id w = (Return false, w) ->
  assertLogExists ctx id w = (Throw (Error ("Log " +:+ id +:+ " does not exist")), w).
Proof. intros Hw. unfold assertLogExists. rewrite (bind_ret _ _ _ _ _ Hw). reflexivity. Qed.

Lemma assertTrackableExists_true ctx id w :
  TrackableExists ctx id w = (Return true, w) -> assertTrackableExists ctx id w = (Return tt, w).
Proof. intros Hw. unfold assertTrackableExists. rewrite (bind_ret _ _ _ _ _ Hw). reflexivity. Qed.

Lemma assertTrackableExists_false ctx id w :
  TrackableExists ctx id w = (Return false, w) ->
  assertTrackableExists ctx id w
  = (Throw (Error ("Trackable " +:+ id +:+ " does not exist")), w).
Proof. intros Hw. unfold assertTrackableExists. rewrite (bind_ret _ _ _ _ _ Hw). reflexivity. Qed.

Lemma assertTrackableNotExists_false ctx id w :
  TrackableExists ctx id w = (Return false, w) ->
  assertTrackableNotExists ctx id w = (Return tt, w).
Proof. intros Hw. unfold assertTrackableNotExists. rewrite (bind_ret _ _ _ _ _ Hw). reflexivity. Qed.

Lemma assertCacheNotExists_inv ctx id w w' :
  assertCacheNotExists ctx id w = (Return tt, w') ->
  w' = w /\ CacheExists ctx id w = (Return false, w).
Proof.
  unfold assertCacheNotExists, CacheExists, bind, getState, ret, throw.
  destruct (nonempty (default "" (w !! makeCacheID id))); intros [= <-]; auto.
Qed.

End Transactions.

(** ** The transfer engine, with its records loaded *)

Section Transfer.

Context `{SortKeysRecursive}.

Lemma spread_push_stored (l : VisitLog.t) tag :
  VisitLog.mk (VisitLog.ID (stored_log l))
    (spread_push (VisitLog.Trackables (stored_log l)) tag)
    (VisitLog.User (stored_log l)) (VisitLog.Cache (stored_log l)) (VisitLog.Time (stored_log l))
  = log_with_tag (stored_log l) tag.
Proof. reflexivity. Qed.

(** [InsertTrackable] once both existence checks have passed and the
    three records are read. *)
Lemma InsertTrackable_loaded ctx t l (w : world) tr old new :
  w !! makeLogID l = Some (serializeLog new) ->
  w !! makeTrackableID t = Some (serializeTrackable tr) ->
  w !! makeLogID (Trackable.VisitLog tr) = Some (serializeLog old) ->
  InsertTrackable ctx t l w
  = if Trackable.Inserted tr then
      (Throw (Error ("Trackable " +:+ t +:+ " is already inserted")), w)
    else if negb (String.eqb (VisitLog.User old) (VisitLog.User new)) then
      (Throw (NotOwnedBy t (VisitLog.User new)), w)
    else if negb (String.eqb (getUserID ctx) (VisitLog.User new)) then
      (Throw (NotMadeBy l (getUserID ctx)), w)
    else if String.leb (VisitLog.Time new) (VisitLog.Time old) then
      (Throw (TemporalOrderViolation l (Trackable.VisitLog tr)), w)
    else
      (Return (Trackable.mk t (Trackable.Name tr) true l),
       <[makeLogID (VisitLog.ID new) := serializeLog (log_with_tag (stored_log new) (t +:+ "-IN"))]>
         (<[makeTrackableID t := serializeTrackable (Trackable.mk t (Trackable.Name tr) true l)]> w)).
Proof.
  intros Hnew Htr Hold. unfold InsertTrackable.
  rewrite (bind_ret _ _ _ _ _ (assertLogExists_true _ _ _ (LogExists_stored ctx _ _ _ Hnew))).
  rewrite (bind_ret _ _ _ _ _
             (assertTrackableExists_true _ _ _ (TrackableExists_stored ctx _ _ _ Htr))).
  rewrite (bind_ret _ _ _ _ _ (getState_stored _ _ _ Htr)).
  rewrite (bind_ret _ _ _ _ _ (deserializeTrackable_serializeTrackable tr w)).
  destruct (Trackable.Inserted tr); [reflexivity|]. cbn [Bool.eqb].
  rewrite (bind_ret _ _ _ _ _ (getState_stored _ _ _ Hold)).
  rewrite (bind_ret _ _ _ _ _ (deserializeLog_serializeLog old w)).
  rewrite (bind_ret _ _ _ _ _ (getState_stored _ _ _ Hnew)).
  rewrite (bind_ret _ _ _ _ _ (deserializeLog_serializeLog new w)).
  rewrite spread_push_stored.
  change (VisitLog.User (stored_log ?x)) with (VisitLog.User x).
  change (VisitLog.Time (stored_log ?x)) with (VisitLog.Time x).
  change (VisitLog.ID (stored_log ?x)) with (VisitLog.ID x).
  destruct (negb (String.eqb (VisitLog.User old) (VisitLog.User new))); [reflexivity|].
  destruct (negb (String.eqb (getUserID ctx) (VisitLog.User new))); [reflexivity|].
  destruct (String.leb (VisitLog.Time new) (VisitLog.Time old)); reflexivity.
Qed.

Lemma RemoveTrackable_loaded ctx t l (w : world) tr old new :
  w !! makeLogID l = Some (serializeLog new) ->
  w !! makeTrackableID t = Some (serializeTrackable tr) ->
  w !! makeLogID (Trackable.VisitLog tr) = Some (serializeLog old) ->
  RemoveTrackable ctx t l w
  = if negb (Trackable.Inserted tr) then
      (Throw (Error ("Trackable " +:+ t +:+ " is not inserted")), w)
    else if negb (String.eqb (getUserID ctx) (VisitLog.User new)) then
      (Throw (NotMadeBy l (getUserID ctx)), w)
    else if String.leb (VisitLog.Time new) (VisitLog.Time old) then
      (Throw (TemporalOrderViolation l (Trackable.VisitLog tr)), w)
    else if negb (String.eqb (VisitLog.Cache new) (VisitLog.Cache old)) then
      (Throw (DifferentCaches t l), w)
    else
      (Return (Trackable.mk t (Trackable.Name tr) false l),
       <[makeLogID (VisitLog.ID new) := serializeLog (log_with_tag (stored_log new) (t +:+ "-OUT"))]>
         (<[makeTrackableID t := serializeTrackable (Trackable.mk t (Trackable.Name tr) false l)]> w)).
Proof.
  intros Hnew Htr Hold. unfold RemoveTrackable.
  rewrite (bind_ret _ _ _ _ _ (assertLogExists_true _ _ _ (LogExists_stored ctx _ _ _ Hnew))).
  rewrite (bind_ret _ _ _ _ _
             (assertTrackableExists_true _ _ _ (TrackableExists_stored ctx _ _ _ Htr))).
  rewrite (bind_ret _ _ _ _ _ (getState_stored _ _ _ Htr)).
  rewrite (bind_ret _ _ _ _ _ (deserializeTrackable_serializeTrackable tr w)).
  destruct (Trackable.Inserted tr); [|reflexivity]. cbn [Bool.eqb negb].
  rewrite (bind_ret _ _ _ _ _ (getState_stored _ _ _ Hold)).
  rewrite (bind_ret _ _ _ _ _ (deserializeLog_serializeLog old w)).
  rewrite (bind_ret _ _ _ _ _ (getState_stored _ _ _ Hnew)).
  rewrite (bind_ret _ _ _ _ _ (deserializeLog_serializeLog new w)).
  rewrite spread_push_stored.
  change (VisitLog.User (stored_log ?x)) with (VisitLog.User x).
  change (VisitLog.Time (stored_log ?x)) with (VisitLog.Time x).
  change (VisitLog.Cache (stored_log ?x)) with (VisitLog.Cache x).
  change (VisitLog.ID (stored_log ?x)) with (VisitLog.ID x).
  destruct (negb (String.eqb (getUserID ctx) (VisitLog.User new))); [reflexivity|].
  destruct (String.leb (VisitLog.Time new) (VisitLog.Time old)); [reflexivity|].
  destruct (negb (String.eqb (VisitLog.Cache new) (VisitLog.Cache old))); reflexivity.
Qed.

Lemma CreateTrackable_loaded ctx t l name (w : world) new :
  w !! makeLogID l = Some (serializeLog new) ->
  TrackableExists ctx t w = (Return false, w) ->
  CreateTrackable ctx t l name w
  = if negb (String.eqb (getUserID ctx) (VisitLog.User new)) then
      (Throw (NotMadeBy l (getUserID ctx)), w)
    else
      (Return (Trackable.mk t name true l),
       <[makeLogID (VisitLog.ID new) := serializeLog (log_with_tag (stored_log new) (t +:+ "-IN"))]>
         (<[makeTrackableID t := serializeTrackable (Trackable.mk t name true l)]> w)).
Proof.
  intros Hnew Htr. unfold CreateTrackable.
  rewrite (bind_ret _ _ _ _ _ (assertLogExists_true _ _ _ (LogExists_stored ctx _ _ _ Hnew))).
  rewrite (bind_ret _ _ _ _ _ (assertTrackableNotExists_false _ _ _ Htr)).
  rewrite (bind_ret _ _ _ _ _ (getState_stored _ _ _ Hnew)).
  rewrite (bind_ret _ _ _ _ _ (deserializeLog_serializeLog new w)).
  rewrite spread_push_stored.
  change (VisitLog.User (stored_log ?x)) with (VisitLog.User x).
  change (VisitLog.ID (stored_log ?x)) with (VisitLog.ID x).
  destruct (negb (String.eqb (getUserID ctx) (VisitLog.User new))); reflexivity.
Qed.

End Transfer.

(** ** Identities and redaction *)

Section Permission.

Context `{SortKeysRecursive}.

Lemma drop_last_snoc s c : drop_last (s +:+ str1 c) = s.
Proof.
  induction s as [|a s IH]; [reflexivity|].
  rewrite JSON_facts.sapp_cons. cbn [drop_last]. rewrite IH.
  destruct s; reflexivity.
Qed.

Lemma getUserID_escape ctx : getUserID ctx = escape (clientIdentity_getID ctx).
Proof. unfold getUserID, stringify_string. cbn [slice_1_m1]. apply drop_last_snoc. Qed.

Lemma escape_inj s1 s2 : escape s1 = escape s2 -> s1 = s2.
Proof.
  intros He.
  pose proof (JSON_facts.parse_chars_escape s1 "") as H1.
  pose proof (JSON_facts.parse_chars_escape s2 "") as H2.
  rewrite He in H1. rewrite H1 in H2. injection H2 as ->. reflexivity.
Qed.

(** Two callers resolve to the same user id exactly when they carry the
    same identity. *)
Lemma getUserID_inj ctx1 ctx2 :
  getUserID ctx1 = getUserID ctx2 <-> clientIdentity_getID ctx1 = clientIdentity_getID ctx2.
Proof.
  rewrite !getUserID_escape. split; [apply escape_inj | intros ->; reflexivity].
Qed.

Lemma hideHiddenValues_returns_argument ctx (r : nat) (h : gmap nat Cache.t) :
  fst (hideHiddenValues ctx r h) = r.
Proof.
  unfold hideHiddenValues. destruct (h !! r) as [c|]; [|reflexivity].
  destruct (negb (isMaintainer ctx (Cache.Maintainer c))); reflexivity.
Qed.

Lemma hideHiddenValues_object ctx (r : nat) (h : gmap nat Cache.t) c :
  h !! r = Some c ->
  snd (hideHiddenValues ctx r h) !! r
  = Some (if isMaintainer ctx (Cache.Maintainer c) then c else Cache.with_Pass "" c).
Proof.
  intros Hr. unfold hideHiddenValues. rewrite Hr.
  destruct (isMaintainer ctx (Cache.Maintainer c)); cbn [negb snd].
  - exact Hr.
  - apply lookup_insert_eq.
Qed.

Lemma hideHiddenValues_fresh ctx c :
  on_fresh_object (hideHiddenValues ctx) c
  = if isMaintainer ctx (Cache.Maintainer c) then c else Cache.with_Pass "" c.
Proof.
  unfold on_fresh_object.
  pose proof (hideHiddenValues_returns_argument ctx 0 {[0 := c]}) as Hr.
  pose proof (hideHiddenValues_object ctx 0 {[0 := c]} c (lookup_singleton_eq _ _)) as Ho.
  destruct (hideHiddenValues ctx 0 {[0 := c]}) as [r h]. cbn [fst snd] in *. subst r.
  rewrite Ho. reflexivity.
Qed.

End Permission.

(** ** The cache registry, with its record loaded *)

Section Registry.

Context `{SortKeysRecursive}.

Lemma UpdateCache_loaded ctx id n d x y p r (w : world) old :
  Cache.wf old ->
  w !! makeCacheID id = Some (serializeCache old) ->
  UpdateCache ctx id n d x y p r w
  = if String.eqb (getUserID ctx) (Cache.Maintainer old) then
      (Return (Cache.mk id n d x y r p (Cache.Maintainer old)),
       <[makeCacheID id := serializeCache (Cache.mk id n d x y r p (Cache.Maintainer old))]> w)
    else (Throw NotMaintainer, w).
Proof.
  intros Hwf Hold. unfold UpdateCache.
  rewrite (bind_ret _ _ _ _ _ (assertCacheExists_true _ _ _ (CacheExists_stored ctx _ _ _ Hold))).
  rewrite (bind_ret _ _ _ _ _ (getState_stored _ _ _ Hold)).
  rewrite (bind_ret _ _ _ _ _ (deserializeCache_serializeCache old w Hwf)).
  unfold assertMaintainer.
  destruct (String.eqb (getUserID ctx) (Cache.Maintainer old)); reflexivity.
Qed.

Lemma ReportCache_loaded ctx id r (w : world) old :
  Cache.wf old ->
  w !! makeCacheID id = Some (serializeCache old) ->
  let written :=
    Cache.mk id (Cache.Name old) (Cache.Description old) (Cache.GPSX old) (Cache.GPSY old) r
      (Cache.Pass old) (Cache.Maintainer old) in
  ReportCache ctx id r w
  = (Return (if isMaintainer ctx (Cache.Maintainer old) then written
             else Cache.with_Pass "" written),
     <[makeCacheID id := serializeCache written]> w).
Proof.
  intros Hwf Hold written. unfold ReportCache.
  rewrite (bind_ret _ _ _ _ _ (assertCacheExists_true _ _ _ (CacheExists_stored ctx _ _ _ Hold))).
  rewrite (bind_ret _ _ _ _ _ (getState_stored _ _ _ Hold)).
  rewrite (bind_ret _ _ _ _ _ (deserializeCache_serializeCache old w Hwf)).
  fold written. rewrite hideHiddenValues_fresh. reflexivity.
Qed.

Lemma GetCache_loaded ctx id (w : world) c :
  Cache.wf c ->
  w !! makeCacheID id = Some (serializeCache c) ->
  GetCache ctx id w
  = (Return (if isMaintainer ctx (Cache.Maintainer c) then c else Cache.with_Pass "" c), w).
Proof.
  intros Hwf Hc. unfold GetCache.
  rewrite (bind_ret _ _ _ _ _ (assertCacheExists_true _ _ _ (CacheExists_stored ctx _ _ _ Hc))).
  rewrite (bind_ret _ _ _ _ _ (getState_stored _ _ _ Hc)).
  rewrite (bind_ret _ _ _ _ _ (deserializeCache_serializeCache c w Hwf)).
  rewrite hideHiddenValues_fresh. reflexivity.
Qed.

Lemma CreateCache_inv ctx id n d x y p (w : world) c w' :
  CreateCache ctx id n d x y p w = (Return c, w') ->
  c = Cache.mk id n d x y "" p (getUserID ctx)
  /\ w' = <[makeCacheID id := serializeCache c]> w.
Proof.
  unfold CreateCache. unfold bind at 1.
  destruct (assertCacheNotExists ctx id w) as [[[]|e] w0] eqn:Ha; [|discriminate].
  apply assertCacheNotExists_inv in Ha as [-> _].
  intros [= <- <-]. split; reflexivity.
Qed.



End Registry.

(** ** The claims *)

Section Claims.

Context `{SortKeysRecursive}.

(** C3, as amended.  InsertTrackable and RemoveTrackable check that the
    new log exists before they check that the trackable exists.  For a
    trackable that is absent, the call fails with NotFound for the
    trackable when the new log exists, and with NotFound for the log when
    the new log is absent too; nothing is written. *)
Theorem transfer_checks_log_then_trackable d ctx t l (w : world) (log_exists : bool) :
  TrackableExists ctx t w = (Return false, w) ->
  LogExists ctx l w = (Return log_exists, w) ->
  transfer d ctx t l w
  = (Throw (if log_exists then NotFound "Trackable" t else NotFound "Log" l), w).
Proof.
  intros Ht Hl. destruct log_exists.
  - destruct d; cbn [transfer]; [unfold InsertTrackable | unfold RemoveTrackable];
      rewrite (bind_ret _ _ _ _ _ (assertLogExists_true _ _ _ Hl));
      rewrite (bind_throw _ _ _ _ _ (assertTrackableExists_false _ _ _ Ht)); reflexivity.
  - destruct d; cbn [transfer]; [unfold InsertTrackable | unfold RemoveTrackable];
      rewrite (bind_throw _ _ _ _ _ (assertLogExists_false _ _ _ Hl)); reflexivity.
Qed.

(** C4.  Once the existence, state and ownership checks have passed, a
    transfer fails with TemporalOrderViolation exactly when the time of
    the new log is less than or equal to the time of the old log in the
    lexicographic order of the strings, and then nothing is written. *)
Theorem temporal_order_is_checked d ctx t l (w : world) tr old new :
  w !! makeLogID l = Some (serializeLog new) ->
  w !! makeTrackableID t = Some (serializeTrackable tr) ->
  w !! makeLogID (Trackable.VisitLog tr) = Some (serializeLog old) ->
  Trackable.Inserted tr = inserted_before d ->
  (d = MoveIn -> VisitLog.User old = VisitLog.User new) ->
  getUserID ctx = VisitLog.User new ->
  (String.leb (VisitLog.Time new) (VisitLog.Time old) = true ->
   transfer d ctx t l w = (Throw (TemporalOrderViolation l (Trackable.VisitLog tr)), w))
  /\ (String.leb (VisitLog.Time new) (VisitLog.Time old) = false ->
      fst (transfer d ctx t l w) <> Throw (TemporalOrderViolation l (Trackable.VisitLog tr))).
Proof.
  intros Hnew Htr Hold Hins Hown Hcaller. destruct d; cbn [transfer inserted_before] in *.
  - rewrite (InsertTrackable_loaded _ _ _ _ _ _ _ Hnew Htr Hold), Hins.
    rewrite (Hown eq_refl), Hcaller, String.eqb_refl. cbn [negb].
    split; intros ->; cbn [fst]; [reflexivity | discriminate].
  - rewrite (RemoveTrackable_loaded _ _ _ _ _ _ _ Hnew Htr Hold), Hins.
    rewrite Hcaller, String.eqb_refl. cbn [negb].
    split; intros ->; [reflexivity|].
    destruct (negb (String.eqb (VisitLog.Cache new) (VisitLog.Cache old))); cbn [fst];
      discriminate.
Qed.

(** C5.  The Maintainer of a cache never changes: whatever the caller
    passes, the record a successful UpdateCache or ReportCache writes
    under the key of the cache carries the Maintainer of the record that
    was stored there before. *)
Theorem Maintainer_is_immutable ctx id (w : world) old :
  Cache.wf old ->
  w !! makeCacheID id = Some (serializeCache old) ->
  (forall n d x y p r c w',
      UpdateCache ctx id n d x y p r w = (Return c, w') ->
      exists written,
        w' = <[makeCacheID id := serializeCache written]> w
        /\ Cache.Maintainer written = Cache.Maintainer old)
  /\ (forall r c w',
         ReportCache ctx id r w = (Return c, w') ->
         exists written,
           w' = <[makeCacheID id := serializeCache written]> w
           /\ Cache.Maintainer written = Cache.Maintainer old).
Proof.
  intros Hwf Hold. split.
  - intros n d x y p r c w'. rewrite (UpdateCache_loaded _ _ _ _ _ _ _ _ _ _ Hwf Hold).
    destruct (String.eqb (getUserID ctx) (Cache.Maintainer old)); [|discriminate].
    intros [= <- <-]. eexists. split; reflexivity.
  - intros r c w'. rewrite (ReportCache_loaded _ _ _ _ _ Hwf Hold).
    intros [= <- <-]. eexists. split; reflexivity.
Qed.

(** C6.  After a successful CreateCache by a caller, GetCache of the same
    id returns, to every caller, a record whose Maintainer is the user id
    of the creator; its Pass is the pass supplied at creation when the
    reader carries the identity of the creator, and the empty string for
    every other reader. *)
Theorem GetCache_after_CreateCache creator id n d x y p (w : world) c w' reader :
  is_number x = true ->
  is_number y = true ->
  CreateCache creator id n d x y p w = (Return c, w') ->
  exists r,
    GetCache reader id w' = (Return r, w')
    /\ Cache.Maintainer r = getUserID creator
    /\ Cache.Pass r
       = if String.eqb (clientIdentity_getID reader) (clientIdentity_getID creator)
         then p else "".
Proof.
  intros Hx Hy Hc. apply CreateCache_inv in Hc as [-> ->].
  set (c := Cache.mk id n d x y "" p (getUserID creator)).
  assert (Hwf : Cache.wf c) by (split; assumption).
  assert (Hs : <[makeCacheID id := serializeCache c]> w !! makeCacheID id
               = Some (serializeCache c)) by apply lookup_insert_eq.
  rewrite (GetCache_loaded reader _ _ _ Hwf Hs). eexists. split; [reflexivity|].
  unfold isMaintainer. cbn [Cache.Maintainer c].
  destruct (String.eqb_spec (clientIdentity_getID reader) (clientIdentity_getID creator))
    as [Hid | Hid].
  - apply getUserID_inj in Hid. rewrite Hid, String.eqb_refl. split; reflexivity.
  - destruct (String.eqb_spec (getUserID reader) (getUserID creator)) as [Hu | Hu].
    + apply getUserID_inj in Hu. contradiction.
    + split; reflexivity.
Qed.

(** C7.  InsertTrackable on a trackable that exists and is not inserted,
    with a new log that exists: when the user of the log the trackable
    points to differs from the user of the new log, the call fails with
    PermissionDenied (not owned by this user) and nothing is written. *)
Theorem InsertTrackable_between_logs_of_one_user ctx t l (w : world) tr old new :
  w !! makeLogID l = Some (serializeLog new) ->
  w !! makeTrackableID t = Some (serializeTrackable tr) ->
  w !! makeLogID (Trackable.VisitLog tr) = Some (serializeLog old) ->
  Trackable.Inserted tr = false ->
  VisitLog.User old <> VisitLog.User new ->
  InsertTrackable ctx t l w = (Throw (NotOwnedBy t (VisitLog.User new)), w).
Proof.
  intros Hnew Htr Hold Hins Hne.
  rewrite (InsertTrackable_loaded _ _ _ _ _ _ _ Hnew Htr Hold), Hins.
  apply String.eqb_neq in Hne. rewrite Hne. reflexivity.
Qed.

(** C8.  RemoveTrackable once the existence, inserted-state, caller and
    temporal checks have passed: when the cache of the new log differs
    from the cache of the old log the call fails with Conflict (different
    caches) and nothing is written; the removal succeeds exactly when
    both logs name the same cache. *)
Theorem RemoveTrackable_at_the_same_cache ctx t l (w : world) tr old new :
  w !! makeLogID l = Some (serializeLog new) ->
  w !! makeTrackableID t = Some (serializeTrackable tr) ->
  w !! makeLogID (Trackable.VisitLog tr) = Some (serializeLog old) ->
  Trackable.Inserted tr = true ->
  getUserID ctx = VisitLog.User new ->
  String.leb (VisitLog.Time new) (VisitLog.Time old) = false ->
  (VisitLog.Cache new <> VisitLog.Cache old ->
   RemoveTrackable ctx t l w = (Throw (DifferentCaches t l), w))
  /\ ((exists r w', RemoveTrackable ctx t l w = (Return r, w')) <->
      VisitLog.Cache new = VisitLog.Cache old).
Proof.
  intros Hnew Htr Hold Hins Hcaller Htime.
  rewrite (RemoveTrackable_loaded _ _ _ _ _ _ _ Hnew Htr Hold), Hins.
  rewrite Hcaller, String.eqb_refl, Htime. cbn [negb]. split.
  - intros Hne. apply String.eqb_neq in Hne. rewrite Hne. reflexivity.
  - destruct (String.eqb_spec (VisitLog.Cache new) (VisitLog.Cache old)) as [E|E]; cbn [negb].
    + split; [intros _; exact E | intros _; eexists _, _; reflexivity].
    + split; [intros (r & w' & Hr); discriminate Hr | intros E'; contradiction].
Qed.

(** C9.  Round trip of the serializers: for a record of each kind, the
    bytes of the record deserialize, and serializing what they
    deserialize to gives the same bytes again.  (A cache carries two
    finite numbers as coordinates.) *)
Theorem serialize_deserialize_serialize (c : Cache.t) (l : VisitLog.t) (x : Trackable.t)
    (w : world) :
  Cache.wf c ->
  (exists c', deserializeCache (serializeCache c) w = (Return c', w)
              /\ serializeCache c' = serializeCache c)
  /\ (exists l', deserializeLog (serializeLog l) w = (Return l', w)
                 /\ serializeLog l' = serializeLog l)
  /\ (exists x', deserializeTrackable (serializeTrackable x) w = (Return x', w)
                 /\ serializeTrackable x' = serializeTrackable x).
Proof.
  intros Hwf. repeat split.
  - exists c. split; [apply deserializeCache_serializeCache; exact Hwf | reflexivity].
  - exists (stored_log l). split; [apply deserializeLog_serializeLog | apply serializeLog_stored].
  - exists x. split; [apply deserializeTrackable_serializeTrackable | reflexivity].
Qed.

(** C10.  A stored visit log without a Trackables property is read as a
    log with no tags: when their preconditions hold, CreateTrackable,
    InsertTrackable and RemoveTrackable succeed on it and write the log
    back with Trackables being the one-element sequence of the new tag. *)
Theorem absent_Trackables_is_empty ctx t l (w : world) new :
  w !! makeLogID l = Some (serializeLog new) ->
  VisitLog.Trackables new = None ->
  getUserID ctx = VisitLog.User new ->
  let written tag :=
    VisitLog.mk (VisitLog.ID new) (Some [tag]) (VisitLog.User new) (VisitLog.Cache new)
      (VisitLog.Time new) in
  (forall name,
      TrackableExists ctx t w = (Return false, w) ->
      CreateTrackable ctx t l name w
      = (Return (Trackable.mk t name true l),
         <[makeLogID (VisitLog.ID new) := serializeLog (written (t +:+ "-IN"))]>
           (<[makeTrackableID t := serializeTrackable (Trackable.mk t name true l)]> w)))
  /\ (forall d tr old,
         w !! makeTrackableID t = Some (serializeTrackable tr) ->
         w !! makeLogID (Trackable.VisitLog tr) = Some (serializeLog old) ->
         Trackable.Inserted tr = inserted_before d ->
         (d = MoveIn -> VisitLog.User old = VisitLog.User new) ->
         (d = MoveOut -> VisitLog.Cache new = VisitLog.Cache old) ->
         String.leb (VisitLog.Time new) (VisitLog.Time old) = false ->
         transfer d ctx t l w
         = (Return (Trackable.mk t (Trackable.Name tr) (inserted_after d) l),
            <[makeLogID (VisitLog.ID new) := serializeLog (written (movement_tag d t))]>
              (<[makeTrackableID t :=
                   serializeTrackable (Trackable.mk t (Trackable.Name tr) (inserted_after d) l)]>
                 w))).
Proof.
  intros Hnew Hnone Hcaller written.
  assert (Hw : forall tag, log_with_tag (stored_log new) tag = written tag).
  { intros tag. unfold log_with_tag, stored_log, written. cbn. rewrite Hnone. reflexivity. }
  split.
  - intros name Habs. rewrite (CreateTrackable_loaded _ _ _ _ _ _ Hnew Habs).
    rewrite Hcaller, String.eqb_refl, Hw. reflexivity.
  - intros d tr old Htr Hold Hins Hown Hsite Htime.
    destruct d; cbn [transfer inserted_before inserted_after movement_tag] in *.
    + rewrite (InsertTrackable_loaded _ _ _ _ _ _ _ Hnew Htr Hold), Hins.
      rewrite (Hown eq_refl), Hcaller, !String.eqb_refl, Htime, Hw. reflexivity.
    + rewrite (RemoveTrackable_loaded _ _ _ _ _ _ _ Hnew Htr Hold), Hins.
      rewrite Hcaller, (Hsite eq_refl), !String.eqb_refl, Htime, Hw. reflexivity.
Qed.

End Claims.

(** ** Keys and serialized records *)

Section Keys.

Context `{SortKeysRecursive}.

Lemma makeCacheID_inj a b : makeCacheID a = makeCacheID b -> a = b.
Proof. intros [= E]. exact E. Qed.

Lemma makeLogID_inj a b : makeLogID a = makeLogID b -> a = b.
Proof. intros [= E]. exact E. Qed.

Lemma makeTrackableID_inj a b : makeTrackableID a = makeTrackableID b -> a = b.
Proof. intros [= E]. exact E. Qed.

Lemma cache_key_not_log a b : makeCacheID a <> makeLogID b.
Proof. discriminate. Qed.

Lemma cache_key_not_trackable a b : makeCacheID a <> makeTrackableID b.
Proof. discriminate. Qed.

Lemma log_key_not_trackable a b : makeLogID a <> makeTrackableID b.
Proof. discriminate. Qed.

Lemma serializeCache_inj c1 c2 :
  Cache.wf c1 -> Cache.wf c2 -> serializeCache c1 = serializeCache c2 -> c1 = c2.
Proof.
  intros H1 H2 E.
  pose proof (deserializeCache_serializeCache c1 ∅ H1) as D1.
  pose proof (deserializeCache_serializeCache c2 ∅ H2) as D2.
  rewrite E in D1. rewrite D1 in D2. injection D2 as ->. reflexivity.
Qed.

Lemma serializeTrackable_inj x1 x2 :
  serializeTrackable x1 = serializeTrackable x2 -> x1 = x2.
Proof.
  intros E.
  pose proof (deserializeTrackable_serializeTrackable x1 ∅) as D1.
  pose proof (deserializeTrackable_serializeTrackable x2 ∅) as D2.
  rewrite E in D1. rewrite D1 in D2. injection D2 as ->. reflexivity.
Qed.

Lemma serializeLog_stored_inj l1 l2 :
  serializeLog l1 = serializeLog l2 -> stored_log l1 = stored_log l2.
Proof.
  intros E.
  pose proof (deserializeLog_serializeLog l1 ∅) as D1.
  pose proof (deserializeLog_serializeLog l2 ∅) as D2.
  rewrite E in D1. rewrite D1 in D2.
  set (s1 := stored_log l1) in *. set (s2 := stored_log l2) in *. congruence.
Qed.

Lemma map_VStr_inj l1 l2 : map VStr l1 = map VStr l2 -> l1 = l2.
Proof.
  revert l2. induction l1 as [|a l1 IH]; intros [|b l2] E; try discriminate; [reflexivity|].
  cbn [map] in E. injection E as -> E. f_equal. apply IH. exact E.
Qed.

Lemma sortTags_perm ts : Permutation ts (sortTags ts).
Proof.
  pose proof (sortArray_perm (map VStr ts)) as Hp. rewrite sortArray_strings in Hp.
  apply Permutation_map_inv in Hp as (l & Hl & Hp).
  apply map_VStr_inj in Hl. subst l. symmetry. exact Hp.
Qed.

End Keys.

(** ** Reading, writing and throwing *)

Section Effects.

Context `{SortKeysRecursive}.

(** A transaction that leaves the world state as it finds it; one that
    leaves it so whenever it throws; one that never throws. *)
Definition reads_only {A} (m : Tx A) : Prop := forall w, snd (m w) = w.



Lemma reads_only_ret {A} (a : A) : reads_only (ret a).
Proof. intros w. reflexivity. Qed.

Lemma reads_only_throw {A} e : reads_only (@throw A e).
Proof. intros w. reflexivity. Qed.

Lemma reads_only_getState key : reads_only (getState key).
Proof. intros w. reflexivity. Qed.

Lemma reads_only_getStateByRange a b : reads_only (getStateByRange a b).
Proof. intros w. reflexivity. Qed.

Lemma reads_only_bind {A B} (m : Tx A) (k : A -> Tx B) :
  reads_only m -> (forall a, reads_only (k a)) -> reads_only (bind m k).
Proof.
  intros Hm Hk w. unfold bind. specialize (Hm w).
  destruct (m w) as [[a|e] w1]; cbn [snd] in *; subst w1; [apply Hk | reflexivity].
Qed.

Lemma reads_only_deserialize {A} (cast : value -> option A) data :
  reads_only (deserialize cast data).
Proof.
  intros w. unfold deserialize. destruct (parse data) as [v|]; [|reflexivity].
  destruct (cast v); reflexivity.
Qed.

Lemma reads_only_iterate {A} (visit : string -> Tx A) entries :
  (forall data, reads_only (visit data)) -> reads_only (iterate visit entries).
Proof.
  intros Hv. induction entries as [|[k data] rest IH]; [apply reads_only_ret|].
  cbn [iterate]. apply reads_only_bind; [apply Hv|]. intros a.
  apply reads_only_bind; [exact IH|]. intros r. apply reads_only_ret.
Qed.







(** Goals of the three kinds, by the shape of the transaction. *)
Ltac tx_unfold :=
  unfold assertCacheExists, assertCacheNotExists, assertLogExists, assertLogNotExists,
    assertTrackableExists, assertTrackableNotExists, assertMaintainer, CacheExists, LogExists,
    TrackableExists, deserializeCache, deserializeLog, deserializeTrackable;
  cbv zeta.

Ltac tx_reads :=
  repeat first
    [ apply reads_only_ret
    | apply reads_only_throw
    | apply reads_only_getState
    | apply reads_only_getStateByRange
    | apply reads_only_deserialize
    | apply reads_only_iterate; intros ?
    | apply reads_only_bind; [|intros ?]
    | match goal with
      | |- reads_only (if ?b then _ else _) => destruct b
      end ].



(** X1.  The transactions the contract marks as queries write nothing:
    whatever is on the ledger, and whether they return or throw, the world
    state after them is the world state before them. *)
Theorem queries_write_nothing ctx id (w : world) :
  snd (GetCachePass ctx id w) = w
  /\ snd (GetCache ctx id w) = w
  /\ snd (GetAllCaches ctx w) = w
  /\ snd (CacheExists ctx id w) = w
  /\ snd (GetLog ctx id w) = w
  /\ snd (GetAllLogs ctx w) = w
  /\ snd (LogExists ctx id w) = w
  /\ snd (GetTrackable ctx id w) = w
  /\ snd (GetAllTrackables ctx w) = w
  /\ snd (TrackableExists ctx id w) = w
  /\ snd (Whoami ctx w) = w
  /\ snd (Ping w) = w.
Proof.
  repeat split;
    match goal with
    | |- snd (?m w) = w => revert w; change (reads_only m)
    end;
    unfold GetCachePass, GetCache, GetAllCaches, GetLog, GetAllLogs, GetTrackable,
      GetAllTrackables, Whoami, Ping;
    tx_unfold; tx_reads.
Qed.


End Effects.

(** ** Well-formed ledgers *)

Section Ledgers.

Context `{SortKeysRecursive}.

(** The tags of a log, none when the property is absent. *)
Definition tags (l : VisitLog.t) : list string := default [] (VisitLog.Trackables l).

(** From [w] to [w']: every log is still there, with its User, Cache and
    Time and with every tag it had; every trackable is still there, with
    its Name. *)
Definition keeps_history (w w' : gmap string string) : Prop :=
  (forall id l,
      w !! makeLogID id = Some (serializeLog l) ->
      exists l',
        w' !! makeLogID id = Some (serializeLog l')
        /\ VisitLog.User l' = VisitLog.User l
        /\ VisitLog.Cache l' = VisitLog.Cache l
        /\ VisitLog.Time l' = VisitLog.Time l
        /\ (forall tag, tag ∈ tags l -> tag ∈ tags l'))
  /\ (forall id x,
         w !! makeTrackableID id = Some (serializeTrackable x) ->
         exists x',
           w' !! makeTrackableID id = Some (serializeTrackable x')
           /\ Trackable.Name x' = Trackable.Name x).

Lemma well_formed_empty : well_formed ∅.
Proof. split; intros ? ?; rewrite lookup_empty; discriminate. Qed.

Lemma ledger_cache (w : world) id data :
  well_formed w -> w !! makeCacheID id = Some data ->
  exists c, Cache.wf c /\ Cache.ID c = id /\ data = serializeCache c.
Proof.
  intros [Hk _] Hw. destruct (Hk _ _ Hw) as [(c & Hc & E & ->) | [(l & E & _) | (x & E & _)]].
  - apply makeCacheID_inj in E. eauto.
  - exfalso. exact (cache_key_not_log _ _ E).
  - exfalso. exact (cache_key_not_trackable _ _ E).
Qed.

Lemma ledger_log (w : world) id data :
  well_formed w -> w !! makeLogID id = Some data ->
  exists l, VisitLog.ID l = id /\ data = serializeLog l.
Proof.
  intros [Hk _] Hw. destruct (Hk _ _ Hw) as [(c & Hc & E & _) | [(l & E & ->) | (x & E & _)]].
  - exfalso. exact (cache_key_not_log _ _ (eq_sym E)).
  - apply makeLogID_inj in E. eauto.
  - exfalso. exact (log_key_not_trackable _ _ E).
Qed.

Lemma ledger_trackable (w : world) id data :
  well_formed w -> w !! makeTrackableID id = Some data ->
  exists x l,
    Trackable.ID x = id /\ data = serializeTrackable x
    /\ w !! makeLogID (Trackable.VisitLog x) = Some (serializeLog l).
Proof.
  intros [Hk Hr] Hw.
  destruct (Hk _ _ Hw) as [(c & Hc & E & _) | [(l & E & _) | (x & E & ->)]].
  - exfalso. exact (cache_key_not_trackable _ _ (eq_sym E)).
  - exfalso. exact (log_key_not_trackable _ _ (eq_sym E)).
  - apply makeTrackableID_inj in E. subst id. destruct (Hr x Hw) as (l & Hl). eauto.
Qed.

Lemma well_formed_put_cache (w : world) c :
  well_formed w -> Cache.wf c ->
  well_formed (<[makeCacheID (Cache.ID c) := serializeCache c]> w).
Proof.
  intros [Hk Hr] Hc. split.
  - intros key data. rewrite lookup_insert. case_decide as E.
    + intros [= <-]. subst key. left. eauto.
    + apply Hk.
  - intros x. rewrite !lookup_insert_ne by (first [apply cache_key_not_trackable
                                                 | apply cache_key_not_log]).
    apply Hr.
Qed.

Lemma well_formed_delete_cache (w : world) id :
  well_formed w -> well_formed (delete (makeCacheID id) w).
Proof.
  intros [Hk Hr]. split.
  - intros key data. rewrite lookup_delete. case_decide; [discriminate | apply Hk].
  - intros x. rewrite !lookup_delete_ne by (first [apply cache_key_not_trackable
                                                 | apply cache_key_not_log]).
    apply Hr.
Qed.

Lemma well_formed_put_log (w : world) l :
  well_formed w -> well_formed (<[makeLogID (VisitLog.ID l) := serializeLog l]> w).
Proof.
  intros [Hk Hr]. split.
  - intros key data. rewrite lookup_insert. case_decide as E.
    + intros [= <-]. subst key. right. left. eauto.
    + apply Hk.
  - intros x. rewrite lookup_insert_ne by apply log_key_not_trackable.
    intros Hx. destruct (Hr x Hx) as (l0 & Hl0).
    rewrite lookup_insert. case_decide; eauto.
Qed.

Lemma well_formed_put_trackable (w : world) x l :
  well_formed w ->
  w !! makeLogID (Trackable.VisitLog x) = Some (serializeLog l) ->
  well_formed (<[makeTrackableID (Trackable.ID x) := serializeTrackable x]> w).
Proof.
  intros [Hk Hr] Hl. split.
  - intros key data. rewrite lookup_insert. case_decide as E.
    + intros [= <-]. subst key. right. right. eauto.
    + apply Hk.
  - intros y. rewrite lookup_insert. case_decide as E.
    + intros Ey. apply (inj Some) in Ey. apply serializeTrackable_inj in Ey. subst y.
      rewrite lookup_insert_ne by (intros E'; exact (log_key_not_trackable _ _ (eq_sym E'))).
      eauto.
    + intros Hy. destruct (Hr y Hy) as (l0 & Hl0).
      rewrite lookup_insert_ne by (intros E'; exact (log_key_not_trackable _ _ (eq_sym E'))).
      eauto.
Qed.

Lemma keeps_history_refl (w : world) : keeps_history w w.
Proof. split; intros id r Hr; eauto 10. Qed.

Lemma keeps_history_trans (w1 w2 w3 : world) :
  keeps_history w1 w2 -> keeps_history w2 w3 -> keeps_history w1 w3.
Proof.
  intros [Hl12 Hx12] [Hl23 Hx23]. split.
  - intros id l Hl. destruct (Hl12 _ _ Hl) as (l2 & H2 & Eu & Ec & Et & Hg).
    destruct (Hl23 _ _ H2) as (l3 & H3 & Eu' & Ec' & Et' & Hg').
    exists l3. repeat split; [exact H3 | congruence | congruence | congruence | auto].
  - intros id x Hx. destruct (Hx12 _ _ Hx) as (x2 & H2 & En).
    destruct (Hx23 _ _ H2) as (x3 & H3 & En'). exists x3. split; [exact H3 | congruence].
Qed.

Lemma keeps_history_put_cache (w : world) id data :
  keeps_history w (<[makeCacheID id := data]> w).
Proof.
  split; intros k r Hr.
  - rewrite lookup_insert_ne by apply cache_key_not_log. eauto 10.
  - rewrite lookup_insert_ne by apply cache_key_not_trackable. eauto.
Qed.

Lemma keeps_history_delete_cache (w : world) id :
  keeps_history w (delete (makeCacheID id) w).
Proof.
  split; intros k r Hr.
  - rewrite lookup_delete_ne by apply cache_key_not_log. eauto 10.
  - rewrite lookup_delete_ne by apply cache_key_not_trackable. eauto.
Qed.

Lemma keeps_history_new_log (w : world) id data :
  w !! makeLogID id = None -> keeps_history w (<[makeLogID id := data]> w).
Proof.
  intros Hn. split; intros k r Hr.
  - rewrite lookup_insert_ne by (intros E; apply makeLogID_inj in E; congruence). eauto 10.
  - rewrite lookup_insert_ne by apply log_key_not_trackable. eauto.
Qed.

Lemma tags_stored l tag : tag ∈ tags l -> tag ∈ tags (stored_log l).
Proof.
  unfold tags, stored_log. cbn [VisitLog.Trackables].
  destruct (VisitLog.Trackables l) as [ts|]; cbn [option_map default]; [|intros Hi; exact Hi].
  intros Hi. rewrite <- (sortTags_perm ts). exact Hi.
Qed.

Lemma keeps_history_tag_log (w : world) l tag :
  w !! makeLogID (VisitLog.ID l) = Some (serializeLog l) ->
  keeps_history w
    (<[makeLogID (VisitLog.ID l) := serializeLog (log_with_tag (stored_log l) tag)]> w).
Proof.
  intros Hl. split; intros k r Hr.
  - rewrite lookup_insert. case_decide as E.
    + apply makeLogID_inj in E. subst k. rewrite Hl in Hr. apply (inj Some) in Hr.
      apply serializeLog_stored_inj in Hr.
      exists (log_with_tag (stored_log l) tag).
      split; [reflexivity|].
      assert (Eu : VisitLog.User l = VisitLog.User r) by exact (f_equal VisitLog.User Hr).
      assert (Ec : VisitLog.Cache l = VisitLog.Cache r) by exact (f_equal VisitLog.Cache Hr).
      assert (Et : VisitLog.Time l = VisitLog.Time r) by exact (f_equal VisitLog.Time Hr).
      repeat split; [exact Eu | exact Ec | exact Et |].
      intros g Hg. apply tags_stored in Hg. rewrite <- Hr in Hg.
      unfold tags, log_with_tag, spread_push in *. cbn [VisitLog.Trackables default].
      apply elem_of_app. left. exact Hg.
    + eauto 10.
  - rewrite lookup_insert_ne by apply log_key_not_trackable. eauto.
Qed.

Lemma keeps_history_put_trackable (w : world) id x :
  (forall x0, w !! makeTrackableID id = Some (serializeTrackable x0) ->
              Trackable.Name x = Trackable.Name x0) ->
  keeps_history w (<[makeTrackableID id := serializeTrackable x]> w).
Proof.
  intros Hn. split; intros k r Hr.
  - rewrite lookup_insert_ne
      by (intros E; exact (log_key_not_trackable _ _ (eq_sym E))).
    eauto 10.
  - rewrite lookup_insert. case_decide as E.
    + apply makeTrackableID_inj in E. subst k. exists x. split; [reflexivity|]. auto.
    + eauto.
Qed.

End Ledgers.

(** ** Each transaction, case by case *)

Section Cases.

Context `{SortKeysRecursive}.

Lemma assertCacheExists_false ctx id w :
  CacheExists ctx id w = (Return false, w) ->
  assertCacheExists ctx id w = (Throw (NotFound "Cache" id), w).
Proof. intros Hw. unfold assertCacheExists. rewrite (bind_ret _ _ _ _ _ Hw). reflexivity. Qed.

Lemma assertCacheNotExists_true ctx id w :
  CacheExists ctx id w = (Return true, w) ->
  assertCacheNotExists ctx id w = (Throw (AlreadyExists "Cache" id), w).
Proof. intros Hw. unfold assertCacheNotExists. rewrite (bind_ret _ _ _ _ _ Hw). reflexivity. Qed.

Lemma assertCacheNotExists_false ctx id w :
  CacheExists ctx id w = (Return false, w) -> assertCacheNotExists ctx id w = (Return tt, w).
Proof. intros Hw. unfold assertCacheNotExists. rewrite (bind_ret _ _ _ _ _ Hw). reflexivity. Qed.

Lemma assertLogNotExists_true ctx id w :
  LogExists ctx id w = (Return true, w) ->
  assertLogNotExists ctx id w = (Throw (AlreadyExists "Log" id), w).
Proof. intros Hw. unfold assertLogNotExists. rewrite (bind_ret _ _ _ _ _ Hw). reflexivity. Qed.

Lemma assertLogNotExists_false ctx id w :
  LogExists ctx id w = (Return false, w) -> assertLogNotExists ctx id w = (Return tt, w).
Proof. intros Hw. unfold assertLogNotExists. rewrite (bind_ret _ _ _ _ _ Hw). reflexivity. Qed.

Lemma assertTrackableNotExists_true ctx id w :
  TrackableExists ctx id w = (Return true, w) ->
  assertTrackableNotExists ctx id w = (Throw (AlreadyExists "Trackable" id), w).
Proof.
  intros Hw. unfold assertTrackableNotExists. rewrite (bind_ret _ _ _ _ _ Hw). reflexivity.
Qed.

(** *** Caches *)

Lemma CreateCache_present ctx id n d x y p w :
  CacheExists ctx id w = (Return true, w) ->
  CreateCache ctx id n d x y p w = (Throw (AlreadyExists "Cache" id), w).
Proof.
  intros Hc. unfold CreateCache.
  rewrite (bind_throw _ _ _ _ _ (assertCacheNotExists_true _ _ _ Hc)). reflexivity.
Qed.

Lemma CreateCache_absent ctx id n d x y p w :
  CacheExists ctx id w = (Return false, w) ->
  CreateCache ctx id n d x y p w
  = (Return (Cache.mk id n d x y "" p (getUserID ctx)),
     <[makeCacheID id := serializeCache (Cache.mk id n d x y "" p (getUserID ctx))]> w).
Proof.
  intros Hc. unfold CreateCache.
  rewrite (bind_ret _ _ _ _ _ (assertCacheNotExists_false _ _ _ Hc)). reflexivity.
Qed.

Lemma DeleteCache_loaded ctx id (w : world) old :
  Cache.wf old ->
  w !! makeCacheID id = Some (serializeCache old) ->
  DeleteCache ctx id w
  = if String.eqb (getUserID ctx) (Cache.Maintainer old)
    then (Return id, delete (makeCacheID id) w)
    else (Throw NotMaintainer, w).
Proof.
  intros Hwf Hold. unfold DeleteCache.
  rewrite (bind_ret _ _ _ _ _ (assertCacheExists_true _ _ _ (CacheExists_stored ctx _ _ _ Hold))).
  rewrite (bind_ret _ _ _ _ _ (getState_stored _ _ _ Hold)).
  rewrite (bind_ret _ _ _ _ _ (deserializeCache_serializeCache old w Hwf)).
  unfold assertMaintainer.
  destruct (String.eqb (getUserID ctx) (Cache.Maintainer old)); reflexivity.
Qed.

Lemma GetCachePass_loaded ctx id (w : world) old :
  Cache.wf old ->
  w !! makeCacheID id = Some (serializeCache old) ->
  GetCachePass ctx id w
  = if String.eqb (getUserID ctx) (Cache.Maintainer old)
    then (Return (Cache.Pass old), w)
    else (Throw NotMaintainer, w).
Proof.
  intros Hwf Hold. unfold GetCachePass.
  rewrite (bind_ret _ _ _ _ _ (assertCacheExists_true _ _ _ (CacheExists_stored ctx _ _ _ Hold))).
  rewrite (bind_ret _ _ _ _ _ (getState_stored _ _ _ Hold)).
  rewrite (bind_ret _ _ _ _ _ (deserializeCache_serializeCache old w Hwf)).
  unfold assertMaintainer.
  destruct (String.eqb (getUserID ctx) (Cache.Maintainer old)); [|reflexivity].
  cbn [negb]. rewrite (bind_ret _ _ _ _ _ (eq_refl : ret tt w = (Return tt, w))).
  rewrite (bind_ret _ _ _ _ _ (getState_stored _ _ _ Hold)).
  rewrite (bind_ret _ _ _ _ _ (deserializeCache_serializeCache old w Hwf)).
  reflexivity.
Qed.

(** Without the cache, every transaction that names one stops at its
    first check. *)
Lemma cache_missing ctx id w :
  CacheExists ctx id w = (Return false, w) ->
  (forall n d x y p r, UpdateCache ctx id n d x y p r w = (Throw (NotFound "Cache" id), w))
  /\ DeleteCache ctx id w = (Throw (NotFound "Cache" id), w)
  /\ GetCachePass ctx id w = (Throw (NotFound "Cache" id), w)
  /\ GetCache ctx id w = (Throw (NotFound "Cache" id), w)
  /\ (forall r, ReportCache ctx id r w = (Throw (NotFound "Cache" id), w))
  /\ (forall l p, CreateLog ctx l id p w = (Throw (NotFound "Cache" id), w)).
Proof.
  intros Hc. pose proof (assertCacheExists_false _ _ _ Hc) as Ha.
  repeat split; intros;
    unfold UpdateCache, DeleteCache, GetCachePass, GetCache, ReportCache, CreateLog;
    rewrite (bind_throw _ _ _ _ _ Ha); reflexivity.
Qed.

(** *** Visit logs *)

Lemma CreateLog_present ctx l id p w :
  CacheExists ctx id w = (Return true, w) ->
  LogExists ctx l w = (Return true, w) ->
  CreateLog ctx l id p w = (Throw (AlreadyExists "Log" l), w).
Proof.
  intros Hc Hl. unfold CreateLog.
  rewrite (bind_ret _ _ _ _ _ (assertCacheExists_true _ _ _ Hc)).
  rewrite (bind_throw _ _ _ _ _ (assertLogNotExists_true _ _ _ Hl)). reflexivity.
Qed.

Lemma CreateLog_loaded ctx l id p (w : world) cache :
  Cache.wf cache ->
  w !! makeCacheID id = Some (serializeCache cache) ->
  LogExists ctx l w = (Return false, w) ->
  CreateLog ctx l id p w
  = if String.eqb p (Cache.Pass cache)
    then (Return (VisitLog.mk l (Some []) (getUserID ctx) id (Date_toISOString ctx)),
          <[makeLogID l :=
              serializeLog (VisitLog.mk l (Some []) (getUserID ctx) id (Date_toISOString ctx))]> w)
    else (Throw (Error "Wrong Pass!"), w).
Proof.
  intros Hwf Hc Hl. unfold CreateLog.
  rewrite (bind_ret _ _ _ _ _ (assertCacheExists_true _ _ _ (CacheExists_stored ctx _ _ _ Hc))).
  rewrite (bind_ret _ _ _ _ _ (assertLogNotExists_false _ _ _ Hl)).
  rewrite (bind_ret _ _ _ _ _ (getState_stored _ _ _ Hc)).
  rewrite (bind_ret _ _ _ _ _ (deserializeCache_serializeCache cache w Hwf)).
  destruct (String.eqb p (Cache.Pass cache)); reflexivity.
Qed.

(** *** Trackables *)

Lemma log_missing ctx l w :
  LogExists ctx l w = (Return false, w) ->
  (forall t n, CreateTrackable ctx t l n w = (Throw (NotFound "Log" l), w))
  /\ (forall t, InsertTrackable ctx t l w = (Throw (NotFound "Log" l), w))
  /\ (forall t, RemoveTrackable ctx t l w = (Throw (NotFound "Log" l), w))
  /\ GetLog ctx l w = (Throw (NotFound "Log" l), w).
Proof.
  intros Hl. pose proof (assertLogExists_false _ _ _ Hl) as Ha.
  repeat split; intros;
    unfold CreateTrackable, InsertTrackable, RemoveTrackable, GetLog;
    rewrite (bind_throw _ _ _ _ _ Ha); reflexivity.
Qed.

Lemma trackable_missing ctx t w :
  TrackableExists ctx t w = (Return false, w) ->
  (forall l, LogExists ctx l w = (Return true, w) ->
             InsertTrackable ctx t l w = (Throw (NotFound "Trackable" t), w)
             /\ RemoveTrackable ctx t l w = (Throw (NotFound "Trackable" t), w))
  /\ GetTrackable ctx t w = (Throw (NotFound "Trackable" t), w).
Proof.
  intros Ht. pose proof (assertTrackableExists_false _ _ _ Ht) as Ha. split.
  - intros l Hl. pose proof (assertLogExists_true _ _ _ Hl) as Hb.
    split; unfold InsertTrackable, RemoveTrackable;
      rewrite (bind_ret _ _ _ _ _ Hb), (bind_throw _ _ _ _ _ Ha); reflexivity.
  - unfold GetTrackable. rewrite (bind_throw _ _ _ _ _ Ha). reflexivity.
Qed.

Lemma CreateTrackable_present ctx t l n w :
  LogExists ctx l w = (Return true, w) ->
  TrackableExists ctx t w = (Return true, w) ->
  CreateTrackable ctx t l n w = (Throw (AlreadyExists "Trackable" t), w).
Proof.
  intros Hl Ht. unfold CreateTrackable.
  rewrite (bind_ret _ _ _ _ _ (assertLogExists_true _ _ _ Hl)).
  rewrite (bind_throw _ _ _ _ _ (assertTrackableNotExists_true _ _ _ Ht)). reflexivity.
Qed.

Lemma GetTrackable_loaded ctx t (w : world) x :
  w !! makeTrackableID t = Some (serializeTrackable x) ->
  GetTrackable ctx t w = (Return x, w).
Proof.
  intros Hx. unfold GetTrackable.
  rewrite (bind_ret _ _ _ _ _
             (assertTrackableExists_true _ _ _ (TrackableExists_stored ctx _ _ _ Hx))).
  rewrite (bind_ret _ _ _ _ _ (getState_stored _ _ _ Hx)).
  apply deserializeTrackable_serializeTrackable.
Qed.

(** A trackable that is already in the state the movement leads to: the
    movement stops at the state check, before any log is read. *)
Lemma transfer_in_place d ctx t l (w : world) tr :
  LogExists ctx l w = (Return true, w) ->
  w !! makeTrackableID t = Some (serializeTrackable tr) ->
  Trackable.Inserted tr = inserted_after d ->
  transfer d ctx t l w
  = (Throw (Error ("Trackable " +:+ t +:+
                   (if inserted_after d then " is already inserted" else " is not inserted"))),
     w).
Proof.
  intros Hl Htr Hins.
  destruct d; cbn [transfer inserted_after] in *;
    [unfold InsertTrackable | unfold RemoveTrackable];
    rewrite (bind_ret _ _ _ _ _ (assertLogExists_true _ _ _ Hl));
    rewrite (bind_ret _ _ _ _ _
               (assertTrackableExists_true _ _ _ (TrackableExists_stored ctx _ _ _ Htr)));
    rewrite (bind_ret _ _ _ _ _ (getState_stored _ _ _ Htr));
    rewrite (bind_ret _ _ _ _ _ (deserializeTrackable_serializeTrackable tr w));
    rewrite Hins; reflexivity.
Qed.

End Cases.

(** ** Transactions on well-formed ledgers *)

Section Settled.

Context `{SortKeysRecursive}.

(** How a transaction may end on a ledger [w]: it returns and leaves a
    well-formed ledger that keeps the history of [w], or it throws an
    [Error] and leaves [w]. *)
Definition settled {A} (w : gmap string string) (r : outcome A * gmap string string) : Prop :=
  match r with
  | (Return _, w') => well_formed w' /\ keeps_history w w'
  | (Throw (Error _), w') => w' = w
  | (Throw _, _) => False
  end.

Lemma cache_on_ledger ctx id (w : world) :
  well_formed w ->
  CacheExists ctx id w = (Return false, w)
  \/ exists c, Cache.wf c /\ Cache.ID c = id /\ w !! makeCacheID id = Some (serializeCache c).
Proof.
  intros Hw. destruct (w !! makeCacheID id) as [data|] eqn:E.
  - right. destruct (ledger_cache _ _ _ Hw E) as (c & Hc & Hi & ->). eauto.
  - left. apply CacheExists_absent. exact E.
Qed.

Lemma log_on_ledger ctx id (w : world) :
  well_formed w ->
  (LogExists ctx id w = (Return false, w) /\ w !! makeLogID id = None)
  \/ exists l, VisitLog.ID l = id /\ w !! makeLogID id = Some (serializeLog l).
Proof.
  intros Hw. destruct (w !! makeLogID id) as [data|] eqn:E.
  - right. destruct (ledger_log _ _ _ Hw E) as (l & Hi & ->). eauto.
  - left. split; [apply LogExists_absent; exact E | reflexivity].
Qed.

Lemma trackable_on_ledger ctx id (w : world) :
  well_formed w ->
  (TrackableExists ctx id w = (Return false, w) /\ w !! makeTrackableID id = None)
  \/ exists x l,
       Trackable.ID x = id
       /\ w !! makeTrackableID id = Some (serializeTrackable x)
       /\ w !! makeLogID (Trackable.VisitLog x) = Some (serializeLog l).
Proof.
  intros Hw. destruct (w !! makeTrackableID id) as [data|] eqn:E.
  - right. destruct (ledger_trackable _ _ _ Hw E) as (x & l & Hi & -> & Hl). eauto.
  - left. split; [apply TrackableExists_absent; exact E | reflexivity].
Qed.

Lemma CreateCache_settled ctx id n d x y p (w : world) :
  well_formed w -> is_number x = true -> is_number y = true ->
  settled w (CreateCache ctx id n d x y p w).
Proof.
  intros Hw Hx Hy. destruct (cache_on_ledger ctx id w Hw) as [Ha | (c & Hc & Hi & Hs)].
  - rewrite (CreateCache_absent _ _ _ _ _ _ _ _ Ha). split.
    + apply (well_formed_put_cache w (Cache.mk id n d x y "" p (getUserID ctx)) Hw).
      split; assumption.
    + apply keeps_history_put_cache.
  - rewrite (CreateCache_present _ _ _ _ _ _ _ _ (CacheExists_stored ctx _ _ _ Hs)). reflexivity.
Qed.

Lemma UpdateCache_settled ctx id n d x y p r (w : world) :
  well_formed w -> is_number x = true -> is_number y = true ->
  settled w (UpdateCache ctx id n d x y p r w).
Proof.
  intros Hw Hx Hy. destruct (cache_on_ledger ctx id w Hw) as [Ha | (c & Hc & Hi & Hs)].
  - destruct (cache_missing _ _ _ Ha) as (Hu & _). rewrite Hu. reflexivity.
  - rewrite (UpdateCache_loaded _ _ _ _ _ _ _ _ _ _ Hc Hs).
    destruct (String.eqb (getUserID ctx) (Cache.Maintainer c)); [|reflexivity]. split.
    + apply (well_formed_put_cache w (Cache.mk id n d x y r p (Cache.Maintainer c)) Hw).
      split; assumption.
    + apply keeps_history_put_cache.
Qed.

Lemma DeleteCache_settled ctx id (w : world) :
  well_formed w -> settled w (DeleteCache ctx id w).
Proof.
  intros Hw. destruct (cache_on_ledger ctx id w Hw) as [Ha | (c & Hc & Hi & Hs)].
  - destruct (cache_missing _ _ _ Ha) as (_ & Hd & _). rewrite Hd. reflexivity.
  - rewrite (DeleteCache_loaded _ _ _ _ Hc Hs).
    destruct (String.eqb (getUserID ctx) (Cache.Maintainer c)); [|reflexivity]. split.
    + apply well_formed_delete_cache. exact Hw.
    + apply keeps_history_delete_cache.
Qed.

Lemma ReportCache_settled ctx id r (w : world) :
  well_formed w -> settled w (ReportCache ctx id r w).
Proof.
  intros Hw. destruct (cache_on_ledger ctx id w Hw) as [Ha | (c & Hc & Hi & Hs)].
  - destruct (cache_missing _ _ _ Ha) as (_ & _ & _ & _ & Hr & _). rewrite Hr. reflexivity.
  - pose proof (ReportCache_loaded ctx id r w c Hc Hs) as E. cbv zeta in E. rewrite E. split.
    + apply (well_formed_put_cache w
               (Cache.mk id (Cache.Name c) (Cache.Description c) (Cache.GPSX c) (Cache.GPSY c) r
                  (Cache.Pass c) (Cache.Maintainer c)) Hw).
      exact Hc.
    + apply keeps_history_put_cache.
Qed.

Lemma CreateLog_settled ctx l id p (w : world) :
  well_formed w -> settled w (CreateLog ctx l id p w).
Proof.
  intros Hw. destruct (cache_on_ledger ctx id w Hw) as [Ha | (c & Hc & Hi & Hs)].
  - destruct (cache_missing _ _ _ Ha) as (_ & _ & _ & _ & _ & Hl). rewrite Hl. reflexivity.
  - destruct (log_on_ledger ctx l w Hw) as [[Hn Hnone] | (l0 & Hi0 & Hl0)].
    + rewrite (CreateLog_loaded _ _ _ _ _ _ Hc Hs Hn).
      destruct (String.eqb p (Cache.Pass c)); [|reflexivity]. split.
      * apply (well_formed_put_log w
                 (VisitLog.mk l (Some []) (getUserID ctx) id (Date_toISOString ctx)) Hw).
      * apply keeps_history_new_log. exact Hnone.
    + rewrite (CreateLog_present _ _ _ _ _ (CacheExists_stored ctx _ _ _ Hs)
                 (LogExists_stored ctx _ _ _ Hl0)).
      reflexivity.
Qed.

(** The two writes of a movement, on a well-formed ledger. *)
Lemma moved_settled (w : world) t l name b new tag :
  well_formed w ->
  VisitLog.ID new = l ->
  w !! makeLogID l = Some (serializeLog new) ->
  (forall x0, w !! makeTrackableID t = Some (serializeTrackable x0) ->
              name = Trackable.Name x0) ->
  let w1 := <[makeTrackableID t := serializeTrackable (Trackable.mk t name b l)]> w in
  let w2 := <[makeLogID (VisitLog.ID new) := serializeLog (log_with_tag (stored_log new) tag)]> w1 in
  well_formed w2 /\ keeps_history w w2.
Proof.
  intros Hw Hid Hnew Hname w1 w2. subst l.
  assert (Hw1 : well_formed w1).
  { apply (well_formed_put_trackable w (Trackable.mk t name b (VisitLog.ID new)) new Hw).
    exact Hnew. }
  assert (Hnew1 : w1 !! makeLogID (VisitLog.ID new) = Some (serializeLog new)).
  { unfold w1. rewrite lookup_insert_ne
      by (intros E; exact (log_key_not_trackable _ _ (eq_sym E))).
    exact Hnew. }
  split.
  - apply (well_formed_put_log w1 (log_with_tag (stored_log new) tag) Hw1).
  - apply (keeps_history_trans w w1 w2).
    + apply keeps_history_put_trackable. exact Hname.
    + apply keeps_history_tag_log. exact Hnew1.
Qed.

Lemma CreateTrackable_settled ctx t l n (w : world) :
  well_formed w -> settled w (CreateTrackable ctx t l n w).
Proof.
  intros Hw. destruct (log_on_ledger ctx l w Hw) as [[Hn _] | (new & Hid & Hnew)].
  - destruct (log_missing _ _ _ Hn) as (Hc & _). rewrite Hc. reflexivity.
  - destruct (trackable_on_ledger ctx t w Hw) as [[Ha Hnone] | (x & l0 & Hi & Hx & _)].
    + rewrite (CreateTrackable_loaded _ _ _ _ _ _ Hnew Ha).
      destruct (negb (String.eqb (getUserID ctx) (VisitLog.User new))); [reflexivity|].
      apply moved_settled; try assumption. intros x0 Hx0. congruence.
    + rewrite (CreateTrackable_present _ _ _ _ _ (LogExists_stored ctx _ _ _ Hnew)
                 (TrackableExists_stored ctx _ _ _ Hx)).
      reflexivity.
Qed.

Lemma transfer_settled d ctx t l (w : world) :
  well_formed w -> settled w (transfer d ctx t l w).
Proof.
  intros Hw. destruct (log_on_ledger ctx l w Hw) as [[Hn _] | (new & Hid & Hnew)].
  - destruct (log_missing _ _ _ Hn) as (_ & Hi & Hr & _).
    destruct d; cbn [transfer]; [rewrite Hi | rewrite Hr]; reflexivity.
  - destruct (trackable_on_ledger ctx t w Hw) as [[Ha _] | (tr & old & Hi & Htr & Hold)].
    + destruct (trackable_missing _ _ _ Ha) as (Hm & _).
      destruct (Hm l (LogExists_stored ctx _ _ _ Hnew)) as [Hin Hout].
      destruct d; cbn [transfer]; [rewrite Hin | rewrite Hout]; reflexivity.
    + assert (Hname : forall x0, w !! makeTrackableID t = Some (serializeTrackable x0) ->
                                 Trackable.Name tr = Trackable.Name x0).
      { intros x0 Hx0. rewrite Htr in Hx0. apply (inj Some) in Hx0.
        apply serializeTrackable_inj in Hx0. subst x0. reflexivity. }
      destruct d; cbn [transfer].
      * rewrite (InsertTrackable_loaded _ _ _ _ _ _ _ Hnew Htr Hold).
        destruct (Trackable.Inserted tr); [reflexivity|].
        destruct (negb (String.eqb (VisitLog.User old) (VisitLog.User new))); [reflexivity|].
        destruct (negb (String.eqb (getUserID ctx) (VisitLog.User new))); [reflexivity|].
        destruct (String.leb (VisitLog.Time new) (VisitLog.Time old)); [reflexivity|].
        apply moved_settled; assumption.
      * rewrite (RemoveTrackable_loaded _ _ _ _ _ _ _ Hnew Htr Hold).
        destruct (negb (Trackable.Inserted tr)); [reflexivity|].
        destruct (negb (String.eqb (getUserID ctx) (VisitLog.User new))); [reflexivity|].
        destruct (String.leb (VisitLog.Time new) (VisitLog.Time old)); [reflexivity|].
        destruct (negb (String.eqb (VisitLog.Cache new) (VisitLog.Cache old))); [reflexivity|].
        apply moved_settled; assumption.
Qed.

(** Every transaction that writes, on a well-formed ledger. *)
Lemma submit_settled ctx (c : call) (w : world) :
  well_formed w -> numeric c ->
  match submit ctx c w with
  | (None, w') => well_formed w' /\ keeps_history w w'
  | (Some (Error _), w') => w' = w
  | (Some _, _) => False
  end.
Proof.
  intros Hw Hn.
  assert (Hs : forall A (r : outcome A * world),
             settled w r ->
             match ended r with
             | (None, w') => well_formed w' /\ keeps_history w w'
             | (Some (Error _), w') => w' = w
             | (Some _, _) => False
             end).
  { intros A [[a|[msg| |]] w']; cbn [settled ended]; auto. }
  destruct c; cbn [submit numeric] in *; apply Hs.
  - destruct Hn. apply CreateCache_settled; assumption.
  - destruct Hn. apply UpdateCache_settled; assumption.
  - apply DeleteCache_settled; assumption.
  - apply ReportCache_settled; assumption.
  - apply CreateLog_settled; assumption.
  - apply CreateTrackable_settled; assumption.
  - apply (transfer_settled MoveIn); assumption.
  - apply (transfer_settled MoveOut); assumption.
Qed.

End Settled.

(** ** Range scans and listings *)

Section Listings.

Context `{SortKeysRecursive}.

(** The ids a listing reaches: the empty id, and the ids whose first byte
    is below the tilde that closes the range. *)
Definition listable (id : string) : bool :=
  match id with
  | EmptyString => true
  | String c _ => (N_of_ascii c <? 126)%N
  end.

Lemma ltb_tilde id : String.ltb id "~" = listable id.
Proof.
  destruct id as [|c r]; [reflexivity|].
  unfold String.ltb, listable. cbn [String.compare]. unfold Ascii.compare.
  change (N_of_ascii "~") with 126%N.
  destruct (N.compare_spec (N_of_ascii c) 126) as [E|E|E].
  - rewrite E. destruct r; reflexivity.
  - symmetry. apply N.ltb_lt. exact E.
  - symmetry. apply N.ltb_ge. apply N.lt_le_incl. exact E.
Qed.

Lemma in_range_cache id : in_range "CACHE-" "CACHE-~" (makeCacheID id) = listable id.
Proof. rewrite <- ltb_tilde. destruct id; reflexivity. Qed.

Lemma in_range_log id : in_range "LOG-" "LOG-~" (makeLogID id) = listable id.
Proof. rewrite <- ltb_tilde. destruct id; reflexivity. Qed.

Lemma in_range_trackable id :
  in_range "TRACKABLE-" "TRACKABLE-~" (makeTrackableID id) = listable id.
Proof. rewrite <- ltb_tilde. destruct id; reflexivity. Qed.

Lemma getStateByRange_entry a b (w : world) key data :
  (key, data) ∈
    sort_by_key (map_to_list (filter (fun kv => in_range a b (fst kv) = true) w))
  <-> w !! key = Some data /\ in_range a b key = true.
Proof.
  rewrite <- (sort_by_key_perm (map_to_list _)).
  rewrite elem_of_map_to_list, map_lookup_filter_Some. reflexivity.
Qed.

Lemma getStateByRange_keys a b (w : world) :
  NoDup (map fst
           (sort_by_key (map_to_list (filter (fun kv => in_range a b (fst kv) = true) w)))).
Proof.
  rewrite <- (sort_by_key_perm (map_to_list _)). apply NoDup_fst_map_to_list.
Qed.

Lemma ascending_keys {A B} (l1 : list (string * A)) (l2 : list (string * B)) :
  map fst l1 = map fst l2 -> ascending l1 -> ascending l2.
Proof.
  revert l2. induction l1 as [|[k a] l1 IH]; intros [|[k' b] l2] E; try discriminate;
    [intros _; exact I|].
  cbn [map fst] in E. injection E as <- E. intros [Hh Ht]. split; [|exact (IH _ E Ht)].
  destruct l1 as [|[k1 a1] l1'], l2 as [|[k2 b2] l2']; try discriminate; [exact I|].
  cbn [map fst] in E. injection E as <- _. exact Hh.
Qed.

(** The loop over entries that all hold records of one kind. *)
Lemma iterate_records {R A} (enc : R -> string * string) (good : R -> Prop)
    (visit : string -> Tx A) (f : R -> A) (w : world) entries :
  (forall r, good r -> visit (snd (enc r)) w = (Return (f r), w)) ->
  Forall (fun kv => exists r, good r /\ kv = enc r) entries ->
  exists rs,
    entries = map enc rs /\ Forall good rs
    /\ iterate visit entries w = (Return (map f rs), w).
Proof.
  intros Hv Hall. induction Hall as [|kv rest (r & Hr & ->) _ (rs & -> & Hrs & IH)].
  - exists []. repeat split; constructor.
  - exists (r :: rs). repeat split; [constructor; assumption|].
    cbn [map iterate]. destruct (enc r) as [k data] eqn:E. cbn [snd] in *.
    specialize (Hv r Hr). rewrite E in Hv. cbn [snd] in Hv.
    rewrite (bind_ret _ _ _ _ _ Hv), (bind_ret _ _ _ _ _ IH). reflexivity.
Qed.

Definition cache_entry (c : Cache.t) : string * string :=
  (makeCacheID (Cache.ID c), serializeCache c).

Definition log_entry (l : VisitLog.t) : string * string :=
  (makeLogID (VisitLog.ID l), serializeLog l).

Definition trackable_entry (x : Trackable.t) : string * string :=
  (makeTrackableID (Trackable.ID x), serializeTrackable x).

Lemma cache_range_entries (w : world) key data :
  well_formed w -> w !! key = Some data -> in_range "CACHE-" "CACHE-~" key = true ->
  exists c, Cache.wf c /\ (key, data) = cache_entry c.
Proof.
  intros [Hk _] Hw Hr.
  destruct (Hk _ _ Hw) as [(c & Hc & -> & ->) | [(l & -> & _) | (x & -> & _)]].
  - eauto.
  - discriminate Hr.
  - discriminate Hr.
Qed.

Lemma log_range_entries (w : world) key data :
  well_formed w -> w !! key = Some data -> in_range "LOG-" "LOG-~" key = true ->
  exists l, True /\ (key, data) = log_entry l.
Proof.
  intros [Hk _] Hw Hr.
  destruct (Hk _ _ Hw) as [(c & Hc & -> & ->) | [(l & -> & ->) | (x & -> & _)]].
  - discriminate Hr.
  - eauto.
  - discriminate Hr.
Qed.

Lemma trackable_range_entries (w : world) key data :
  well_formed w -> w !! key = Some data ->
  in_range "TRACKABLE-" "TRACKABLE-~" key = true ->
  exists x, True /\ (key, data) = trackable_entry x.
Proof.
  intros [Hk _] Hw Hr.
  destruct (Hk _ _ Hw) as [(c & Hc & -> & ->) | [(l & -> & _) | (x & -> & ->)]].
  - discriminate Hr.
  - discriminate Hr.
  - eauto.
Qed.

Lemma GetAllCaches_on_ledger ctx (w : world) :
  well_formed w ->
  exists stored,
    GetAllCaches ctx w = (Return (map (on_fresh_object (hideHiddenValues ctx)) stored), w)
    /\ ascending (map cache_entry stored)
    /\ NoDup (map fst (map cache_entry stored))
    /\ forall c, c ∈ stored <->
                 Cache.wf c /\ w !! makeCacheID (Cache.ID c) = Some (serializeCache c)
                 /\ listable (Cache.ID c) = true.
Proof.
  intros Hw. unfold GetAllCaches, bind at 1, getStateByRange.
  set (entries := sort_by_key (map_to_list _)).
  assert (Hall : Forall (fun kv => exists c, Cache.wf c /\ kv = cache_entry c) entries).
  { apply Forall_forall. intros [key data] Hin. apply getStateByRange_entry in Hin as [Hl Hr].
    exact (cache_range_entries w key data Hw Hl Hr). }
  destruct (iterate_records cache_entry Cache.wf
              (fun data => do cache <- deserializeCache data;
                           ret (on_fresh_object (hideHiddenValues ctx) cache))
              (on_fresh_object (hideHiddenValues ctx)) w entries) as (cs & E & Hcs & Hit).
  { intros c Hc. cbn [cache_entry snd].
    rewrite (bind_ret _ _ _ _ _ (deserializeCache_serializeCache c w Hc)). reflexivity. }
  { exact Hall. }
  exists cs. split; [exact Hit|]. split; [|split].
  - rewrite <- E. apply sort_by_key_ascending.
  - rewrite <- E. apply getStateByRange_keys.
  - intros c. split.
    + intros Hin. rewrite Forall_forall in Hcs. split; [exact (Hcs c Hin)|].
      assert (Hen : cache_entry c ∈ entries).
      { rewrite E. apply list_elem_of_fmap. exists c. split; [reflexivity | exact Hin]. }
      apply getStateByRange_entry in Hen as [Hl Hr]. rewrite in_range_cache in Hr. auto.
    + intros (Hc & Hl & Hr).
      assert (Hen : cache_entry c ∈ entries).
      { apply getStateByRange_entry. rewrite in_range_cache. auto. }
      rewrite E in Hen. apply list_elem_of_fmap in Hen as (c' & Ec & Hin).
      assert (Es : serializeCache c = serializeCache c') by exact (f_equal snd Ec).
      rewrite Forall_forall in Hcs.
      apply serializeCache_inj in Es; [subst c'; exact Hin | exact Hc | exact (Hcs c' Hin)].
Qed.

Lemma GetAllLogs_on_ledger ctx (w : world) :
  well_formed w ->
  exists stored,
    GetAllLogs ctx w = (Return (map stored_log stored), w)
    /\ ascending (map log_entry stored)
    /\ NoDup (map fst (map log_entry stored))
    /\ forall l, log_entry l ∈ map log_entry stored <->
                 w !! makeLogID (VisitLog.ID l) = Some (serializeLog l)
                 /\ listable (VisitLog.ID l) = true.
Proof.
  intros Hw. unfold GetAllLogs, bind at 1, getStateByRange.
  set (entries := sort_by_key (map_to_list _)).
  assert (Hall : Forall (fun kv => exists l, True /\ kv = log_entry l) entries).
  { apply Forall_forall. intros [key data] Hin. apply getStateByRange_entry in Hin as [Hl Hr].
    exact (log_range_entries w key data Hw Hl Hr). }
  destruct (iterate_records log_entry (fun _ => True) deserializeLog stored_log w entries)
    as (ls & E & _ & Hit).
  { intros l _. apply deserializeLog_serializeLog. }
  { exact Hall. }
  exists ls. split; [exact Hit|]. split; [|split].
  - rewrite <- E. apply sort_by_key_ascending.
  - rewrite <- E. apply getStateByRange_keys.
  - intros l. rewrite <- E. unfold log_entry, entries.
    rewrite getStateByRange_entry, in_range_log. reflexivity.
Qed.

Lemma GetAllTrackables_on_ledger ctx (w : world) :
  well_formed w ->
  exists stored,
    GetAllTrackables ctx w = (Return stored, w)
    /\ ascending (map trackable_entry stored)
    /\ NoDup (map fst (map trackable_entry stored))
    /\ forall x, x ∈ stored <->
                 w !! makeTrackableID (Trackable.ID x) = Some (serializeTrackable x)
                 /\ listable (Trackable.ID x) = true.
Proof.
  intros Hw. unfold GetAllTrackables, bind at 1, getStateByRange.
  set (entries := sort_by_key (map_to_list _)).
  assert (Hall : Forall (fun kv => exists x, True /\ kv = trackable_entry x) entries).
  { apply Forall_forall. intros [key data] Hin. apply getStateByRange_entry in Hin as [Hl Hr].
    exact (trackable_range_entries w key data Hw Hl Hr). }
  destruct (iterate_records trackable_entry (fun _ => True) deserializeTrackable (fun x => x)
              w entries) as (xs & E & _ & Hit).
  { intros x _. apply deserializeTrackable_serializeTrackable. }
  { exact Hall. }
  exists xs. rewrite map_id in Hit. split; [exact Hit|]. split; [|split].
  - rewrite <- E. apply sort_by_key_ascending.
  - rewrite <- E. apply getStateByRange_keys.
  - intros x. split.
    + intros Hin. assert (Hen : trackable_entry x ∈ entries).
      { rewrite E. apply list_elem_of_fmap. exists x. split; [reflexivity | exact Hin]. }
      apply getStateByRange_entry in Hen as [Hl Hr]. rewrite in_range_trackable in Hr. auto.
    + intros (Hl & Hr).
      assert (Hen : trackable_entry x ∈ entries).
      { apply getStateByRange_entry. rewrite in_range_trackable. auto. }
      rewrite E in Hen. apply list_elem_of_fmap in Hen as (x' & Ex & Hin).
      assert (Es : serializeTrackable x = serializeTrackable x') by exact (f_equal snd Ex).
      apply serializeTrackable_inj in Es. subst x'. exact Hin.
Qed.

End Listings.

(** ** The fixture loader and the ledgers the contract can reach *)

Section Reachable.

Context `{SortKeysRecursive}.

Definition fixture_caches : list Cache.t :=
  [Cache.mk "cache1" "First Cache" "This is the first cache ever!" "12" "36" ""
     "CachePass123" quoted_admin;
   Cache.mk "cache2" "Second Cache" "This is the second cache ever!" "69" "420" ""
     "asd123" "Gaspacchio";
   Cache.mk "cache3" "Third Cache" "This is the third cache ever!" "11" "11" ""
     "asd123" "Snitzel"].

Definition fixture_logs (instants : string * string * string) : list VisitLog.t :=
  let '(i1, i2, i3) := instants in
  [VisitLog.mk "log1" (Some ["trackable1-IN"]) quoted_admin "cache1" i1;
   VisitLog.mk "log2" (Some ["trackable2-IN"]) "user2" "cache2" i2;
   VisitLog.mk "log3" (Some ["trackable3-IN"]) "user3" "cache3" i3].

Definition fixture_trackables : list Trackable.t :=
  [Trackable.mk "trackable1" "First Trackable" true "log1";
   Trackable.mk "trackable2" "Second Trackable" true "log2";
   Trackable.mk "trackable3" "Third Trackable" true "log3"].

(** The world state with the records put one after the other, the first
    of the list first. *)
Definition put_all {R} (entry : R -> string * string) (rs : list R) (w : gmap string string)
    : gmap string string :=
  fold_left (fun w r => <[fst (entry r) := snd (entry r)]> w) rs w.

Lemma InitLedger_world ctx instants (w : world) :
  InitLedger ctx instants w
  = (Return "Ledger initialized",
     put_all trackable_entry fixture_trackables
       (put_all log_entry (fixture_logs instants)
          (put_all cache_entry fixture_caches w))).
Proof. destruct instants as [[i1 i2] i3]. reflexivity. Qed.

Lemma well_formed_InitLedger ctx instants (w : world) :
  well_formed w -> well_formed (snd (InitLedger ctx instants w)).
Proof.
  intros Hw. rewrite InitLedger_world. destruct instants as [[i1 i2] i3].
  cbn [snd put_all fold_left fixture_caches fixture_logs fixture_trackables].
  set (c1 := Cache.mk "cache1" _ _ _ _ _ _ _). set (c2 := Cache.mk "cache2" _ _ _ _ _ _ _).
  set (c3 := Cache.mk "cache3" _ _ _ _ _ _ _).
  set (l1 := VisitLog.mk "log1" _ _ _ _). set (l2 := VisitLog.mk "log2" _ _ _ _).
  set (l3 := VisitLog.mk "log3" _ _ _ _).
  set (x1 := Trackable.mk "trackable1" _ _ _). set (x2 := Trackable.mk "trackable2" _ _ _).
  set (x3 := Trackable.mk "trackable3" _ _ _).
  assert (H1 : well_formed (<[fst (cache_entry c3) := snd (cache_entry c3)]>
                (<[fst (cache_entry c2) := snd (cache_entry c2)]>
                   (<[fst (cache_entry c1) := snd (cache_entry c1)]> w)))).
  { do 3 (apply well_formed_put_cache; [|split; reflexivity]). exact Hw. }
  set (w1 := <[fst (cache_entry c3) := _]> _) in *.
  assert (H2 : well_formed (<[fst (log_entry l3) := snd (log_entry l3)]>
                (<[fst (log_entry l2) := snd (log_entry l2)]>
                   (<[fst (log_entry l1) := snd (log_entry l1)]> w1)))).
  { do 3 apply well_formed_put_log. exact H1. }
  set (w2 := <[fst (log_entry l3) := _]> _) in *.
  assert (Hl1 : w2 !! makeLogID "log1" = Some (serializeLog l1)).
  { unfold w2. rewrite !lookup_insert_ne by discriminate. apply lookup_insert_eq. }
  assert (Hl2 : w2 !! makeLogID "log2" = Some (serializeLog l2)).
  { unfold w2. rewrite !lookup_insert_ne by discriminate. apply lookup_insert_eq. }
  assert (Hl3 : w2 !! makeLogID "log3" = Some (serializeLog l3)).
  { unfold w2. apply lookup_insert_eq. }
  apply (well_formed_put_trackable _ x3 l3);
    [|rewrite !lookup_insert_ne by discriminate; exact Hl3].
  apply (well_formed_put_trackable _ x2 l2);
    [|rewrite !lookup_insert_ne by discriminate; exact Hl2].
  apply (well_formed_put_trackable _ x1 l1); [exact H2 | exact Hl1].
Qed.

(** The ledgers reached from the empty one by transactions that write and
    by the fixture loader. *)
Inductive reachable : gmap string string -> Prop :=
| reachable_empty : reachable ∅
| reachable_submit w ctx c :
    reachable w -> numeric c -> reachable (snd (submit ctx c w))
| reachable_InitLedger w ctx instants :
    reachable w -> reachable (snd (InitLedger ctx instants w)).

Lemma reachable_ledger (w : world) : reachable w -> well_formed w.
Proof.
  induction 1 as [|w ctx c _ IH Hn|w ctx instants _ IH].
  - apply well_formed_empty.
  - pose proof (submit_settled ctx c w IH Hn) as Hs.
    destruct (submit ctx c w) as [[[msg| |]|] w']; cbn [snd]; try contradiction.
    + subst w'. exact IH.
    + exact (proj1 Hs).
  - apply well_formed_InitLedger. exact IH.
Qed.

End Reachable.

(** ** More of the contract, property by property *)

Section Registry_properties.

Context `{SortKeysRecursive}.

Lemma stored_after_put (w : world) key data : <[key := data]> w !! key = Some data.
Proof. apply lookup_insert_eq. Qed.

(** X3.  An id is taken once: after a CreateCache that succeeded, every
    CreateCache with the same id fails with AlreadyExists, whoever calls
    and whatever the other arguments are, and writes nothing. *)
Theorem CreateCache_rejects_a_taken_id ctx1 ctx2 id n d x y p n' d' x' y' p' (w : world) c w' :
  CreateCache ctx1 id n d x y p w = (Return c, w') ->
  CreateCache ctx2 id n' d' x' y' p' w' = (Throw (AlreadyExists "Cache" id), w').
Proof.
  intros Hc. apply CreateCache_inv in Hc as [_ ->].
  apply CreateCache_present. apply (CacheExists_stored ctx2 id c). apply stored_after_put.
Qed.

(** X4.  UpdateCache, DeleteCache and GetCachePass are for the maintainer
    alone: for a caller whose user id is not the Maintainer of the stored
    cache each of them fails with Not maintainer and writes nothing. *)
Theorem only_the_maintainer ctx id (w : world) old :
  Cache.wf old ->
  w !! makeCacheID id = Some (serializeCache old) ->
  getUserID ctx <> Cache.Maintainer old ->
  (forall n d x y p r, UpdateCache ctx id n d x y p r w = (Throw NotMaintainer, w))
  /\ DeleteCache ctx id w = (Throw NotMaintainer, w)
  /\ GetCachePass ctx id w = (Throw NotMaintainer, w).
Proof.
  intros Hwf Hold Hne. apply String.eqb_neq in Hne. repeat split; intros.
  - rewrite (UpdateCache_loaded _ _ _ _ _ _ _ _ _ _ Hwf Hold), Hne. reflexivity.
  - rewrite (DeleteCache_loaded _ _ _ _ Hwf Hold), Hne. reflexivity.
  - rewrite (GetCachePass_loaded _ _ _ _ Hwf Hold), Hne. reflexivity.
Qed.

(** X5.  DeleteCache by the maintainer returns the id and removes the key
    of the cache and nothing else.  Afterwards GetCache fails with
    NotFound for every caller, and the id is free again: any caller can
    create a cache under it and becomes its maintainer. *)
Theorem DeleteCache_frees_the_id ctx id (w : world) old :
  Cache.wf old ->
  w !! makeCacheID id = Some (serializeCache old) ->
  getUserID ctx = Cache.Maintainer old ->
  let w' := delete (makeCacheID id) w in
  DeleteCache ctx id w = (Return id, w')
  /\ (forall reader, GetCache reader id w' = (Throw (NotFound "Cache" id), w'))
  /\ (forall other n d x y p,
         exists c w'',
           CreateCache other id n d x y p w' = (Return c, w'')
           /\ Cache.Maintainer c = getUserID other).
Proof.
  intros Hwf Hold Hm w'.
  assert (Habs : forall who, CacheExists who id w' = (Return false, w')).
  { intros who. apply CacheExists_absent. apply lookup_delete_eq. }
  repeat split.
  - rewrite (DeleteCache_loaded _ _ _ _ Hwf Hold), Hm, String.eqb_refl. reflexivity.
  - intros reader. destruct (cache_missing _ _ _ (Habs reader)) as (_ & _ & _ & Hg & _).
    exact Hg.
  - intros other n d x y p. eexists _, _.
    split; [apply CreateCache_absent; apply Habs | reflexivity].
Qed.

(** X6.  After a successful CreateCache, GetCachePass gives the pass that
    was supplied, unredacted, to a caller with the identity of the
    creator, and fails with Not maintainer for every other caller. *)
Theorem GetCachePass_after_CreateCache creator id n d x y p (w : world) c w' reader :
  is_number x = true ->
  is_number y = true ->
  CreateCache creator id n d x y p w = (Return c, w') ->
  GetCachePass reader id w'
  = if String.eqb (clientIdentity_getID reader) (clientIdentity_getID creator)
    then (Return p, w') else (Throw NotMaintainer, w').
Proof.
  intros Hx Hy Hc. apply CreateCache_inv in Hc as [-> ->].
  set (c := Cache.mk id n d x y "" p (getUserID creator)).
  assert (Hwf : Cache.wf c) by (split; assumption).
  rewrite (GetCachePass_loaded reader id _ c Hwf (stored_after_put _ _ _)).
  cbn [Cache.Maintainer Cache.Pass c].
  destruct (String.eqb_spec (clientIdentity_getID reader) (clientIdentity_getID creator))
    as [Hid | Hid].
  - apply getUserID_inj in Hid. rewrite Hid, String.eqb_refl. reflexivity.
  - destruct (String.eqb_spec (getUserID reader) (getUserID creator)) as [Hu | Hu];
      [apply getUserID_inj in Hu; contradiction | reflexivity].
Qed.

(** X7.  UpdateCache by the maintainer replaces every field but
    Maintainer, Report included, and what it returns is what it stores: a
    GetCache by the maintainer right after it returns the same record, and
    a GetCache by anyone else returns it with an empty Pass. *)
Theorem UpdateCache_then_GetCache ctx id n d x y p r (w : world) old :
  Cache.wf old ->
  w !! makeCacheID id = Some (serializeCache old) ->
  getUserID ctx = Cache.Maintainer old ->
  is_number x = true ->
  is_number y = true ->
  let c := Cache.mk id n d x y r p (Cache.Maintainer old) in
  exists w',
    UpdateCache ctx id n d x y p r w = (Return c, w')
    /\ GetCache ctx id w' = (Return c, w')
    /\ (forall reader, getUserID reader <> Cache.Maintainer old ->
                       GetCache reader id w' = (Return (Cache.with_Pass "" c), w')).
Proof.
  intros Hwf Hold Hm Hx Hy c.
  assert (Hc : Cache.wf c) by (split; assumption).
  exists (<[makeCacheID id := serializeCache c]> w). repeat split.
  - rewrite (UpdateCache_loaded _ _ _ _ _ _ _ _ _ _ Hwf Hold), Hm, String.eqb_refl. reflexivity.
  - rewrite (GetCache_loaded ctx id _ c Hc (stored_after_put _ _ _)).
    unfold isMaintainer. cbn [Cache.Maintainer c]. rewrite Hm, String.eqb_refl. reflexivity.
  - intros reader Hne. rewrite (GetCache_loaded reader id _ c Hc (stored_after_put _ _ _)).
    unfold isMaintainer. cbn [Cache.Maintainer c]. apply String.eqb_neq in Hne. rewrite Hne.
    reflexivity.
Qed.

(** X8.  ReportCache is open to every caller and changes the Report
    alone: the record it stores is the old record with the new Report, and
    the Pass it may blank in the record it returns stays on the ledger,
    where GetCachePass still gives it to the maintainer. *)
Theorem ReportCache_changes_only_the_Report ctx id r (w : world) old :
  Cache.wf old ->
  w !! makeCacheID id = Some (serializeCache old) ->
  Cache.ID old = id ->
  let written :=
    Cache.mk (Cache.ID old) (Cache.Name old) (Cache.Description old) (Cache.GPSX old)
      (Cache.GPSY old) r (Cache.Pass old) (Cache.Maintainer old) in
  exists w',
    ReportCache ctx id r w
    = (Return (if isMaintainer ctx (Cache.Maintainer old) then written
               else Cache.with_Pass "" written), w')
    /\ w' = <[makeCacheID id := serializeCache written]> w
    /\ (forall maintainer, getUserID maintainer = Cache.Maintainer old ->
                           GetCachePass maintainer id w' = (Return (Cache.Pass old), w')).
Proof.
  intros Hwf Hold Hid written.
  assert (Hw : Cache.wf written) by exact Hwf.
  exists (<[makeCacheID id := serializeCache written]> w). repeat split.
  - pose proof (ReportCache_loaded ctx id r w old Hwf Hold) as E. cbv zeta in E.
    rewrite E. unfold written. rewrite Hid. reflexivity.
  - intros maintainer Hm.
    rewrite (GetCachePass_loaded maintainer id _ written Hw (stored_after_put _ _ _)).
    cbn [Cache.Maintainer Cache.Pass written]. rewrite Hm, String.eqb_refl. reflexivity.
Qed.

(** X9.  Without the cache nothing is done: when no bytes are stored
    under the key of the cache, UpdateCache, DeleteCache, GetCachePass,
    GetCache, ReportCache and CreateLog all fail with NotFound for the
    cache, before any other check, and write nothing. *)
Theorem without_the_cache ctx id (w : world) :
  CacheExists ctx id w = (Return false, w) ->
  (forall n d x y p r, UpdateCache ctx id n d x y p r w = (Throw (NotFound "Cache" id), w))
  /\ DeleteCache ctx id w = (Throw (NotFound "Cache" id), w)
  /\ GetCachePass ctx id w = (Throw (NotFound "Cache" id), w)
  /\ GetCache ctx id w = (Throw (NotFound "Cache" id), w)
  /\ (forall r, ReportCache ctx id r w = (Throw (NotFound "Cache" id), w))
  /\ (forall l p, CreateLog ctx l id p w = (Throw (NotFound "Cache" id), w)).
Proof. apply cache_missing. Qed.

(** X10.  CreateLog is gated by the pass of the cache and by nothing
    else: for a cache on the ledger and a log id that is free, a caller
    who supplies the stored Pass gets a log with that id, no tags, the
    caller as User, the cache and the current instant, stored under the
    key of the log, where it reads back unchanged; any other pass fails
    with Wrong Pass and writes nothing. *)
Theorem CreateLog_is_gated_by_the_pass ctx l id p (w : world) cache :
  Cache.wf cache ->
  w !! makeCacheID id = Some (serializeCache cache) ->
  w !! makeLogID l = None ->
  let log := VisitLog.mk l (Some []) (getUserID ctx) id (Date_toISOString ctx) in
  (p = Cache.Pass cache ->
   CreateLog ctx l id p w = (Return log, <[makeLogID l := serializeLog log]> w)
   /\ deserializeLog (serializeLog log) w = (Return log, w))
  /\ (p <> Cache.Pass cache -> CreateLog ctx l id p w = (Throw (Error "Wrong Pass!"), w)).
Proof.
  intros Hwf Hc Hl log.
  pose proof (CreateLog_loaded ctx l id p w cache Hwf Hc (LogExists_absent ctx l w Hl)) as E.
  split.
  - intros ->. rewrite String.eqb_refl in E. split; [exact E|].
    rewrite deserializeLog_serializeLog. unfold stored_log, log.
    cbn [VisitLog.Trackables option_map VisitLog.ID VisitLog.User VisitLog.Cache VisitLog.Time].
    rewrite sortTags_nil. reflexivity.
  - intros Hne. apply String.eqb_neq in Hne. rewrite Hne in E. exact E.
Qed.

Lemma CreateLog_inv ctx l id p (w : world) log w' :
  CreateLog ctx l id p w = (Return log, w') ->
  w' = <[makeLogID l := serializeLog log]> w.
Proof.
  unfold CreateLog, assertCacheExists, assertLogNotExists, CacheExists, LogExists,
    deserializeCache, deserialize, bind, getState, putState, ret, throw.
  destruct (negb (nonempty (default "" (w !! makeCacheID id)))); [discriminate|].
  destruct (nonempty (default "" (w !! makeLogID l))); [discriminate|].
  destruct (parse (default "" (w !! makeCacheID id))) as [v|]; [|discriminate].
  destruct (Cache.of_value v) as [c|]; [|discriminate].
  destruct (negb (String.eqb p (Cache.Pass c))); [discriminate|].
  intros [= <- <-]. reflexivity.
Qed.

(** X11.  A log is written once: after a CreateLog that succeeded, every
    CreateLog with the same log id, for any cache on the ledger and with
    any pass (the right one too), fails with AlreadyExists and writes
    nothing. *)
Theorem CreateLog_never_replaces_a_log ctx1 ctx2 l id p id' p' (w : world) log w' :
  CreateLog ctx1 l id p w = (Return log, w') ->
  CacheExists ctx2 id' w' = (Return true, w') ->
  CreateLog ctx2 l id' p' w' = (Throw (AlreadyExists "Log" l), w').
Proof.
  intros Hc Hcache. apply CreateLog_inv in Hc. subst w'.
  apply CreateLog_present; [exact Hcache|].
  apply (LogExists_stored ctx2 l log). apply stored_after_put.
Qed.

End Registry_properties.

Section Trackable_properties.

Import JSON_facts.

Context `{SortKeysRecursive}.

(** What a transfer that returned has checked and written. *)
Lemma transfer_loaded d ctx t l (w : world) tr old new :
  w !! makeLogID l = Some (serializeLog new) ->
  w !! makeTrackableID t = Some (serializeTrackable tr) ->
  w !! makeLogID (Trackable.VisitLog tr) = Some (serializeLog old) ->
  forall r w',
    transfer d ctx t l w = (Return r, w') ->
    r = Trackable.mk t (Trackable.Name tr) (inserted_after d) l
    /\ w' = <[makeLogID (VisitLog.ID new)
              := serializeLog (log_with_tag (stored_log new) (movement_tag d t))]>
              (<[makeTrackableID t := serializeTrackable r]> w)
    /\ Trackable.Inserted tr = inserted_before d
    /\ getUserID ctx = VisitLog.User new
    /\ (d = MoveIn -> VisitLog.User old = VisitLog.User new)
    /\ (d = MoveOut -> VisitLog.Cache new = VisitLog.Cache old)
    /\ String.leb (VisitLog.Time new) (VisitLog.Time old) = false.
Proof.
  intros Hnew Htr Hold r w' E. destruct d; cbn [transfer] in E.
  - rewrite (InsertTrackable_loaded ctx t l w tr old new Hnew Htr Hold) in E.
    destruct (Trackable.Inserted tr); [discriminate|].
    destruct (String.eqb_spec (VisitLog.User old) (VisitLog.User new)); [|discriminate].
    destruct (String.eqb_spec (getUserID ctx) (VisitLog.User new)); [|discriminate].
    cbn [negb] in E.
    destruct (String.leb (VisitLog.Time new) (VisitLog.Time old)) eqn:Ht; [discriminate|].
    injection E as <- <-. repeat split; intros; first [assumption | reflexivity | discriminate].
  - rewrite (RemoveTrackable_loaded ctx t l w tr old new Hnew Htr Hold) in E.
    destruct (Trackable.Inserted tr); [|discriminate].
    destruct (String.eqb_spec (getUserID ctx) (VisitLog.User new)); [|discriminate].
    cbn [negb] in E.
    destruct (String.leb (VisitLog.Time new) (VisitLog.Time old)) eqn:Ht; [discriminate|].
    destruct (String.eqb_spec (VisitLog.Cache new) (VisitLog.Cache old)); [|discriminate].
    injection E as <- <-. repeat split; intros; first [assumption | reflexivity | discriminate].
Qed.

Lemma trackable_after_move (w : world) t l data x :
  <[makeLogID l := data]> (<[makeTrackableID t := serializeTrackable x]> w)
    !! makeTrackableID t = Some (serializeTrackable x).
Proof.
  rewrite lookup_insert_ne by apply log_key_not_trackable. apply lookup_insert_eq.
Qed.

Lemma tags_after_move new tag :
  tags (log_with_tag (stored_log new) tag) ≡ₚ (tags new ++ [tag])%list.
Proof.
  unfold tags, log_with_tag, stored_log, spread_push.
  cbn [VisitLog.Trackables default]. apply Permutation_app_tail.
  destruct (VisitLog.Trackables new) as [ts|]; cbn [option_map default]; [|reflexivity].
  symmetry. apply sortTags_perm.
Qed.

(** X12.  CreateTrackable by the user of the log stores a trackable that
    is inserted in that log, and what it returns is what it stores: every
    caller reads the same record back with GetTrackable, and an
    InsertTrackable of the new trackable fails, whoever asks and with
    whichever log, because the trackable is already inserted. *)
Theorem CreateTrackable_then_GetTrackable ctx t l n (w : world) new :
  w !! makeLogID l = Some (serializeLog new) ->
  w !! makeTrackableID t = None ->
  getUserID ctx = VisitLog.User new ->
  let x := Trackable.mk t n true l in
  exists w',
    CreateTrackable ctx t l n w = (Return x, w')
    /\ (forall reader, GetTrackable reader t w' = (Return x, w'))
    /\ (forall other l', LogExists other l' w' = (Return true, w') ->
                         InsertTrackable other t l' w'
                         = (Throw (Error ("Trackable " +:+ t +:+ " is already inserted")), w')).
Proof.
  intros Hnew Ht Hu x.
  pose proof (CreateTrackable_loaded ctx t l n w new Hnew (TrackableExists_absent ctx t w Ht))
    as E.
  rewrite Hu, String.eqb_refl in E. cbn [negb] in E.
  eexists. split; [exact E|]. split.
  - intros reader. apply GetTrackable_loaded. apply trackable_after_move.
  - intros other l' Hl'.
    pose proof (transfer_in_place MoveIn other t l' _ x Hl' (trackable_after_move _ _ _ _ _)
                  eq_refl) as E'.
    cbn [transfer inserted_after] in E'. exact E'.
Qed.


(** X14.  Transfers alternate: after an InsertTrackable that succeeded
    every further InsertTrackable of the same trackable fails because it
    is already inserted, and after a RemoveTrackable that succeeded every
    further RemoveTrackable fails because it is not inserted, whoever
    asks and with whichever existing log; the failed call writes
    nothing. *)
Theorem transfers_alternate d ctx t l (w : world) tr old new r w' :
  w !! makeLogID l = Some (serializeLog new) ->
  w !! makeTrackableID t = Some (serializeTrackable tr) ->
  w !! makeLogID (Trackable.VisitLog tr) = Some (serializeLog old) ->
  transfer d ctx t l w = (Return r, w') ->
  forall other l',
    LogExists other l' w' = (Return true, w') ->
    transfer d other t l' w'
    = (Throw (Error ("Trackable " +:+ t +:+
                     (if inserted_after d then " is already inserted" else " is not inserted"))),
       w').
Proof.
  intros Hnew Htr Hold E other l' Hl'.
  destruct (transfer_loaded d ctx t l w tr old new Hnew Htr Hold r w' E) as (Hr & Hw & _).
  apply (transfer_in_place d other t l' w' r Hl').
  - rewrite Hw. apply trackable_after_move.
  - rewrite Hr. reflexivity.
Qed.

(** X15.  What a transfer that succeeds through a log stored under its
    own id leaves behind: the trackable keeps its id and name, has the
    new state and points to the new log, and every caller reads it so;
    the new log keeps its user, cache and time and holds its old tags and
    the one new movement tag, in some order; every other key of the
    ledger, the old log of the trackable included when it is another log,
    is as before. *)
Theorem transfer_effect d ctx t l (w : world) tr old new r w' :
  w !! makeLogID l = Some (serializeLog new) ->
  w !! makeTrackableID t = Some (serializeTrackable tr) ->
  w !! makeLogID (Trackable.VisitLog tr) = Some (serializeLog old) ->
  VisitLog.ID new = l ->
  transfer d ctx t l w = (Return r, w') ->
  r = Trackable.mk t (Trackable.Name tr) (inserted_after d) l
  /\ (forall reader, GetTrackable reader t w' = (Return r, w'))
  /\ (exists new',
         w' !! makeLogID l = Some (serializeLog new')
         /\ VisitLog.ID new' = l
         /\ VisitLog.User new' = VisitLog.User new
         /\ VisitLog.Cache new' = VisitLog.Cache new
         /\ VisitLog.Time new' = VisitLog.Time new
         /\ tags new' ≡ₚ (tags new ++ [movement_tag d t])%list)
  /\ (forall key, key <> makeTrackableID t -> key <> makeLogID l -> w' !! key = w !! key).
Proof.
  intros Hnew Htr Hold Hid E.
  destruct (transfer_loaded d ctx t l w tr old new Hnew Htr Hold r w' E) as (Hr & Hw & _).
  rewrite Hid in Hw. split; [exact Hr|]. split; [|split].
  - intros reader. apply GetTrackable_loaded. rewrite Hw. apply trackable_after_move.
  - exists (log_with_tag (stored_log new) (movement_tag d t)).
    split; [rewrite Hw; apply lookup_insert_eq|].
    repeat split; try assumption. apply tags_after_move.
  - intros key Ht Hl. rewrite Hw, !lookup_insert_ne by congruence. reflexivity.
Qed.

(** X30.  Only who took a trackable out can put it back in: on a
    well-formed ledger, when a RemoveTrackable succeeded and a later
    InsertTrackable of the same trackable succeeds right after it, the
    two callers have the same identity. *)
Theorem only_the_remover_reinserts ctx t l (w : world) tr old new r w' other l' r' w'' :
  well_formed w ->
  w !! makeLogID l = Some (serializeLog new) ->
  w !! makeTrackableID t = Some (serializeTrackable tr) ->
  w !! makeLogID (Trackable.VisitLog tr) = Some (serializeLog old) ->
  RemoveTrackable ctx t l w = (Return r, w') ->
  InsertTrackable other t l' w' = (Return r', w'') ->
  clientIdentity_getID other = clientIdentity_getID ctx.
Proof.
  intros Hw Hnew Htr Hold E E'.
  destruct (ledger_log w l _ Hw Hnew) as (new0 & Hid0 & Hs0).
  assert (Hid : VisitLog.ID new = l).
  { apply serializeLog_stored_inj in Hs0. apply (f_equal VisitLog.ID) in Hs0.
    cbn [stored_log VisitLog.ID] in Hs0. congruence. }
  pose proof (transfer_settled MoveOut ctx t l w Hw) as Hs. cbn [transfer] in Hs.
  rewrite E in Hs. cbn [settled] in Hs. destruct Hs as [Hw' _].
  destruct (transfer_loaded MoveOut ctx t l w tr old new Hnew Htr Hold r w' E)
    as (Hr & Hw'eq & _ & Hu & _).
  rewrite Hid in Hw'eq.
  set (kept := log_with_tag (stored_log new) (movement_tag MoveOut t)) in *.
  assert (Hr' : w' !! makeTrackableID t = Some (serializeTrackable r))
    by (rewrite Hw'eq; apply trackable_after_move).
  assert (Hk : w' !! makeLogID (Trackable.VisitLog r) = Some (serializeLog kept)).
  { rewrite Hr. cbn [Trackable.VisitLog]. rewrite Hw'eq. apply lookup_insert_eq. }
  destruct (w' !! makeLogID l') as [data|] eqn:Hl'.
  - destruct (ledger_log w' l' data Hw' Hl') as (new' & _ & ->).
    destruct (transfer_loaded MoveIn other t l' w' r kept new' Hl' Hr' Hk r' w'' E')
      as (_ & _ & _ & Hu' & Hown & _).
    specialize (Hown eq_refl). cbn [kept log_with_tag stored_log VisitLog.User] in Hown.
    apply getUserID_inj. congruence.
  - destruct (log_missing other l' w' (LogExists_absent other l' w' Hl')) as (_ & Hi & _).
    rewrite Hi in E'. discriminate.
Qed.





End Trackable_properties.

(** ** The ledger as a whole *)

Section Ledger_properties.

Import JSON_facts.

Context `{SortKeysRecursive}.

(** X17.  Every transaction that writes keeps the ledger well-formed:
    from a ledger where each key holds a record of its kind under its own
    id and each trackable points to a log on the ledger, it leads to such
    a ledger again, whether it returns or throws. *)
Theorem a_transaction_keeps_the_ledger_well_formed ctx (c : call) (w : world) :
  well_formed w ->
  numeric c ->
  well_formed (snd (submit ctx c w)).
Proof.
  intros Hw Hc. pose proof (submit_settled ctx c w Hw Hc) as Hs.
  destruct (submit ctx c w) as [[[msg| |]|] w']; cbn [snd].
  - subst w'. exact Hw.
  - destruct Hs.
  - destruct Hs.
  - apply Hs.
Qed.

(** X18.  On every ledger the contract can reach from the empty one, by
    transactions and by the fixture loader, no transaction ever fails on
    bytes that do not parse or on a record of the wrong shape: it returns,
    or it throws one of the errors of the contract. *)
Theorem reachable_ledgers_fail_only_by_the_contract (w : world) ctx (c : call) :
  reachable w ->
  numeric c ->
  well_formed w
  /\ (fst (submit ctx c w) = None \/ exists msg, fst (submit ctx c w) = Some (Error msg)).
Proof.
  intros Hr Hc. pose proof (reachable_ledger w Hr) as Hw. split; [exact Hw|].
  pose proof (submit_settled ctx c w Hw Hc) as Hs.
  destruct (submit ctx c w) as [[[msg| |]|] w']; cbn [fst].
  - right. exists msg. reflexivity.
  - destruct Hs.
  - destruct Hs.
  - left. reflexivity.
Qed.

(** X19.  No transaction erases history: after any transaction on a
    well-formed ledger every log that was there is still there, with the
    same user, cache and time and with every tag it had, and every
    trackable that was there is still there under the same name.  Only
    caches are ever deleted. *)
Theorem history_is_kept ctx (c : call) (w : world) :
  well_formed w ->
  numeric c ->
  keeps_history w (snd (submit ctx c w)).
Proof.
  intros Hw Hc. pose proof (submit_settled ctx c w Hw Hc) as Hs.
  destruct (submit ctx c w) as [[[msg| |]|] w']; cbn [snd].
  - subst w'. apply keeps_history_refl.
  - destruct Hs.
  - destruct Hs.
  - apply Hs.
Qed.

(** X29.  On a well-formed ledger the three existence queries tell
    exactly what is stored: each answers true when the key of the record
    is on the ledger and false when it is not, and never throws. *)
Theorem existence_queries_tell_what_is_stored ctx id (w : world) :
  well_formed w ->
  CacheExists ctx id w = (Return (bool_decide (is_Some (w !! makeCacheID id))), w)
  /\ LogExists ctx id w = (Return (bool_decide (is_Some (w !! makeLogID id))), w)
  /\ TrackableExists ctx id w
     = (Return (bool_decide (is_Some (w !! makeTrackableID id))), w).
Proof.
  intros Hw. repeat split.
  - destruct (w !! makeCacheID id) as [data|] eqn:E.
    + destruct (ledger_cache w id data Hw E) as (c & _ & _ & ->).
      rewrite (CacheExists_stored ctx id c w E). reflexivity.
    + rewrite (CacheExists_absent ctx id w E). reflexivity.
  - destruct (w !! makeLogID id) as [data|] eqn:E.
    + destruct (ledger_log w id data Hw E) as (l & _ & ->).
      rewrite (LogExists_stored ctx id l w E). reflexivity.
    + rewrite (LogExists_absent ctx id w E). reflexivity.
  - destruct (w !! makeTrackableID id) as [data|] eqn:E.
    + destruct (ledger_trackable w id data Hw E) as (x & l & _ & -> & _).
      rewrite (TrackableExists_stored ctx id x w E). reflexivity.
    + rewrite (TrackableExists_absent ctx id w E). reflexivity.
Qed.

Lemma ids_of_entries {R} (entry : R -> string * string) (key : string -> string)
    (id : R -> string) (rs : list R) :
  (forall r, fst (entry r) = key (id r)) ->
  NoDup (map fst (map entry rs)) -> NoDup (map id rs).
Proof.
  intros Hk Hn. apply (NoDup_fmap_1 key).
  replace (key <$> map id rs) with (map fst (map entry rs)); [exact Hn|]. clear Hn.
  induction rs as [|r rs IH]; [reflexivity|]. cbn [map fmap list_fmap]. rewrite Hk. f_equal.
  exact IH.
Qed.

(** X20.  GetAllCaches on a well-formed ledger returns, in ascending
    order of their keys and no id twice, the caches stored under an id
    that is empty or begins with a byte below the tilde; each cache is
    shown as GetCache shows it to the caller, with its Pass only for its
    maintainer. *)
Theorem GetAllCaches_lists_the_caches ctx (w : world) :
  well_formed w ->
  exists stored,
    GetAllCaches ctx w
    = (Return (map (fun c => if isMaintainer ctx (Cache.Maintainer c) then c
                             else Cache.with_Pass "" c) stored), w)
    /\ ascending (map cache_entry stored)
    /\ NoDup (map Cache.ID stored)
    /\ (forall c, c ∈ stored
                  <-> Cache.wf c
                      /\ w !! makeCacheID (Cache.ID c) = Some (serializeCache c)
                      /\ listable (Cache.ID c) = true).
Proof.
  intros Hw. destruct (GetAllCaches_on_ledger ctx w Hw) as (stored & Hg & Ha & Hn & Hin).
  exists stored. split; [|split; [exact Ha | split; [|exact Hin]]].
  - rewrite Hg. do 2 f_equal. apply map_ext. intros c. apply hideHiddenValues_fresh.
  - apply (ids_of_entries cache_entry makeCacheID); [reflexivity | exact Hn].
Qed.

(** X21.  GetAllLogs on a well-formed ledger returns, in ascending order
    of their keys and no id twice, exactly the logs stored under an id
    that is empty or begins with a byte below the tilde, each as its bytes
    read back. *)
Theorem GetAllLogs_lists_the_logs ctx (w : world) :
  well_formed w ->
  exists returned,
    GetAllLogs ctx w = (Return returned, w)
    /\ ascending (map log_entry returned)
    /\ NoDup (map VisitLog.ID returned)
    /\ (forall l, l ∈ returned
                  <-> exists l0,
                        w !! makeLogID (VisitLog.ID l0) = Some (serializeLog l0)
                        /\ listable (VisitLog.ID l0) = true
                        /\ l = stored_log l0).
Proof.
  intros Hw. destruct (GetAllLogs_on_ledger ctx w Hw) as (stored & Hg & Ha & Hn & Hin).
  assert (Hsame : map log_entry (map stored_log stored) = map log_entry stored).
  { rewrite map_map. apply map_ext. intros l. unfold log_entry.
    rewrite serializeLog_stored. reflexivity. }
  exists (map stored_log stored). split; [exact Hg|]. split; [|split].
  - rewrite Hsame. exact Ha.
  - apply (ids_of_entries log_entry makeLogID); [reflexivity|]. rewrite Hsame. exact Hn.
  - intros l. split.
    + intros Hl. apply list_elem_of_fmap in Hl as (l0 & -> & Hl0). exists l0.
      assert (He : log_entry l0 ∈ map log_entry stored).
      { apply list_elem_of_fmap. exists l0. split; [reflexivity | exact Hl0]. }
      apply Hin in He as [Hs Hr]. auto.
    + intros (l0 & Hs & Hr & ->).
      assert (He : log_entry l0 ∈ map log_entry stored) by (apply Hin; auto).
      apply list_elem_of_fmap in He as (l1 & He & Hl1).
      assert (Es : serializeLog l0 = serializeLog l1) by exact (f_equal snd He).
      apply serializeLog_stored_inj in Es. rewrite Es.
      apply list_elem_of_fmap. exists l1. split; [reflexivity | exact Hl1].
Qed.

(** X22.  GetAllTrackables on a well-formed ledger returns, in ascending
    order of their keys and no id twice, exactly the trackables stored
    under an id that is empty or begins with a byte below the tilde. *)
Theorem GetAllTrackables_lists_the_trackables ctx (w : world) :
  well_formed w ->
  exists returned,
    GetAllTrackables ctx w = (Return returned, w)
    /\ ascending (map trackable_entry returned)
    /\ NoDup (map Trackable.ID returned)
    /\ (forall x, x ∈ returned
                  <-> w !! makeTrackableID (Trackable.ID x) = Some (serializeTrackable x)
                      /\ listable (Trackable.ID x) = true).
Proof.
  intros Hw. destruct (GetAllTrackables_on_ledger ctx w Hw) as (stored & Hg & Ha & Hn & Hin).
  exists stored. split; [exact Hg|]. split; [exact Ha|]. split; [|exact Hin].
  apply (ids_of_entries trackable_entry makeTrackableID); [reflexivity | exact Hn].
Qed.

(** X23.  A cache whose id begins with the tilde or a byte above it is
    created and read like any other, but GetAllCaches never lists it: the
    range of the listing ends before its key. *)
Theorem a_cache_the_listing_misses ctx id n d x y p (w : world) c w' :
  well_formed w ->
  is_number x = true ->
  is_number y = true ->
  listable id = false ->
  CreateCache ctx id n d x y p w = (Return c, w') ->
  GetCache ctx id w' = (Return c, w')
  /\ forall reader listed,
       GetAllCaches reader w' = (Return listed, w') ->
       forall c', c' ∈ listed -> Cache.ID c' <> id.
Proof.
  intros Hw Hx Hy Hl Hc. apply CreateCache_inv in Hc as [-> ->].
  set (c := Cache.mk id n d x y "" p (getUserID ctx)).
  assert (Hwf : Cache.wf c) by (split; assumption).
  assert (Hw' : well_formed (<[makeCacheID id := serializeCache c]> w))
    by exact (well_formed_put_cache w c Hw Hwf).
  split.
  - rewrite (GetCache_loaded ctx id _ c Hwf (lookup_insert_eq _ _ _)).
    unfold isMaintainer. cbn [Cache.Maintainer c]. rewrite String.eqb_refl. reflexivity.
  - intros reader listed Hg c' Hin.
    destruct (GetAllCaches_on_ledger reader _ Hw') as (stored & Hg' & _ & _ & Hs).
    rewrite Hg' in Hg. injection Hg as <-.
    apply list_elem_of_fmap in Hin as (c0 & -> & Hin). apply Hs in Hin as (_ & _ & Hr).
    rewrite hideHiddenValues_fresh. intros Heq.
    assert (Cache.ID c0 = id) by (destruct (isMaintainer reader _); exact Heq).
    congruence.
Qed.

(** X24.  Whoami tells callers apart: two callers get the same user id
    exactly when they carry the same identity, so no two identities share
    the rights of a maintainer or the logs of a user.  Ping answers pong
    on every ledger. *)
Theorem Whoami_tells_callers_apart ctx1 ctx2 (w : world) :
  (fst (Whoami ctx1 w) = fst (Whoami ctx2 w)
   <-> clientIdentity_getID ctx1 = clientIdentity_getID ctx2)
  /\ Ping w = (Return "pong", w).
Proof.
  split; [|reflexivity]. unfold Whoami, ret. cbn [fst]. rewrite <- getUserID_inj.
  split; [intros [= E]; exact E | intros ->; reflexivity].
Qed.

Lemma escape_char_no_quote c r : escape_char c <> String dquote r.
Proof.
  unfold escape_char.
  destruct (Ascii.eqb_spec c dquote) as [|Hq]; [discriminate|].
  repeat match goal with
         | |- (if ?b then _ else _) <> _ => destruct b; [discriminate|]
         end.
  intros [= E _]. contradiction.
Qed.

Lemma getUserID_no_quote ctx r : getUserID ctx <> String dquote r.
Proof.
  rewrite getUserID_escape. destruct (clientIdentity_getID ctx) as [|c s]; [discriminate|].
  cbn [escape]. pose proof (escape_char_no_quote c) as Hc.
  destruct (escape_char c) as [|c' s'] eqn:E.
  - exfalso. revert E. unfold escape_char.
    repeat match goal with
           | |- (if ?b then _ else _) = _ -> _ => destruct b; [discriminate|]
           end.
    discriminate.
  - rewrite sapp_cons. intros [= -> _]. exact (Hc s' eq_refl).
Qed.

(** X25.  The first fixture cache has no maintainer: its Maintainer is
    the word admin inside double quotes, and no user id begins with a
    double quote.  So after InitLedger, on whatever ledger it ran, every
    caller is refused by UpdateCache, DeleteCache and GetCachePass on
    cache1, and GetCache shows it to every caller without its Pass. *)
Theorem fixture_cache1_has_no_maintainer loader instants (w : world) ctx :
  let w' := snd (InitLedger loader instants w) in
  (forall n d x y p r, UpdateCache ctx "cache1" n d x y p r w' = (Throw NotMaintainer, w'))
  /\ DeleteCache ctx "cache1" w' = (Throw NotMaintainer, w')
  /\ GetCachePass ctx "cache1" w' = (Throw NotMaintainer, w')
  /\ GetCache ctx "cache1" w'
     = (Return (Cache.mk "cache1" "First Cache" "This is the first cache ever!" "12" "36" ""
                  "" quoted_admin), w').
Proof.
  intros w'.
  set (c1 := Cache.mk "cache1" "First Cache" "This is the first cache ever!" "12" "36" ""
               "CachePass123" quoted_admin).
  assert (Hwf : Cache.wf c1) by (split; reflexivity).
  assert (Hc : w' !! makeCacheID "cache1" = Some (serializeCache c1)).
  { unfold w'. rewrite InitLedger_world. destruct instants as [[i1 i2] i3].
    cbn [snd put_all fold_left fixture_caches fixture_logs fixture_trackables].
    rewrite !lookup_insert_ne by discriminate. apply lookup_insert_eq. }
  assert (Hne : String.eqb (getUserID ctx) (Cache.Maintainer c1) = false).
  { apply String.eqb_neq. apply getUserID_no_quote. }
  clearbody w'. repeat split; intros.
  - rewrite (UpdateCache_loaded _ _ _ _ _ _ _ _ _ _ Hwf Hc), Hne. reflexivity.
  - rewrite (DeleteCache_loaded _ _ _ _ Hwf Hc), Hne. reflexivity.
  - rewrite (GetCachePass_loaded _ _ _ _ Hwf Hc), Hne. reflexivity.
  - rewrite (GetCache_loaded _ _ _ _ Hwf Hc). unfold isMaintainer. rewrite Hne. reflexivity.
Qed.

(** X26.  InitLedger never throws and returns Ledger initialized.  It
    puts the three fixture caches, logs and trackables under their keys,
    over whatever was there, leaves every other key as it was, and keeps
    a well-formed ledger well-formed. *)
Theorem InitLedger_loads_the_fixtures ctx instants (w : world) :
  exists w',
    InitLedger ctx instants w = (Return "Ledger initialized", w')
    /\ (forall c, c ∈ fixture_caches ->
                  w' !! makeCacheID (Cache.ID c) = Some (serializeCache c))
    /\ (forall l, l ∈ fixture_logs instants ->
                  w' !! makeLogID (VisitLog.ID l) = Some (serializeLog l))
    /\ (forall x, x ∈ fixture_trackables ->
                  w' !! makeTrackableID (Trackable.ID x) = Some (serializeTrackable x))
    /\ (forall key,
           key ∉ (map makeCacheID (map Cache.ID fixture_caches)
                  ++ map makeLogID (map VisitLog.ID (fixture_logs instants))
                  ++ map makeTrackableID (map Trackable.ID fixture_trackables))%list ->
           w' !! key = w !! key)
    /\ (well_formed w -> well_formed w').
Proof.
  eexists. split; [apply InitLedger_world|].
  split; [|split; [|split; [|split]]].
  - destruct instants as [[i1 i2] i3]. intros c Hc.
    cbn [put_all fold_left fixture_caches fixture_logs fixture_trackables].
    unfold fixture_caches in Hc.
    repeat (apply elem_of_cons in Hc as [-> | Hc]);
      [| | | apply elem_of_nil in Hc; destruct Hc];
      rewrite ?lookup_insert_ne by discriminate; apply lookup_insert_eq.
  - destruct instants as [[i1 i2] i3]. intros l Hl.
    cbn [put_all fold_left fixture_caches fixture_logs fixture_trackables].
    unfold fixture_logs in Hl.
    repeat (apply elem_of_cons in Hl as [-> | Hl]);
      [| | | apply elem_of_nil in Hl; destruct Hl];
      rewrite ?lookup_insert_ne by discriminate; apply lookup_insert_eq.
  - destruct instants as [[i1 i2] i3]. intros x Hx.
    cbn [put_all fold_left fixture_caches fixture_logs fixture_trackables].
    unfold fixture_trackables in Hx.
    repeat (apply elem_of_cons in Hx as [-> | Hx]);
      [| | | apply elem_of_nil in Hx; destruct Hx];
      rewrite ?lookup_insert_ne by discriminate; apply lookup_insert_eq.
  - destruct instants as [[i1 i2] i3]. intros key Hkey.
    cbn [put_all fold_left fixture_caches fixture_logs fixture_trackables map app
           Cache.ID VisitLog.ID Trackable.ID] in *.
    rewrite !lookup_insert_ne; [reflexivity|..];
      intros <-; apply Hkey; cbn [cache_entry log_entry trackable_entry fst Cache.ID
                                  VisitLog.ID Trackable.ID];
      repeat first [apply list_elem_of_here | apply list_elem_of_further].
  - intros Hw. pose proof (well_formed_InitLedger ctx instants w Hw) as Hw'.
    rewrite InitLedger_world in Hw'. exact Hw'.
Qed.

(** X27.  The three kinds of record never meet on the ledger: the key of
    a record determines its id, and a cache key, a log key and a
    trackable key are never equal, whatever the ids are. *)
Theorem keys_never_collide a b :
  (makeCacheID a = makeCacheID b <-> a = b)
  /\ (makeLogID a = makeLogID b <-> a = b)
  /\ (makeTrackableID a = makeTrackableID b <-> a = b)
  /\ makeCacheID a <> makeLogID b
  /\ makeCacheID a <> makeTrackableID b
  /\ makeLogID a <> makeTrackableID b.
Proof.
  repeat split; try (intros ->; reflexivity).
  - apply makeCacheID_inj.
  - apply makeLogID_inj.
  - apply makeTrackableID_inj.
  - apply cache_key_not_log.
  - apply cache_key_not_trackable.
  - apply log_key_not_trackable.
Qed.

(** X28.  The bytes of a record determine the record: a cache with
    numeric coordinates and a trackable read back exactly as they were
    written, two of them with the same bytes are equal, and two logs with
    the same bytes have the same id, user, cache and time and the same
    tags up to their order. *)
Theorem bytes_determine_the_record :
  (forall c (w : world), Cache.wf c -> deserializeCache (serializeCache c) w = (Return c, w))
  /\ (forall x (w : world), deserializeTrackable (serializeTrackable x) w = (Return x, w))
  /\ (forall c1 c2, Cache.wf c1 -> Cache.wf c2 ->
                    serializeCache c1 = serializeCache c2 -> c1 = c2)
  /\ (forall x1 x2, serializeTrackable x1 = serializeTrackable x2 -> x1 = x2)
  /\ (forall l1 l2, serializeLog l1 = serializeLog l2 ->
                    VisitLog.ID l1 = VisitLog.ID l2
                    /\ VisitLog.User l1 = VisitLog.User l2
                    /\ VisitLog.Cache l1 = VisitLog.Cache l2
                    /\ VisitLog.Time l1 = VisitLog.Time l2
                    /\ tags l1 ≡ₚ tags l2).
Proof.
  split; [|split; [|split; [|split]]].
  - intros c w. apply deserializeCache_serializeCache.
  - intros x w. apply deserializeTrackable_serializeTrackable.
  - apply serializeCache_inj.
  - apply serializeTrackable_inj.
  - intros l1 l2 E. apply serializeLog_stored_inj in E.
    destruct l1 as [i1 t1 u1 c1 m1], l2 as [i2 t2 u2 c2 m2].
    unfold stored_log in E.
    cbn [VisitLog.ID VisitLog.Trackables VisitLog.User VisitLog.Cache VisitLog.Time] in *.
    injection E as -> Et -> -> ->. repeat split. unfold tags. cbn [VisitLog.Trackables].
    destruct t1 as [ts1|], t2 as [ts2|]; try discriminate; [|reflexivity].
    cbn [option_map default] in *. injection Et as Et.
    rewrite (sortTags_perm ts1), (sortTags_perm ts2), Et. reflexivity.
Qed.

End Ledger_properties.
(** ** Sample ledgers *)

#[local] Existing Instance keep_arrays.

Definition alice : Context :=
  {| clientIdentity_getID := "alice"; Date_toISOString := "2021-01-01T00:00:00.000Z" |}.

Definition bob : Context :=
  {| clientIdentity_getID := "bob"; Date_toISOString := "2021-03-01T00:00:00.000Z" |}.

(** The world state that holds exactly the given records, each under the
    key of its kind. *)
Definition ledger (caches : list Cache.t) (logs : list VisitLog.t)
    (trackables : list Trackable.t) : gmap string string :=
  foldr (fun c w => <[makeCacheID (Cache.ID c) := serializeCache c]> w)
    (foldr (fun l w => <[makeLogID (VisitLog.ID l) := serializeLog l]> w)
       (foldr (fun x w => <[makeTrackableID (Trackable.ID x) := serializeTrackable x]> w)
          ∅ trackables)
       logs)
    caches.

Definition cache_c1 : Cache.t := Cache.mk "c1" "Cache" "Desc" "10" "20" "" "secret" "alice".

Definition log_l1 : VisitLog.t :=
  VisitLog.mk "l1" (Some ["t1-IN"]) "alice" "c1" "2021-01-01T00:00:00Z".

(** A later call with an earlier timestamp. *)
Definition log_l2_earlier : VisitLog.t :=
  VisitLog.mk "l2" (Some []) "alice" "c1" "2020-12-31T00:00:00Z".

Definition log_l2_bob : VisitLog.t :=
  VisitLog.mk "l2" (Some []) "bob" "c1" "2021-02-01T00:00:00Z".

Definition log_l2_elsewhere : VisitLog.t :=
  VisitLog.mk "l2" (Some []) "alice" "c2" "2021-02-01T00:00:00Z".

Definition log_l2_bare : VisitLog.t :=
  VisitLog.mk "l2" None "alice" "c1" "2021-02-01T00:00:00Z".

Definition coin_in : Trackable.t := Trackable.mk "t1" "Coin" true "l1".
Definition coin_out : Trackable.t := Trackable.mk "t1" "Coin" false "l1".

(** The world state after alice has created cache c1 and logged a visit
    l1 to it. *)
Definition after_CreateLog : gmap string string :=
  snd ((CreateCache alice "c1" "Cache" "Desc" "10" "20" "secret" ;;
        CreateLog alice "l1" "c1" "secret") ∅).

(** Text with every double quote shown as an apostrophe. *)
Fixpoint shown (s : string) : string :=
  match s with
  | EmptyString => ""
  | String c r => String (if Ascii.eqb c dquote then "'"%char else c) (shown r)
  end.

(** ** The documents on the ledger *)

Example serializeCache_c1 :
  shown (serializeCache cache_c1)
  = "{'Description':'Desc','GPSX':10,'GPSY':20,'ID':'c1','Maintainer':'alice','Name':'Cache','Pass':'secret','Report':''}".
Proof. reflexivity. Qed.

Example serializeLog_l1 :
  shown (serializeLog log_l1)
  = "{'Cache':'c1','ID':'l1','Time':'2021-01-01T00:00:00Z','Trackables':['t1-IN'],'User':'alice'}".
Proof. reflexivity. Qed.

Example serializeLog_bare :
  shown (serializeLog log_l2_bare)
  = "{'Cache':'c1','ID':'l2','Time':'2021-02-01T00:00:00Z','User':'alice'}".
Proof. reflexivity. Qed.

Example serializeTrackable_coin :
  shown (serializeTrackable coin_in) = "{'ID':'t1','Inserted':true,'Name':'Coin','VisitLog':'l1'}".
Proof. reflexivity. Qed.

Example after_CreateLog_keys :
  map fst (map_to_list after_CreateLog) = ["CACHE-c1"; "LOG-l1"].
Proof. vm_compute. reflexivity. Qed.

(** With [sort_arrays] the tags of a log are written in ascending order. *)
Example serializeLog_sort_arrays :
  shown (@serializeLog sort_arrays
           (VisitLog.mk "l1" (Some ["t2-IN"; "t1-OUT"]) "alice" "c1" "2021-01-01T00:00:00Z"))
  = "{'Cache':'c1','ID':'l1','Time':'2021-01-01T00:00:00Z','Trackables':['t1-OUT','t2-IN'],'User':'alice'}".
Proof. reflexivity. Qed.

(** ** Cases of geocache.spec.ts, replayed *)

Definition user123 : Context :=
  {| clientIdentity_getID := "UserID-123"; Date_toISOString := "2021-01-01T00:00:00.000Z" |}.

Definition mochCache : Cache.t :=
  Cache.mk "cache1" "Cache 1" "This is cache 1" "123.456" "789.012" "" "password" "UserID-123".

Definition mochCache_of_another : Cache.t :=
  Cache.mk "cache1" "Cache 1" "This is cache 1" "123.456" "789.012" "" "password" "NotTheUser".

Definition oldMochLog : VisitLog.t :=
  VisitLog.mk "log1" (Some ["trackable1-OUT"]) "UserID-123" "cache1" "2021-01-01T00:00:00Z".

Definition newMochLog : VisitLog.t :=
  VisitLog.mk "log2" (Some []) "UserID-123" "cache2" "2021-02-01T00:00:00Z".

Definition mochTrackable : Trackable.t := Trackable.mk "trackable1" "CacheCoin" false "log1".

(** GetCache: should return the cache. *)
Example GetCache_returns_the_cache :
  fst (GetCache user123 "cache1" (ledger [mochCache] [] [])) = Return mochCache.
Proof. vm_compute. reflexivity. Qed.

(** GetCache: should return the cache without the pass. *)
Example GetCache_returns_the_cache_without_the_pass :
  fst (GetCache user123 "cache1" (ledger [mochCache_of_another] [] []))
  = Return (Cache.with_Pass "" mochCache_of_another).
Proof. vm_compute. reflexivity. Qed.

(** GetCache: should throw an error if the cache does not exist. *)
Example GetCache_of_no_cache :
  fst (GetCache user123 "cache1" ∅) = Throw (Error "Cache cache1 does not exist").
Proof. vm_compute. reflexivity. Qed.

(** CreateCache: should create a new cache (one putState, with these bytes). *)
Example CreateCache_creates_a_new_cache :
  CreateCache user123 "cache1" "Cache 1" "This is cache 1" "123.456" "789.012" "password" ∅
  = (Return mochCache, {[ "CACHE-cache1" := serializeCache mochCache ]}).
Proof. vm_compute. reflexivity. Qed.

(** InsertTrackable: should insert the trackable (two putState calls). *)
Example InsertTrackable_inserts_the_trackable :
  let w := ledger [] [oldMochLog; newMochLog] [mochTrackable] in
  InsertTrackable user123 "trackable1" "log2" w
  = (Return (Trackable.mk "trackable1" "CacheCoin" true "log2"),
     <["LOG-log2" :=
         serializeLog (VisitLog.mk "log2" (Some ["trackable1-IN"]) "UserID-123" "cache2"
                         "2021-02-01T00:00:00Z")]>
       (<["TRACKABLE-trackable1" :=
            serializeTrackable (Trackable.mk "trackable1" "CacheCoin" true "log2")]> w)).
Proof. vm_compute. reflexivity. Qed.

(** InsertTrackable: should throw an error if the log does not exist
    (nothing is stubbed: neither the log nor the trackable exists). *)
Example InsertTrackable_of_no_log :
  fst (InsertTrackable user123 "trackable1" "log2" ∅) = Throw (Error "Log log2 does not exist").
Proof. vm_compute. reflexivity. Qed.

(** ** Where the code departs from the claims *)

(** C1.  GetLog is evaluated on a ledger where alice has just created the
    log l1: the log exists under its prefixed key, LogExists answers true,
    and GetLog, reading the key without the prefix, finds no bytes and
    fails in JSON.parse instead of returning the log. *)
Theorem GetLog_misses_the_stored_log :
  after_CreateLog !! makeLogID "l1"
  = Some (serializeLog (VisitLog.mk "l1" (Some []) "alice" "c1" "2021-01-01T00:00:00.000Z"))
  /\ LogExists alice "l1" after_CreateLog = (Return true, after_CreateLog)
  /\ GetLog alice "l1" after_CreateLog = (Throw SyntaxError, after_CreateLog).
Proof. repeat split; vm_compute; reflexivity. Qed.

(** C2.  hideHiddenValues is evaluated for the caller bob on a heap whose
    object 0 is a cache maintained by alice: the object the call was given
    has lost its Pass afterwards, and the reference returned is the one
    passed in. *)
Theorem hideHiddenValues_writes_to_its_argument :
  let h : gmap nat Cache.t := {[ 0 := cache_c1 ]} in
  h !! 0 = Some cache_c1
  /\ fst (hideHiddenValues bob 0 h) = 0
  /\ snd (hideHiddenValues bob 0 h) !! 0 = Some (Cache.with_Pass "" cache_c1)
  /\ Cache.Pass cache_c1 = "secret"
  /\ Cache.Pass (Cache.with_Pass "" cache_c1) = "".
Proof. repeat split; vm_compute; reflexivity. Qed.

(** C3 as the specification states it fails: with neither the trackable
    nor the log on the ledger, InsertTrackable reports the log, not the
    trackable. *)
Lemma trackable_is_not_checked_first :
  ~ (forall d ctx t l (w : gmap string string),
        TrackableExists ctx t w = (Return false, w) ->
        fst (transfer d ctx t l w) = Throw (NotFound "Trackable" t)).
Proof.
  intros Hc. specialize (Hc MoveIn alice "t1" "l1" ∅ eq_refl).
  vm_compute in Hc. discriminate Hc.
Qed.

(** ** The claims on sample ledgers *)

Lemma transfer_checks_log_then_trackable_witness :
  transfer MoveIn alice "t1" "l1" (ledger [] [log_l1] [])
  = (Throw (NotFound "Trackable" "t1"), ledger [] [log_l1] [])
  /\ transfer MoveOut alice "t1" "l1" ∅ = (Throw (NotFound "Log" "l1"), ∅).
Proof.
  split.
  - apply (transfer_checks_log_then_trackable MoveIn alice "t1" "l1" _ true);
      vm_compute; reflexivity.
  - apply (transfer_checks_log_then_trackable MoveOut alice "t1" "l1" ∅ false);
      vm_compute; reflexivity.
Defined.

Lemma temporal_order_is_checked_witness :
  let w := ledger [] [log_l1; log_l2_earlier] [coin_in] in
  String.leb "2020-12-31T00:00:00Z" "2021-01-01T00:00:00Z" = true
  /\ transfer MoveOut alice "t1" "l2" w = (Throw (TemporalOrderViolation "l2" "l1"), w).
Proof.
  split; [reflexivity|].
  apply (temporal_order_is_checked MoveOut alice "t1" "l2" _ coin_in log_l1 log_l2_earlier);
    vm_compute; reflexivity.
Defined.

Lemma Maintainer_is_immutable_witness :
  let w := ledger [cache_c1] [] [] in
  (exists c w', UpdateCache alice "c1" "Renamed" "Moved" "11" "21" "hidden" "ok" w
                = (Return c, w'))
  /\ (exists c w', ReportCache bob "c1" "lid is cracked" w = (Return c, w'))
  /\ (forall n d x y p r c w',
         UpdateCache alice "c1" n d x y p r w = (Return c, w') ->
         exists written,
           w' = <[makeCacheID "c1" := serializeCache written]> w
           /\ Cache.Maintainer written = "alice")
  /\ (forall r c w',
         ReportCache bob "c1" r w = (Return c, w') ->
         exists written,
           w' = <[makeCacheID "c1" := serializeCache written]> w
           /\ Cache.Maintainer written = "alice").
Proof.
  intros w. split; [|split].
  - eexists _, _. vm_compute. reflexivity.
  - eexists _, _. vm_compute. reflexivity.
  - split.
    + apply (Maintainer_is_immutable alice "c1" w cache_c1); [split|]; vm_compute; reflexivity.
    + apply (Maintainer_is_immutable bob "c1" w cache_c1); [split|]; vm_compute; reflexivity.
Defined.

Lemma GetCache_after_CreateCache_witness :
  let w' := ledger [cache_c1] [] [] in
  CreateCache alice "c1" "Cache" "Desc" "10" "20" "secret" ∅ = (Return cache_c1, w')
  /\ (exists r, GetCache bob "c1" w' = (Return r, w')
                /\ Cache.Maintainer r = "alice" /\ Cache.Pass r = "")
  /\ (exists r, GetCache alice "c1" w' = (Return r, w')
                /\ Cache.Maintainer r = "alice" /\ Cache.Pass r = "secret").
Proof.
  intros w'.
  assert (Hc : CreateCache alice "c1" "Cache" "Desc" "10" "20" "secret" ∅ = (Return cache_c1, w'))
    by (vm_compute; reflexivity).
  split; [exact Hc|]. split.
  - exact (GetCache_after_CreateCache alice "c1" "Cache" "Desc" "10" "20" "secret" ∅
             cache_c1 w' bob eq_refl eq_refl Hc).
  - exact (GetCache_after_CreateCache alice "c1" "Cache" "Desc" "10" "20" "secret" ∅
             cache_c1 w' alice eq_refl eq_refl Hc).
Defined.

Lemma InsertTrackable_between_logs_of_one_user_witness :
  let w := ledger [] [log_l1; log_l2_bob] [coin_out] in
  InsertTrackable bob "t1" "l2" w = (Throw (NotOwnedBy "t1" "bob"), w).
Proof.
  apply (InsertTrackable_between_logs_of_one_user bob "t1" "l2" _ coin_out log_l1 log_l2_bob);
    try (vm_compute; reflexivity).
  discriminate.
Defined.

Lemma RemoveTrackable_at_the_same_cache_witness :
  let w := ledger [] [log_l1; log_l2_elsewhere] [coin_in] in
  RemoveTrackable alice "t1" "l2" w = (Throw (DifferentCaches "t1" "l2"), w).
Proof.
  apply (RemoveTrackable_at_the_same_cache alice "t1" "l2" _ coin_in log_l1 log_l2_elsewhere);
    try (vm_compute; reflexivity).
  discriminate.
Defined.

Lemma serialize_deserialize_serialize_witness :
  (exists c', deserializeCache (serializeCache cache_c1) ∅ = (Return c', ∅)
              /\ serializeCache c' = serializeCache cache_c1)
  /\ (exists l', deserializeLog (serializeLog log_l1) ∅ = (Return l', ∅)
                 /\ serializeLog l' = serializeLog log_l1)
  /\ (exists x', deserializeTrackable (serializeTrackable coin_in) ∅ = (Return x', ∅)
                 /\ serializeTrackable x' = serializeTrackable coin_in).
Proof.
  apply (serialize_deserialize_serialize cache_c1 log_l1 coin_in ∅). split; reflexivity.
Defined.

(** The same round trip where arrays are sorted: the tags come back in
    another order than they were given in, and serialize to the same bytes. *)
Example serialize_deserialize_serialize_sorted :
  let l := VisitLog.mk "l1" (Some ["t2-IN"; "t1-OUT"]) "alice" "c1" "2021-01-01T00:00:00Z" in
  let l' := VisitLog.mk "l1" (Some ["t1-OUT"; "t2-IN"]) "alice" "c1" "2021-01-01T00:00:00Z" in
  deserializeLog (@serializeLog sort_arrays l) ∅ = (Return l', ∅)
  /\ @serializeLog sort_arrays l' = @serializeLog sort_arrays l.
Proof. split; vm_compute; reflexivity. Qed.

Lemma absent_Trackables_is_empty_witness :
  let w := ledger [] [log_l1; log_l2_bare] [coin_in] in
  let written tag := VisitLog.mk "l2" (Some [tag]) "alice" "c1" "2021-02-01T00:00:00Z" in
  VisitLog.Trackables log_l2_bare = None
  /\ CreateTrackable alice "t2" "l2" "Medal" w
     = (Return (Trackable.mk "t2" "Medal" true "l2"),
        <[makeLogID "l2" := serializeLog (written "t2-IN")]>
          (<[makeTrackableID "t2" := serializeTrackable (Trackable.mk "t2" "Medal" true "l2")]> w))
  /\ RemoveTrackable alice "t1" "l2" w
     = (Return (Trackable.mk "t1" "Coin" false "l2"),
        <[makeLogID "l2" := serializeLog (written "t1-OUT")]>
          (<[makeTrackableID "t1" := serializeTrackable (Trackable.mk "t1" "Coin" false "l2")]> w))
  /\ shown (serializeLog (written "t1-OUT"))
     = "{'Cache':'c1','ID':'l2','Time':'2021-02-01T00:00:00Z','Trackables':['t1-OUT'],'User':'alice'}".
Proof.
  intros w written. split; [reflexivity|]. split; [|split].
  - apply (absent_Trackables_is_empty alice "t2" "l2" w log_l2_bare);
      vm_compute; reflexivity.
  - apply (proj2 (absent_Trackables_is_empty alice "t1" "l2" w log_l2_bare
                    ltac:(vm_compute; reflexivity) eq_refl eq_refl) MoveOut coin_in log_l1);
      try (vm_compute; reflexivity); discriminate.
  - reflexivity.
Defined.

(** ** The further properties on a played ledger *)

Definition bob_later : Context :=
  {| clientIdentity_getID := "bob"; Date_toISOString := "2021-04-01T00:00:00.000Z" |}.

(** alice founds cache c1, logs her visit l1 and leaves the coin t1 with
    it; bob logs the visits l2 and, a month later, l3. *)
Definition founded : gmap string string :=
  snd (submit alice (Call_CreateCache "c1" "Cache" "Desc" "10" "20" "secret") ∅).

Definition logged : gmap string string :=
  snd (submit alice (Call_CreateLog "l1" "c1" "secret") founded).

Definition dropped : gmap string string :=
  snd (submit alice (Call_CreateTrackable "t1" "l1" "Coin") logged).

Definition visited : gmap string string :=
  snd (submit bob_later (Call_CreateLog "l3" "c1" "secret")
         (snd (submit bob (Call_CreateLog "l2" "c1" "secret") dropped))).

(** bob takes the coin out with his visit l2. *)
Definition taken : gmap string string :=
  snd (submit bob (Call_RemoveTrackable "t1" "l2") visited).

Definition visit_l1 : VisitLog.t :=
  VisitLog.mk "l1" (Some ["t1-IN"]) "alice" "c1" "2021-01-01T00:00:00.000Z".

Definition visit_l2 : VisitLog.t :=
  VisitLog.mk "l2" (Some []) "bob" "c1" "2021-03-01T00:00:00.000Z".

Definition coin_taken : Trackable.t := Trackable.mk "t1" "Coin" false "l2".

Example visited_keys :
  map fst (sort_by_key (map_to_list visited))
  = ["CACHE-c1"; "LOG-l1"; "LOG-l2"; "LOG-l3"; "TRACKABLE-t1"].
Proof. vm_compute. reflexivity. Qed.

Lemma reachable_visited : reachable visited.
Proof.
  unfold visited, dropped, logged, founded.
  do 5 (apply reachable_submit; [|first [exact I | split; reflexivity]]).
  apply reachable_empty.
Qed.

Lemma well_formed_visited : well_formed visited.
Proof. apply reachable_ledger. exact reachable_visited. Qed.

Ltac by_computation :=
  vm_compute;
  first [reflexivity | discriminate | exact I | split; reflexivity].


Lemma CreateCache_rejects_a_taken_id_witness :
  CreateCache bob "c1" "Mine" "Now" "0" "0" "open" founded
  = (Throw (AlreadyExists "Cache" "c1"), founded).
Proof.
  apply (CreateCache_rejects_a_taken_id alice bob "c1" "Cache" "Desc" "10" "20" "secret"
           "Mine" "Now" "0" "0" "open" ∅ cache_c1 founded).
  vm_compute. reflexivity.
Defined.

Lemma only_the_maintainer_witness :
  UpdateCache bob "c1" "Mine" "Now" "0" "0" "open" "" visited = (Throw NotMaintainer, visited)
  /\ DeleteCache bob "c1" visited = (Throw NotMaintainer, visited)
  /\ GetCachePass bob "c1" visited = (Throw NotMaintainer, visited).
Proof.
  destruct (only_the_maintainer bob "c1" visited cache_c1) as (Hu & Hd & Hg);
    [by_computation | by_computation | by_computation |].
  split; [apply Hu | split; [exact Hd | exact Hg]].
Defined.

Lemma DeleteCache_frees_the_id_witness :
  let w' := delete (makeCacheID "c1") visited in
  DeleteCache alice "c1" visited = (Return "c1", w')
  /\ GetCache bob "c1" w' = (Throw (NotFound "Cache" "c1"), w')
  /\ exists c w'',
       CreateCache bob "c1" "Mine" "Now" "0" "0" "open" w' = (Return c, w'')
       /\ Cache.Maintainer c = getUserID bob.
Proof.
  intros w'.
  destruct (DeleteCache_frees_the_id alice "c1" visited cache_c1) as (Hd & Hg & Hc);
    [by_computation | by_computation | by_computation |].
  split; [exact Hd | split; [apply Hg | apply Hc]].
Defined.

Lemma GetCachePass_after_CreateCache_witness :
  GetCachePass alice "c1" founded = (Return "secret", founded)
  /\ GetCachePass bob "c1" founded = (Throw NotMaintainer, founded).
Proof.
  split.
  - exact (GetCachePass_after_CreateCache alice "c1" "Cache" "Desc" "10" "20" "secret" ∅
             cache_c1 founded alice eq_refl eq_refl eq_refl).
  - exact (GetCachePass_after_CreateCache alice "c1" "Cache" "Desc" "10" "20" "secret" ∅
             cache_c1 founded bob eq_refl eq_refl eq_refl).
Defined.

Lemma UpdateCache_then_GetCache_witness :
  let c := Cache.mk "c1" "Renamed" "Moved" "11" "21" "fixed" "hidden" "alice" in
  exists w',
    UpdateCache alice "c1" "Renamed" "Moved" "11" "21" "hidden" "fixed" visited = (Return c, w')
    /\ GetCache alice "c1" w' = (Return c, w')
    /\ GetCache bob "c1" w' = (Return (Cache.with_Pass "" c), w').
Proof.
  intros c.
  destruct (UpdateCache_then_GetCache alice "c1" "Renamed" "Moved" "11" "21" "hidden" "fixed"
              visited cache_c1) as (w' & Hu & Hg & Hr);
    [by_computation | by_computation | by_computation | by_computation | by_computation |].
  exists w'. split; [exact Hu | split; [exact Hg | apply Hr; by_computation]].
Defined.

Lemma ReportCache_changes_only_the_Report_witness :
  exists w',
    ReportCache bob "c1" "lid is cracked" visited
    = (Return (Cache.mk "c1" "Cache" "Desc" "10" "20" "lid is cracked" "" "alice"), w')
    /\ GetCachePass alice "c1" w' = (Return "secret", w').
Proof.
  destruct (ReportCache_changes_only_the_Report bob "c1" "lid is cracked" visited cache_c1)
    as (w' & Hr & _ & Hp); [by_computation | by_computation | by_computation |].
  exists w'. split; [exact Hr | apply Hp; reflexivity].
Defined.

Lemma without_the_cache_witness :
  GetCache alice "c7" visited = (Throw (NotFound "Cache" "c7"), visited)
  /\ CreateLog alice "l9" "c7" "secret" visited = (Throw (NotFound "Cache" "c7"), visited).
Proof.
  destruct (without_the_cache alice "c7" visited) as (_ & _ & _ & Hg & _ & Hl);
    [by_computation |].
  split; [exact Hg | apply Hl].
Defined.

Lemma CreateLog_is_gated_by_the_pass_witness :
  CreateLog bob "l4" "c1" "guess" visited = (Throw (Error "Wrong Pass!"), visited)
  /\ fst (CreateLog bob "l4" "c1" "secret" visited)
     = Return (VisitLog.mk "l4" (Some []) "bob" "c1" "2021-03-01T00:00:00.000Z").
Proof.
  split.
  - destruct (CreateLog_is_gated_by_the_pass bob "l4" "c1" "guess" visited cache_c1)
      as [_ Hbad]; [by_computation | by_computation | by_computation |].
    apply Hbad. by_computation.
  - destruct (CreateLog_is_gated_by_the_pass bob "l4" "c1" "secret" visited cache_c1)
      as [Hgood _]; [by_computation | by_computation | by_computation |].
    destruct (Hgood eq_refl) as [E _]. rewrite E. reflexivity.
Defined.

Lemma CreateLog_never_replaces_a_log_witness :
  CreateLog bob "l1" "c1" "secret" logged = (Throw (AlreadyExists "Log" "l1"), logged).
Proof.
  apply (CreateLog_never_replaces_a_log alice bob "l1" "c1" "secret" "c1" "secret" founded
           (VisitLog.mk "l1" (Some []) "alice" "c1" "2021-01-01T00:00:00.000Z") logged);
    by_computation.
Defined.

Lemma CreateTrackable_then_GetTrackable_witness :
  exists w',
    CreateTrackable alice "t1" "l1" "Coin" logged = (Return coin_in, w')
    /\ GetTrackable bob "t1" w' = (Return coin_in, w').
Proof.
  destruct (CreateTrackable_then_GetTrackable alice "t1" "l1" "Coin" logged
              (VisitLog.mk "l1" (Some []) "alice" "c1" "2021-01-01T00:00:00.000Z"))
    as (w' & Hc & Hg & _); [by_computation | by_computation | by_computation |].
  exists w'. split; [exact Hc | apply Hg].
Defined.


Lemma transfers_alternate_witness :
  RemoveTrackable alice "t1" "l1" taken
  = (Throw (Error ("Trackable " +:+ "t1" +:+ " is not inserted")), taken).
Proof.
  assert (E : forall other l',
             LogExists other l' taken = (Return true, taken) ->
             transfer MoveOut other "t1" l' taken
             = (Throw (Error ("Trackable " +:+ "t1" +:+
                              (if inserted_after MoveOut then " is already inserted"
                               else " is not inserted"))), taken)).
  { apply (transfers_alternate MoveOut bob "t1" "l2" visited coin_in visit_l1 visit_l2
             coin_taken taken); by_computation. }
  specialize (E alice "l1"). cbn [transfer inserted_after] in E. apply E. by_computation.
Defined.

Lemma transfer_effect_witness :
  GetTrackable alice "t1" taken = (Return coin_taken, taken)
  /\ (exists new',
         taken !! makeLogID "l2" = Some (serializeLog new')
         /\ VisitLog.User new' = "bob"
         /\ tags new' ≡ₚ ["t1-OUT"])
  /\ taken !! makeLogID "l1" = visited !! makeLogID "l1".
Proof.
  destruct (transfer_effect MoveOut bob "t1" "l2" visited coin_in visit_l1 visit_l2
              coin_taken taken) as (_ & Hg & (new' & Hs & _ & Hu & _ & _ & Ht) & Hf);
    [by_computation | by_computation | by_computation | by_computation | by_computation |].
  split; [apply Hg | split; [|apply Hf; by_computation]].
  exists new'. split; [exact Hs | split; [exact Hu | exact Ht]].
Defined.

Lemma only_the_remover_reinserts_witness :
  fst (InsertTrackable bob_later "t1" "l3" taken)
  = Return (Trackable.mk "t1" "Coin" true "l3")
  /\ clientIdentity_getID bob_later = clientIdentity_getID bob.
Proof.
  split; [by_computation|].
  apply (only_the_remover_reinserts bob "t1" "l2" visited coin_in visit_l1 visit_l2
           coin_taken taken bob_later "l3" (Trackable.mk "t1" "Coin" true "l3")
           (snd (InsertTrackable bob_later "t1" "l3" taken)));
    [exact well_formed_visited | by_computation ..].
Defined.




Lemma a_transaction_keeps_the_ledger_well_formed_witness : well_formed taken.
Proof.
  apply (a_transaction_keeps_the_ledger_well_formed bob (Call_RemoveTrackable "t1" "l2")
           visited); [exact well_formed_visited | exact I].
Defined.

Lemma reachable_ledgers_fail_only_by_the_contract_witness :
  well_formed visited
  /\ (fst (submit bob (Call_DeleteCache "c1") visited) = None
      \/ exists msg, fst (submit bob (Call_DeleteCache "c1") visited) = Some (Error msg)).
Proof.
  apply (reachable_ledgers_fail_only_by_the_contract visited bob (Call_DeleteCache "c1"));
    [exact reachable_visited | exact I].
Defined.

Lemma history_is_kept_witness : keeps_history visited taken.
Proof.
  apply (history_is_kept bob (Call_RemoveTrackable "t1" "l2") visited);
    [exact well_formed_visited | exact I].
Defined.

Lemma existence_queries_tell_what_is_stored_witness :
  CacheExists alice "c1" visited = (Return true, visited)
  /\ LogExists alice "c1" visited = (Return false, visited)
  /\ TrackableExists alice "t1" visited = (Return true, visited).
Proof.
  destruct (existence_queries_tell_what_is_stored alice "c1" visited well_formed_visited)
    as (Hc & Hl & _).
  destruct (existence_queries_tell_what_is_stored alice "t1" visited well_formed_visited)
    as (_ & _ & Ht).
  split; [exact Hc | split; [exact Hl | exact Ht]].
Defined.

Lemma GetAllCaches_lists_the_caches_witness :
  exists stored,
    GetAllCaches bob visited
    = (Return (map (fun c => if isMaintainer bob (Cache.Maintainer c) then c
                             else Cache.with_Pass "" c) stored), visited)
    /\ cache_c1 ∈ stored.
Proof.
  destruct (GetAllCaches_lists_the_caches bob visited well_formed_visited)
    as (stored & Hg & _ & _ & Hin).
  exists stored. split; [exact Hg|]. apply Hin. repeat split; by_computation.
Defined.

Lemma GetAllLogs_lists_the_logs_witness :
  exists returned,
    GetAllLogs bob visited = (Return returned, visited)
    /\ visit_l1 ∈ returned.
Proof.
  destruct (GetAllLogs_lists_the_logs bob visited well_formed_visited)
    as (returned & Hg & _ & _ & Hin).
  exists returned. split; [exact Hg|]. apply Hin. exists visit_l1.
  repeat split; by_computation.
Defined.

Lemma GetAllTrackables_lists_the_trackables_witness :
  exists returned,
    GetAllTrackables bob visited = (Return returned, visited)
    /\ coin_in ∈ returned.
Proof.
  destruct (GetAllTrackables_lists_the_trackables bob visited well_formed_visited)
    as (returned & Hg & _ & _ & Hin).
  exists returned. split; [exact Hg|]. apply Hin. repeat split; by_computation.
Defined.

Lemma a_cache_the_listing_misses_witness :
  let far := Cache.mk "~far" "Far" "Away" "1" "2" "" "pw" "alice" in
  let w' := <[makeCacheID "~far" := serializeCache far]> visited in
  GetCache alice "~far" w' = (Return far, w')
  /\ forall reader listed,
       GetAllCaches reader w' = (Return listed, w') ->
       forall c', c' ∈ listed -> Cache.ID c' <> "~far".
Proof.
  intros far w'.
  apply (a_cache_the_listing_misses alice "~far" "Far" "Away" "1" "2" "pw" visited far w');
    [exact well_formed_visited | by_computation ..].
Defined.

Lemma bytes_determine_the_record_witness :
  deserializeCache (serializeCache cache_c1) ∅ = (Return cache_c1, ∅)
  /\ (forall c, Cache.wf c -> serializeCache cache_c1 = serializeCache c -> cache_c1 = c).
Proof.
  destruct bytes_determine_the_record as (Hd & _ & Hi & _).
  split; [apply Hd; by_computation | intros c Hc; apply Hi; [by_computation | exact Hc]].
Defined.
